(** * CANDO: ranking, neighbor lists, pathway signatures and lookups

    A shallow embedding of the parts of [cando/cando.py] that build, sort,
    save and rank the per-compound neighbor lists ([Compound.similar]), that
    quantify pathways into auxiliary signatures and that look entities up by
    id, together with the properties established about them.

    Python floats are IEEE-754 binary64 values.  They are embedded as the
    Standard Library's [spec_float], whose comparison [SFcompare] is the
    IEEE comparison: every comparison with NaN is false. *)

From Stdlib Require Import String Ascii.
From Stdlib Require Import ZArith List Bool Lia.
From Stdlib Require Import Sorting.Sorted Sorting.Permutation.
From Stdlib Require Import Floats.SpecFloat.
Import ListNotations.

Local Open Scope Z_scope.

(** ** Python floats and their comparison operators *)

Module PyFloat.

Definition float : Type := spec_float.

Definition nan : float := S754_nan.
Definition zero : float := S754_zero false.

(** [math.isnan] *)
Definition isnan (x : float) : bool :=
  match x with
  | S754_nan => true
  | _ => false
  end.

(** [math.isfinite] *)
Definition isfinite (x : float) : bool :=
  match x with
  | S754_zero _ | S754_finite _ _ _ => true
  | _ => false
  end.

(** [x < y], [x <= y], [x > y], [x >= y], [x != y] *)
Definition lt (x y : float) : bool := SFltb x y.
Definition le (x y : float) : bool := SFleb x y.
Definition gt (x y : float) : bool :=
  match SFcompare x y with
  | Some Gt => true
  | _ => false
  end.
Definition ge (x y : float) : bool :=
  match SFcompare x y with
  | Some (Gt | Eq) => true
  | _ => false
  end.

(** The binary64 value of a non-negative integer literal below 2^53:
    the mantissa is shifted to 53 bits, as every normal binary64 has it. *)
Definition of_pos (p : positive) : float :=
  let shift := 53 - Z.log2 (Z.pos p) - 1 in
  match Z.pos p * 2 ^ shift with
  | Z.pos m => S754_finite false m (- shift)
  | _ => S754_zero false
  end.

(** The literal [100000] of the sort key. *)
Definition f100000 : float := Eval cbv in of_pos 100000.

End PyFloat.

Import PyFloat.

(** ** Data model

    A [Compound] object is referred to by its position in
    [CANDO.compounds] (its [cref]); an entry of [Compound.similar] is the
    Python tuple [(other compound, distance)]. *)

Definition cref : Type := nat.
Definition neighbor : Type := (cref * float)%type.

Record Compound : Type := mkCompound {
  name : string;
  id_ : Z;
  index : Z;
  sig : list float;
  aux_sig : list float;
  similar : list neighbor;
  similar_computed : bool;
  similar_sorted : bool
}.

Definition set_similar (l : list neighbor) (c : Compound) : Compound :=
  mkCompound (name c) (id_ c) (index c) (sig c) (aux_sig c) l
             (similar_computed c) (similar_sorted c).

Definition set_similar_computed (b : bool) (c : Compound) : Compound :=
  mkCompound (name c) (id_ c) (index c) (sig c) (aux_sig c) (similar c)
             b (similar_sorted c).

Definition set_similar_sorted (b : bool) (c : Compound) : Compound :=
  mkCompound (name c) (id_ c) (index c) (sig c) (aux_sig c) (similar c)
             (similar_computed c) b.

Definition set_aux_sig (a : list float) (c : Compound) : Compound :=
  mkCompound (name c) (id_ c) (index c) (sig c) a (similar c)
             (similar_computed c) (similar_sorted c).

(** ** Ranking engine: the four competitive ranking functions of
    [canbenchmark]

    Each one walks [sims] from the front, adds one to [rank] while the
    comparison of the entry's distance with [r] holds, returns [rank] at the
    first entry where it fails, and returns [len(sims)] when the loop runs to
    the end.  [rank] starts as the int [0] and grows by [1.0]: it is always
    an integral number, embedded as [Z]. *)

Section RankScan.

Variable holds : float -> float -> bool.

(** The [for sim in sims] loop; [None] when it ends without a [return]. *)
Fixpoint rank_scan (sims : list neighbor) (r : float) (rank : Z) : option Z :=
  match sims with
  | [] => None
  | sim :: rest =>
      if holds (snd sim) r then rank_scan rest r (rank + 1) else Some rank
  end.

Definition competitive (sims : list neighbor) (r : float) : Z :=
  match rank_scan sims r 0 with
  | Some rank => rank
  | None => Z.of_nat (length sims)
  end.

End RankScan.

(** [if sim[1] < r] *)
Definition competitive_standard : list neighbor -> float -> Z := competitive lt.
(** [if sim[1] <= r] *)
Definition competitive_modified : list neighbor -> float -> Z := competitive le.
(** [if sim[1] > r] *)
Definition competitive_standard_bottom : list neighbor -> float -> Z := competitive gt.
(** [if sim[1] >= r] *)
Definition competitive_modified_bottom : list neighbor -> float -> Z := competitive ge.

(** Number of neighbors whose distance satisfies a comparison with [r]. *)
Definition count_neighbors (holds : float -> float -> bool)
    (sims : list neighbor) (r : float) : Z :=
  Z.of_nat (length (filter (fun sim => holds (snd sim) r) sims)).

(** A neighbor list is ascending by distance when each entry's distance is at
    most the next one's, NaN counting as larger than every other value. *)
Definition asc_le (x y : float) : bool :=
  isnan y || (negb (isnan x) && le x y).

Fixpoint is_ascending (sims : list neighbor) : bool :=
  match sims with
  | a :: (b :: _) as rest => asc_le (snd a) (snd b) && is_ascending rest
  | _ => true
  end.

(** ** Python outcomes

    A call either returns a value or raises; [quit()] and [exit()] raise
    [SystemExit].  [RecursionError] is what the interpreter raises when the
    call stack outgrows its recursion limit. *)

Inductive exn : Type :=
| LookupError
| KeyError
| IndexError
| AttributeError
| RecursionError
| ValueError
| TypeError
| ZeroDivisionError
| SystemExit.

Inductive result (A : Type) : Type :=
| Ok (a : A)
| Raise (e : exn).

Arguments Ok {A} a.
Arguments Raise {A} e.

Definition bind {A B : Type} (m : result A) (f : A -> result B) : result B :=
  match m with
  | Ok a => f a
  | Raise e => Raise e
  end.

Notation "x <- m ;; k" := (bind m (fun x => k))
  (at level 61, m at next level, right associativity).

(** [for i in l: st = body(i, st)], stopping at the first exception. *)
Fixpoint for_each {St : Type} (l : list nat) (body : nat -> St -> result St)
    (st : St) : result St :=
  match l with
  | [] => Ok st
  | i :: rest => st' <- body i st ;; for_each rest body st'
  end.

(** [l[i]] for a non-negative [i]. *)
Definition getitem {A : Type} (l : list A) (i : nat) : result A :=
  match nth_error l i with
  | Some a => Ok a
  | None => Raise IndexError
  end.


(** Truth value of a Python string: false exactly for the empty string. *)
Definition truthy (s : string) : bool :=
  match s with
  | EmptyString => false
  | _ => true
  end.

(** [str.strip()] on ASCII text. *)
Definition is_space (c : ascii) : bool :=
  let n := nat_of_ascii c in
  ((9 <=? n) && (n <=? 13) || (28 <=? n) && (n <=? 32))%nat.

Fixpoint lstrip (s : string) : string :=
  match s with
  | EmptyString => EmptyString
  | String c s' => if is_space c then lstrip s' else s
  end.

Fixpoint rstrip (s : string) : string :=
  match s with
  | EmptyString => EmptyString
  | String c s' =>
      match rstrip s' with
      | EmptyString => if is_space c then EmptyString else String c EmptyString
      | r => String c r
      end
  end.

Definition strip (s : string) : string := rstrip (lstrip s).

(** ** [sorted(l, key=...)]

    Python's [sorted] is a stable sort that compares keys with [<].  Stable
    insertion from the right gives the same list whenever [<] is a strict
    weak order on the keys, which it is on floats that are not NaN. *)

Section Sorted.

Context {A : Type}.
Variable key : A -> float.

Fixpoint insert_sorted (x : A) (l : list A) : list A :=
  match l with
  | [] => [x]
  | y :: l' =>
      if lt (key y) (key x) then y :: insert_sorted x l' else x :: y :: l'
  end.

Definition sorted (l : list A) : list A := fold_right insert_sorted [] l.

End Sorted.

(** A list is ascending by key when no entry's key is less than the key of
    an entry before it. *)
Definition key_ascending {A : Type} (key : A -> float) (l : list A) : Prop :=
  StronglySorted (fun a b => lt (key b) (key a) = false) l.

(** [lambda x: x[1] if not math.isnan(x[1]) else 100000] *)
Definition sort_key (x : neighbor) : float :=
  if negb (isnan (snd x)) then snd x else f100000.

(** The three statements that sort one compound's list and mark it:
    [c.similar = sorted(...)], [c.similar_computed = True],
    [c.similar_sorted = True]. *)
Definition sort_and_mark (c : Compound) : Compound :=
  set_similar_sorted true
    (set_similar_computed true
       (set_similar (sorted sort_key (similar c)) c)).

(** ** Proteins, pathways, effects and the CANDO object *)

Record Protein : Type := mkProtein {
  prot_id_ : string
}.

Record Pathway : Type := mkPathway {
  pw_id_ : string;
  pw_proteins : list Protein
}.

Record Indication : Type := mkIndication {
  ind_id_ : string;
  ind_name : string;
  ind_compounds : list cref;
  ind_pathways : list Pathway
}.

Record ADR : Type := mkADR {
  adr_id_ : string;
  adr_name : string;
  adr_compounds : list cref
}.

Record CANDO : Type := mkCANDO {
  compounds : list Compound;
  indications : list Indication;
  pathways : list Pathway;
  adrs : list ADR;
  protein_id_to_index : list (string * nat);
  pathway_quantifier : string;
  indication_pathways : string;
  indication_proteins : string;
  similarity : bool
}.

Definition set_compounds (cs : list Compound) (self : CANDO) : CANDO :=
  mkCANDO cs (indications self) (pathways self) (adrs self)
          (protein_id_to_index self) (pathway_quantifier self)
          (indication_pathways self) (indication_proteins self)
          (similarity self).

(** ** Lookups by id *)

(** [get_compound(id_=...)]: the first compound with that id, or a printed
    message and [None]. *)
Definition get_compound_id (self : CANDO) (i : Z) : result (option Compound) :=
  Ok (find (fun c => id_ c =? i) (compounds self)).

(** [id_d[name]] after [map(return_names, self.compounds)]: the id of the
    last compound carrying that name. *)
Definition id_d (self : CANDO) (nm : string) : option Z :=
  fold_left
    (fun d c => if String.eqb (name c) nm then Some (id_ c) else d)
    (compounds self) None.

Definition get_compound (self : CANDO) (i : option Z) (nm : string)
    : result (option Compound) :=
  match i with
  | Some i => get_compound_id self i
  | None =>
      let nm := strip nm in
      match id_d self nm with
      | None => Ok None
      | Some i => get_compound_id self i
      end
  end.

Definition get_indication (self : CANDO) (ind_id : string) : result Indication :=
  match find (fun i => String.eqb (ind_id_ i) ind_id) (indications self) with
  | Some i => Ok i
  | None => Raise LookupError
  end.

Definition get_pathway (self : CANDO) (i : string) : result Pathway :=
  match find (fun p => String.eqb (pw_id_ p) i) (pathways self) with
  | Some p => Ok p
  | None => Raise LookupError
  end.

Definition get_adr (self : CANDO) (i : string) : result ADR :=
  match find (fun a => String.eqb (adr_id_ a) i) (adrs self) with
  | Some a => Ok a
  | None => Raise LookupError
  end.

(** ** Building the neighbor lists

    The three places that fill [Compound.similar].  The distance values come
    from outside the embedded code (a file already split and parsed by
    [float], or scikit-learn's [pairwise_distances]) and are inputs here. *)

Definition one : float := Eval cbv in of_pos 1.

(** [1 - s] in binary64 *)
Definition one_minus (s : float) : float := SFsub 53 1024 one s.

Fixpoint update_nth {A : Type} (i : nat) (f : A -> A) (l : list A) : list A :=
  match l, i with
  | [], _ => []
  | a :: l', O => f a :: l'
  | a :: l', S i' => a :: update_nth i' f l'
  end.

(** [self.compounds[i].similar.append(e)] *)
Definition append_similar (i : nat) (e : neighbor) (cs : list Compound)
    : list Compound :=
  update_nth i (fun c => set_similar (similar c ++ [e]) c) cs.

(** *** Reading a distance file ([read_rmsds]) *)

(** One iteration of [for j in range(len(scores))] for the compound at
    position [i]. *)
Definition read_score (similarity : bool) (i : nat) (scores : list float)
    (j : nat) (cs : list Compound) : result (list Compound) :=
  if Nat.eqb i j then Ok cs
  else
    s <- getitem scores j ;;
    let s := if similarity then one_minus s else s in
    _ <- getitem cs j ;;
    Ok (append_similar i (j, s) cs).

(** One iteration of [for i in range(len(lines))]. *)
Definition read_line (similarity : bool) (lines : list (list float))
    (i : nat) (cs : list Compound) : result (list Compound) :=
  _ <- getitem cs i ;;
  scores <- getitem lines i ;;
  for_each (seq 0 (length scores)) (read_score similarity i scores) cs.

Definition read_rmsds (similarity : bool) (lines : list (list float))
    (cs : list Compound) : result (list Compound) :=
  cs' <- for_each (seq 0 (length lines)) (read_line similarity lines) cs ;;
  Ok (map sort_and_mark cs').

(** *** All-pairs distances ([compute_distance]) *)

(** The body of the double loop over the condensed distance matrix; the state
    is the compounds and the running position [n]. *)
Definition pair_step (distance_matrix : list float) (i j : nat)
    (st : list Compound * nat) : result (list Compound * nat) :=
  let '(cs, n) := st in
  if Nat.eqb i j then Ok st
  else
    r <- getitem distance_matrix n ;;
    Ok (append_similar j (i, r) (append_similar i (j, r) cs), S n).

Definition add_pairs (distance_matrix : list float) (cs : list Compound)
    : result (list Compound * nat) :=
  let nc := length cs in
  for_each (seq 0 nc)
    (fun i => for_each (seq i (nc - i)) (pair_step distance_matrix i))
    (cs, O).

Definition compute_distances (distance_matrix : list float)
    (cs : list Compound) : result (list Compound) :=
  st <- add_pairs distance_matrix cs ;;
  Ok (map sort_and_mark (fst st)).

(** *** One-vs-all generation ([generate_similar_sigs]) *)

(** [q]: starts at 0 and is set to [ci] at every compound whose id equals
    the query's. *)
Fixpoint find_q (cmpd_id : Z) (cs : list Compound) (ci q : nat) : nat :=
  match cs with
  | [] => q
  | c :: rest => find_q cmpd_id rest (S ci) (if cmpd_id =? id_ c then ci else q)
  end.

Definition similar_step (q : nat) (cs : list Compound) (distances : list float)
    (i : nat) (sim : list neighbor) : result (list neighbor) :=
  _ <- getitem cs i ;;
  if Nat.eqb i q then Ok sim
  else
    d <- getitem distances i ;;
    Ok (sim ++ [(i, d)]).

(** Returns the query compound as the call leaves it; [distances] is the row
    [distances[0]] of the one-vs-all distance array. *)
Definition generate_similar_sigs (cs : list Compound) (cmpd : Compound)
    (sort : bool) (distances : list float) : result Compound :=
  let q := find_q (id_ cmpd) cs O O in
  sim <- for_each (seq 0 (length cs)) (similar_step q cs distances) [] ;;
  let cmpd := set_similar sim cmpd in
  if sort then Ok (sort_and_mark cmpd)
  else Ok (set_similar_computed true cmpd).

(** ** Saving the distances ([rmsds_to_str])

    [format_float] is [ '{}'.format ] on a float. *)

Definition tab : string := String (ascii_of_nat 9) EmptyString.
Definition newline : string := String (ascii_of_nat 10) EmptyString.

(** [o[:-1]] *)
Fixpoint drop_last (s : string) : string :=
  match s with
  | EmptyString => EmptyString
  | String c EmptyString => EmptyString
  | String c s' => String c (drop_last s')
  end.

Section Saving.

Variable format_float : float -> string.

Local Open Scope string_scope.

(** The loop [for si in range(len(cmpd.similar))], at position [si] with
    the entries from [si] on still to visit. *)
Fixpoint rmsds_loop (similarity : bool) (ci si : nat) (sims : list neighbor)
    (o : string) : string :=
  match sims with
  | [] => o
  | s :: rest =>
      let o :=
        if Nat.eqb ci si
        then (if similarity then o ++ "1.0" ++ tab else o ++ "0.0" ++ tab)
        else o in
      let o := o ++ format_float (snd s) ++ tab in
      rmsds_loop similarity ci (S si) rest o
  end.

Definition rmsds_to_str (similarity : bool) (cmpd : Compound) (ci : nat)
    : string :=
  drop_last (rmsds_loop similarity ci O (similar cmpd) "") ++ newline.

(** The lines written to [save_rmsds], one per compound. *)
Definition save_rmsds (similarity : bool) (cs : list Compound) : list string :=
  map (fun ci => match nth_error cs ci with
                 | Some c => rmsds_to_str similarity c ci
                 | None => ""
                 end)
      (seq 0 (length cs)).

(** The fields of a line, before they are joined by tabs. *)
Fixpoint rmsds_fields (similarity : bool) (ci si : nat)
    (sims : list neighbor) : list string :=
  match sims with
  | [] => []
  | s :: rest =>
      (if Nat.eqb ci si
       then [if similarity then "1.0" else "0.0"]
       else [])
      ++ format_float (snd s) :: rmsds_fields similarity ci (S si) rest
  end.

End Saving.

(** ** Pathway aggregation ([quantify_pathways])

    The built-in [sum] and [numpy.average] are floating-point reductions
    outside the embedded code; they are parameters.  The built-in [max] keeps
    the first element and replaces it by every later one that is greater. *)

Fixpoint mapM {A B : Type} (f : A -> result B) (l : list A) : result (list B) :=
  match l with
  | [] => Ok []
  | a :: rest => b <- f a ;; bs <- mapM f rest ;; Ok (b :: bs)
  end.

Fixpoint max_from (m : float) (l : list float) : float :=
  match l with
  | [] => m
  | x :: rest => max_from (if gt x m then x else m) rest
  end.

Definition py_max (l : list float) : result float :=
  match l with
  | [] => Raise ValueError
  | x :: rest => Ok (max_from x rest)
  end.

(** [d[k]] on a dict given as its items. *)
Fixpoint dict_get (d : list (string * nat)) (k : string) : result nat :=
  match d with
  | [] => Raise KeyError
  | (k', v) :: rest => if String.eqb k' k then Ok v else dict_get rest k
  end.

Definition has_proteins (path : Pathway) : bool :=
  (0 <? length (pw_proteins path))%nat.

Section Quantify.

Variable py_sum : list float -> float.
Variable np_average : list float -> float.

Local Open Scope string_scope.

(** The choice of [func]; [None] is the Python [None] of the "proteins"
    quantifier. *)
Definition select_func (self : CANDO)
    : result (option (list float -> result float)) :=
  let pq := pathway_quantifier self in
  if String.eqb pq "max" then Ok (Some py_max)
  else if String.eqb pq "sum" then Ok (Some (fun l => Ok (py_sum l)))
  else if String.eqb pq "avg" then Ok (Some (fun l => Ok (np_average l)))
  else if String.eqb pq "proteins" then
    if negb (truthy (indication_pathways self)) then Raise SystemExit
    else Ok None
  else Raise SystemExit.

(** [check_proteins(paths)], run with [depth] stack frames left.  The
    second component counts the fallbacks to [self.pathways] (the "using all
    pathways" messages printed).  The message reads [indication.id_], which
    raises when [indication] is [None]. *)
Fixpoint check_proteins (depth : nat) (self : CANDO)
    (indication : option Indication) (paths : list Pathway)
    : result (list Pathway) * nat :=
  match depth with
  | O => (Raise RecursionError, O)
  | S depth' =>
      let pl := filter has_proteins paths in
      let n := length pl in
      if (0 <? n)%nat then (Ok pl, O)
      else
        match indication with
        | None => (Raise AttributeError, O)
        | Some _ =>
            let (r, k) := check_proteins depth' self indication (pathways self) in
            (r, S k)
        end
  end.

(** The choice of [pws]. *)
Definition select_pathways (depth : nat) (self : CANDO)
    (indication : option Indication) : result (list Pathway) * nat :=
  match indication with
  | Some ind =>
      if Nat.eqb (length (ind_pathways ind)) 0 then (Ok (pathways self), O)
      else check_proteins depth self indication (ind_pathways ind)
  | None => check_proteins depth self None (pathways self)
  end.

(** [c.sig[self.protein_id_to_index[p.id_]]] *)
Definition protein_score (self : CANDO) (c : Compound) (p : Protein)
    : result float :=
  ch_i <- dict_get (protein_id_to_index self) (prot_id_ p) ;;
  getitem (sig c) ch_i.

(** The loop [for pw in pws] for one compound.  [pw_sig_all] is a flat list
    of scores under "proteins" ([flat]) and a list of lists otherwise
    ([nested]). *)
Fixpoint pw_sig_all_loop (self : CANDO) (c : Compound) (pws : list Pathway)
    (flat : list float) (nested : list (list float))
    : result (list float * list (list float)) :=
  match pws with
  | [] => Ok (flat, nested)
  | pw :: rest =>
      if Nat.eqb (length (pw_proteins pw)) 0
      then pw_sig_all_loop self c rest flat nested
      else
        pw_sig <- mapM (protein_score self c) (pw_proteins pw) ;;
        if String.eqb (pathway_quantifier self) "proteins"
        then pw_sig_all_loop self c rest (flat ++ pw_sig) nested
        else pw_sig_all_loop self c rest flat (nested ++ [pw_sig])
  end.

(** The new [c.aux_sig]. *)
Definition compound_aux_sig (self : CANDO)
    (func : option (list float -> result float)) (c : Compound)
    (pws : list Pathway) : result (list float) :=
  acc <- pw_sig_all_loop self c pws [] [] ;;
  if negb (String.eqb (pathway_quantifier self) "proteins") then
    match func with
    | Some f => mapM f (snd acc)
    | None => Raise TypeError
    end
  else Ok (fst acc).

(** The loop [for ci in range(len(self.compounds))]. *)
Definition quantify_loop (self : CANDO)
    (func : option (list float -> result float)) (pws : list Pathway)
    : result CANDO :=
  cs <- mapM (fun c => aux <- compound_aux_sig self func c pws ;;
                       Ok (set_aux_sig aux c))
             (compounds self) ;;
  Ok (set_compounds cs self).

Definition quantify_pathways (depth : nat) (self : CANDO)
    (indication : option Indication) : result CANDO * nat :=
  match select_func self with
  | Raise e => (Raise e, O)
  | Ok func =>
      let (r, k) := select_pathways depth self indication in
      (pws <- r ;; quantify_loop self func pws, k)
  end.

End Quantify.

(** ** Continuous-mode cutoffs ([cont_metrics])

    [int(avl/k)] divides the length by a float and truncates; for a length
    below 2^44 the rounded quotient lies in the same unit interval as the
    exact one, so the result is the truncated integer quotient. *)




(** ** The sorting step at the start of [canbenchmark] *)

(** [c.similar = sorted(...)]; [c.similar_sorted = True] *)
Definition sort_for_benchmark (c : Compound) : Compound :=
  set_similar_sorted true (set_similar (sorted sort_key (similar c)) c).

Definition canbenchmark_sort (self : CANDO) : result CANDO :=
  if negb (truthy (indication_proteins self))
     && negb (truthy (indication_pathways self))
  then
    c0 <- getitem (compounds self) 0 ;;
    if negb (similar_sorted c0)
    then Ok (set_compounds (map sort_for_benchmark (compounds self)) self)
    else Ok self
  else Ok self.

(** ** Sample values for the examples *)

Definition f2 : float := Eval cbv in of_pos 2.
Definition f3 : float := Eval cbv in of_pos 3.
Definition f200000 : float := Eval cbv in of_pos 200000.

Definition blank_compound (i : Z) (sims : list neighbor) (is_sorted : bool)
    : Compound :=
  mkCompound EmptyString i i [] [] sims false is_sorted.

Definition sample_cando (cs : list Compound) : CANDO :=
  mkCANDO cs [] [] [] [] "max" "" "" false.

(** A pathway none of whose proteins is in the matrix, an indication that
    has only this pathway, and a CANDO object whose full pathway set is this
    pathway alone. *)
Definition empty_pathway : Pathway := mkPathway "hsa00001" [].

Definition orphan_indication : Indication :=
  mkIndication "MESH:D000001" "disease" [] [empty_pathway].

Definition orphan_cando : CANDO :=
  mkCANDO [blank_compound 0 [] false] [orphan_indication] [empty_pathway]
          [] [] "max" "ind2path.tsv" "" false.

(** [''.join(f + '\t' for f in fields)] *)
Fixpoint tabbed (fields : list string) : string :=
  match fields with
  | [] => EmptyString
  | f :: rest => (f ++ tab ++ tabbed rest)%string
  end.




(** Two pathways of 2 and 3 member proteins over a 5-protein matrix. *)
Definition five_proteins : list (string * nat) :=
  [("P1"%string, 0%nat); ("P2"%string, 1%nat); ("P3"%string, 2%nat);
   ("P4"%string, 3%nat); ("P5"%string, 4%nat)].

Definition pathway_of_2 : Pathway :=
  mkPathway "pwA" [mkProtein "P1"; mkProtein "P2"].

Definition pathway_of_3 : Pathway :=
  mkPathway "pwB" [mkProtein "P3"; mkProtein "P4"; mkProtein "P5"].

Definition five_scores : Compound :=
  mkCompound "c" 0 0 [one; f2; f3; f2; one] [] [] false false.


(** No compound's neighbor list holds an entry that refers to the compound
    itself. *)
Definition no_self_reference (cs : list Compound) : Prop :=
  forall i c e, nth_error cs i = Some c -> In e (similar c) -> fst e <> i.

(** The state of the all-pairs double loop when it is about to visit the pair
    [(i, j)]: the lists hold no self reference and [n] counts the pairs
    [(i', j')], [i' < j'], visited so far. *)
Definition pairs_invariant (nc i j : nat) (st : list Compound * nat) : Prop :=
  no_self_reference (fst st) /\
  length (fst st) = nc /\
  2 * Z.of_nat (snd st)
  = Z.of_nat i * (2 * Z.of_nat nc - Z.of_nat i - 1)
    + 2 * Z.max 0 (Z.of_nat j - Z.of_nat i - 1).


(** ** The benchmark scan of [canbenchmark]

    For a member compound of an effect the code walks the compound's
    neighbor list to the first entry whose compound is associated with the
    same effect, turns that entry into a value under the chosen ranking, and
    compares the value with every cutoff.  [member k] stands for
    [effect in self.compounds[k].indications] (or [.adrs]). *)

Section Benchmark.

Variable member : cref -> bool.

(** [for cs in c.similar: if effect in cs[0].indications: ... break], with
    the position of the entry reached. *)
Fixpoint first_match (sims : list neighbor) (p : nat) : option (nat * neighbor) :=
  match sims with
  | [] => None
  | cs :: rest =>
      if member (fst cs) then Some (p, cs) else first_match rest (S p)
  end.

(** Equality of two entries as [list.index] tests it: the same compound
    object and distances that compare equal. *)
Definition entry_eq (a b : neighbor) : bool :=
  Nat.eqb (fst a) (fst b) && SFeqb (snd a) (snd b).

(** [c.similar.index(cs)] for the entry [cs] that sits at position [p]: the
    first position that holds [cs] itself or an entry equal to it. *)
Fixpoint list_index (sims : list neighbor) (p : nat) (cs : neighbor) (k : nat)
    : result nat :=
  match sims with
  | [] => Raise ValueError
  | e :: rest =>
      if Nat.eqb k p || entry_eq e cs then Ok k
      else list_index rest p cs (S k)
  end.

(** The value of a matched entry when [continuous] is false. *)
Definition rank_value (bottom : bool) (ranking : string)
    (sims : list neighbor) (p : nat) (cs : neighbor) : result Z :=
  let cs_rmsd := snd cs in
  if bottom then
    if String.eqb ranking "modified"
    then Ok (competitive_modified_bottom sims cs_rmsd)
    else if String.eqb ranking "standard"
    then Ok (competitive_standard_bottom sims cs_rmsd)
    else if String.eqb ranking "ordinal"
    then k <- list_index sims p cs 0 ;; Ok (Z.of_nat k)
    else Raise SystemExit
  else if String.eqb ranking "modified"
  then Ok (competitive_modified sims cs_rmsd)
  else if String.eqb ranking "standard"
  then Ok (competitive_standard sims cs_rmsd)
  else if String.eqb ranking "ordinal"
  then k <- list_index sims p cs 0 ;; Ok (Z.of_nat k)
  else Raise SystemExit.

(** The 0/1 columns of a raw-results row: [value <= x[1]] for every cutoff. *)
Definition hit_row (value : Z) (metrics : list (Z * Z)) : list bool :=
  map (fun x => value <=? snd x) metrics.

(** What one member compound contributes: nothing when no neighbor shares the
    effect, otherwise its hit row and its value. *)
Definition observe (bottom : bool) (ranking : string) (metrics : list (Z * Z))
    (sims : list neighbor) : result (option (list bool * Z)) :=
  match first_match sims 0 with
  | None => Ok None
  | Some (p, cs) =>
      value <- rank_value bottom ranking sims p cs ;;
      Ok (Some (hit_row value metrics, value))
  end.

End Benchmark.

(** *** Generation for some compounds ([generate_some_similar_sigs])

    The compounds to process are objects of [self.compounds]; they are given
    here by their positions, and the loop updates them in place in the
    collection.  [distances] is the array returned by [pairwise_distances],
    one row per processed compound. *)

(** One iteration of [for i in range(n)] for the compound at position [k],
    the [j]-th one to process, whose id is [qj]. *)
Definition some_step (k : cref) (qj : Z) (distances : list (list float))
    (j i : nat) (cs : list Compound) : result (list Compound) :=
  c2 <- getitem cs i ;;
  let id2 := id_ c2 in
  if id2 =? qj then Ok cs
  else
    row <- getitem distances j ;;
    d <- getitem row i ;;
    Ok (append_similar k (i, d) cs).

(** One iteration of [for j in range(len(cmpds))]. *)
Definition some_compound (cmpds : list cref) (q : list Z) (sort : bool)
    (distances : list (list float)) (n j : nat) (cs : list Compound)
    : result (list Compound) :=
  k <- getitem cmpds j ;;
  qj <- getitem q j ;;
  let cs := update_nth k (set_similar []) cs in
  cs <- for_each (seq 0 n) (some_step k qj distances j) cs ;;
  if sort then Ok (update_nth k sort_and_mark cs)
  else Ok (update_nth k (set_similar_computed true) cs).

Definition generate_some_similar_sigs (cs : list Compound)
    (cmpds : list cref) (sort : bool) (distances : list (list float))
    : result (list Compound) :=
  q <- mapM (fun k => cmpd <- getitem cs k ;; Ok (id_ cmpd)) cmpds ;;
  let n := length cs in
  for_each (seq 0 (length cmpds)) (some_compound cmpds q sort distances n) cs.

(** A neighbor list that holds, once each, the positions below [m] of the
    compounds whose id differs from [qj]. *)
Definition others_by_id (ids : list Z) (m : nat) (qj : Z) (c : Compound)
    : Prop :=
  NoDup (map fst (similar c)) /\
  forall i, In i (map fst (similar c)) <->
            (i < m)%nat /\ exists z, nth_error ids i = Some z /\ z <> qj.

(** Three compounds of which the first two carry the same id. *)
Definition twin_compounds : list Compound :=
  [blank_compound 5 [] false; blank_compound 5 [] false;
   blank_compound 7 [] false].

(** *** The all-pairs lists as a whole

    [condensed_index nc i j], for [i < j < nc], is the number of pairs
    [(i', j')], [i' < j'], that come before [(i, j)] when the pairs are
    listed row by row: the position of the pair in a condensed distance
    matrix. *)
Definition condensed_index (nc i j : nat) : nat :=
  (i * (2 * nc - i - 1) / 2 + (j - i - 1))%nat.

(** The pair of positions [a], [b] has been visited when the double loop is
    about to visit [(i, j)]. *)
Definition pair_seen (nc i j a b : nat) : Prop :=
  ((a < b /\ (a < i \/ (a = i /\ b < j)) /\ b < nc) \/
   (b < a /\ (b < i \/ (b = i /\ a < j)) /\ a < nc))%nat.

(** The neighbor list of the compound at position [a] at that moment: one
    entry per visited pair, carrying the pair's distance. *)
Definition pairs_listed (dm : list float) (nc i j a : nat) (c : Compound)
    : Prop :=
  NoDup (map fst (similar c)) /\
  (forall b, In b (map fst (similar c)) <-> pair_seen nc i j a b) /\
  (forall e, In e (similar c) ->
     nth_error dm (condensed_index nc (Nat.min a (fst e)) (Nat.max a (fst e)))
     = Some (snd e)).

Definition all_pairs_invariant (dm : list float) (nc i j : nat)
    (st : list Compound * nat) : Prop :=
  length (fst st) = nc /\
  2 * Z.of_nat (snd st)
  = Z.of_nat i * (2 * Z.of_nat nc - Z.of_nat i - 1)
    + 2 * Z.max 0 (Z.of_nat j - Z.of_nat i - 1) /\
  forall a c, nth_error (fst st) a = Some c -> pairs_listed dm nc i j a c.

(** Four compounds with empty lists and the six distances of their pairs. *)
Definition four_compounds : list Compound :=
  [blank_compound 0 [] false; blank_compound 1 [] false;
   blank_compound 2 [] false; blank_compound 3 [] false].

Definition six_distances : list float :=
  [of_pos 6; of_pos 5; of_pos 4; of_pos 3; of_pos 2; of_pos 1].

(** ** Fingerprint similarity ([tanimoto_dense], [tanimoto_sparse]) *)

(** The float of an int whose absolute value is below 2^53 *)
Definition of_int (z : Z) : float :=
  match z with
  | Z0 => zero
  | Zpos p => of_pos p
  | Zneg p => SFopp (of_pos p)
  end.

(** [x / y] for a float [x] and an int [y] *)
Definition truediv_int (x : float) (y : Z) : result float :=
  if y =? 0 then Raise ZeroDivisionError
  else Ok (SFdiv 53 1024 x (of_int y)).

(** [x / y] on floats *)
Definition truediv (x y : float) : result float :=
  if SFeqb y zero then Raise ZeroDivisionError else Ok (SFdiv 53 1024 x y).

(** [x in l] on a list of ints *)
Definition py_in (x : Z) (l : list Z) : bool := existsb (Z.eqb x) l.

(** [len(l)] *)
Definition len {A : Type} (l : list A) : Z := Z.of_nat (length l).

Definition tanimoto_dense (list1 list2 : list Z) : result float :=
  let c := filter (fun common_item => py_in common_item list2) list1 in
  truediv_int (of_int (len c)) (len list1 + len list2 - len c).

(** [s[i]] on a string, for a non-negative [i] *)
Definition str_getitem (s : string) (i : nat) : result ascii :=
  match String.get i s with
  | Some c => Ok c
  | None => Raise IndexError
  end.

(** [n += 1] on a float counter *)
Definition incr (n : float) : float := SFadd 53 1024 n one.

(** One iteration of [for i in range(len(str1))]; the state is
    [(n_c, n_a, n_b)]. *)
Definition sparse_step (str1 str2 : string) (i : nat)
    (st : float * float * float) : result (float * float * float) :=
  let '(n_c, n_a, n_b) := st in
  a <- str_getitem str1 i ;;
  both <- (if Ascii.eqb a "1"
           then b <- str_getitem str2 i ;; Ok (Ascii.eqb b "1")
           else Ok false) ;;
  let n_c := if both then incr n_c else n_c in
  a <- str_getitem str1 i ;;
  let n_a := if Ascii.eqb a "1" then incr n_a else n_a in
  b <- str_getitem str2 i ;;
  let n_b := if Ascii.eqb b "1" then incr n_b else n_b in
  Ok (n_c, n_a, n_b).

Definition tanimoto_sparse (str1 str2 : string) : result float :=
  st <- for_each (seq 0 (String.length str1)) (sparse_step str1 str2)
          (zero, zero, zero) ;;
  let '(n_c, n_a, n_b) := st in
  if SFeqb (SFadd 53 1024 (SFadd 53 1024 n_c n_a) n_b) zero then Ok zero
  else truediv n_c (SFsub 53 1024 (SFadd 53 1024 n_a n_b) n_c).

(** No ['1'] among the first [n] characters of [s]. *)
Definition no_ones (n : nat) (s : string) : Prop :=
  forall i c, (i < n)%nat -> String.get i s = Some c -> Ascii.eqb c "1" = false.

Definition half : float := Eval cbv in SFdiv 53 1024 one f2.

(** ** Printing the nearest compounds ([similar_compounds])

    The call with [cando_cmpd] set and no [new_sig]: the lists are
    regenerated with [sort=True], [n + 1] rows are printed, and the sorted
    list is returned. *)
Definition similar_compounds (cs : list Compound) (cando_cmpd : Compound)
    (n : Z) (distances : list float) : result (list neighbor) :=
  cmpd <- generate_similar_sigs cs cando_cmpd true distances ;;
  _ <- for_each (seq 0 (Z.to_nat (n + 1)))
         (fun i _ => _ <- getitem (similar cmpd) i ;; Ok tt) tt ;;
  Ok (similar cmpd).

(** Compounds named for the examples. *)
Definition named_compound (nm : string) (i : Z) : Compound :=
  mkCompound nm i i [] [] [] false false.

Definition aspirin_twice : list Compound :=
  [named_compound "aspirin" 10; named_compound "caffeine" 11;
   named_compound "aspirin" 12; named_compound "niacin" 13].

(** A platform whose full pathway set has two pathways with member proteins
    and one without, and an indication whose only pathway is the one
    without. *)
Definition mixed_cando : CANDO :=
  mkCANDO [five_scores] [orphan_indication]
          [empty_pathway; pathway_of_2; pathway_of_3] [] five_proteins
          "max" "ind2path.tsv" "" false.

(** ** Reading back a saved file

    The distances are saved, before the lists are sorted, one line per
    compound; a later run reads the file with [read_rmsds], where every line
    is turned into its scores by [lines[i].strip().split('\t')] and
    [float]. *)

(** [s.split('\t')] *)
Fixpoint split_tab (s : string) : list string :=
  match s with
  | EmptyString => [EmptyString]
  | String c s' =>
      if Ascii.eqb c (ascii_of_nat 9) then EmptyString :: split_tab s'
      else
        match split_tab s' with
        | f :: rest => String c f :: rest
        | [] => [String c EmptyString]
        end
  end.

(** A text without whitespace. *)
Fixpoint clean (s : string) : bool :=
  match s with
  | EmptyString => true
  | String c s' => negb (is_space c) && clean s'
  end.

Section ReadBack.

(** [float(s)], total on the texts read here. *)
Variable parse_float : string -> float.

Definition read_scores (line : string) : list float :=
  map parse_float (split_tab (strip line)).

Definition read_saved (similarity : bool) (file : list string)
    (cs : list Compound) : result (list Compound) :=
  read_rmsds similarity (map read_scores file) cs.

End ReadBack.

(** The entries that reading the scores of line [i] appends to the compound
    at position [i]: one per position of the line other than [i]. *)
Definition row_entries (i : nat) (scores : list float) : list neighbor :=
  map (fun j => (j, nth j scores nan))
      (filter (fun j => negb (Nat.eqb i j)) (seq 0 (length scores))).

(** The positions of the compounds other than the one at [a]. *)
Definition others (nc a : nat) : list nat := seq 0 a ++ seq (S a) (nc - S a).

(** During the all-pairs loop every list is in position order, and only the
    lists have changed. *)
Definition pairs_ordered (cs0 : list Compound) (st : list Compound * nat)
    : Prop :=
  forall a c, nth_error (fst st) a = Some c ->
    StronglySorted Nat.lt (map fst (similar c)) /\
    exists c0, nth_error cs0 a = Some c0 /\ c = set_similar (similar c) c0.

(** A float format and parser that know the three distances 1.0, 2.0 and
    3.0, for the examples. *)
Definition toy_format (d : float) : string :=
  if SFeqb d one then "1.0"
  else if SFeqb d f2 then "2.0"
  else if SFeqb d f3 then "3.0"
  else "nan".

Definition toy_parse (s : string) : float :=
  if String.eqb s "1.0" then one
  else if String.eqb s "2.0" then f2
  else if String.eqb s "3.0" then f3
  else nan.

Definition three_compounds : list Compound :=
  [blank_compound 0 [] false; blank_compound 1 [] false;
   blank_compound 2 [] false].

(** ** Reading the matrix (the loop of [__init__] without a protein set)

    A line of the matrix file is given as the protein name [vec[0]] and the
    scores [list(map(float, vec[1:]))]. *)

Definition set_sig (l : list float) (c : Compound) : Compound :=
  mkCompound (name c) (id_ c) (index c) l (aux_sig c) (similar c)
             (similar_computed c) (similar_sorted c).

(** [d[k] = v] on a dict given as its items, the newest first: [dict_get]
    returns the first item found. *)
Definition dict_set (d : list (string * nat)) (k : string) (v : nat)
    : list (string * nat) :=
  (k, v) :: d.

(** The part of the object that the loop changes. *)
Record Signatures : Type := mkSignatures {
  sg_proteins : list Protein;
  sg_protein_id_to_index : list (string * nat);
  sg_compounds : list Compound
}.

(** [s = scores[i]; self.compounds[i].sig.append(s)] *)
Definition append_score (scores : list float) (i : nat) (cs : list Compound)
    : result (list Compound) :=
  s <- getitem scores i ;;
  _ <- getitem cs i ;;
  Ok (update_nth i (fun c => set_sig (sig c ++ [s]) c) cs).

(** One iteration of [for l_i in range(len(m_lines))]. *)
Definition read_matrix_line (m_lines : list (string * list float))
    (l_i : nat) (st : Signatures) : result Signatures :=
  vec <- getitem m_lines l_i ;;
  let name := fst vec in
  let scores := snd vec in
  let proteins := sg_proteins st ++ [mkProtein name] in
  let protein_id_to_index :=
    dict_set (sg_protein_id_to_index st) name l_i in
  cs <- for_each (seq 0 (length scores)) (append_score scores)
          (sg_compounds st) ;;
  Ok (mkSignatures proteins protein_id_to_index cs).

Definition read_matrix (m_lines : list (string * list float))
    (cs : list Compound) : result Signatures :=
  for_each (seq 0 (length m_lines)) (read_matrix_line m_lines)
    (mkSignatures [] [] cs).

(** The platform with the signatures read. *)
Definition with_signatures (st : Signatures) (self : CANDO) : CANDO :=
  mkCANDO (sg_compounds st) (indications self) (pathways self) (adrs self)
          (sg_protein_id_to_index st) (pathway_quantifier self)
          (indication_pathways self) (indication_proteins self)
          (similarity self).

(** The scores at position [i] of the first [m] lines. *)
Definition column (i m : nat) (m_lines : list (string * list float))
    : list float :=
  map (fun vec => nth i (snd vec) nan) (firstn m m_lines).

(** The state of the loop before line [m]. *)
Definition matrix_invariant (n : nat) (m_lines : list (string * list float))
    (cs : list Compound) (m : nat) (st : Signatures) : Prop :=
  map prot_id_ (sg_proteins st) = map fst (firstn m m_lines) /\
  sg_protein_id_to_index st
  = rev (combine (map fst (firstn m m_lines)) (seq 0 m)) /\
  length (sg_compounds st) = length cs /\
  forall i c, nth_error cs i = Some c ->
    nth_error (sg_compounds st) i
    = Some (if (i <? n)%nat then set_sig (column i m m_lines) c else c).

(** A matrix of two proteins and three compounds. *)
Definition two_by_three : list (string * list float) :=
  [("P1"%string, [one; f2; f3]); ("P2"%string, [f3; f2; one])].

(** ** Reading the indication mapping (the loop of [__init__])

    A line of the mapping is given as [(c_id, i_name, ind_id)], that is
    [int(ls[1])], [ls[2]] and [ls[3]].  An object is designated by its
    position: a compound by its position in [self.compounds], an indication
    by its position in [self.indications].  [cm.indications] is kept, for the
    compound at each position, as the list of the indications added to it. *)

Record Mapping : Type := mkMapping {
  mp_indications : list Indication;
  mp_indication_ids : list string;
  mp_compound_indications : list (list nat)
}.

(** The compound that [get_compound(c_id)] returns, as its position. *)
Fixpoint position_of_id (i : Z) (cs : list Compound) (k : nat) : option nat :=
  match cs with
  | [] => None
  | c :: rest => if id_ c =? i then Some k else position_of_id i rest (S k)
  end.

(** The indication that [get_indication(ind_id)] returns, as its position. *)
Fixpoint position_of_indication (ind_id : string) (inds : list Indication)
    (k : nat) : result nat :=
  match inds with
  | [] => Raise LookupError
  | i :: rest =>
      if String.eqb (ind_id_ i) ind_id then Ok k
      else position_of_indication ind_id rest (S k)
  end.

(** [ind.compounds.append(cm)] *)
Definition add_compound (cm : cref) (ind : Indication) : Indication :=
  mkIndication (ind_id_ ind) (ind_name ind) (ind_compounds ind ++ [cm])
               (ind_pathways ind).

(** One iteration of the loop over the lines. *)
Definition map_line (cs : list Compound) (line : Z * string * string)
    (st : Mapping) : result Mapping :=
  let '(c_id, i_name, ind_id) := line in
  match position_of_id c_id cs 0 with
  | None => Ok st
  | Some cm =>
      if existsb (String.eqb ind_id) (mp_indication_ids st) then
        ind <- position_of_indication ind_id (mp_indications st) 0 ;;
        Ok (mkMapping
              (update_nth ind (add_compound cm) (mp_indications st))
              (mp_indication_ids st)
              (update_nth cm (fun l => l ++ [ind])
                 (mp_compound_indications st)))
      else
        let ind := length (mp_indications st) in
        Ok (mkMapping
              (mp_indications st ++ [mkIndication ind_id i_name [cm] []])
              (mp_indication_ids st ++ [ind_id])
              (update_nth cm (fun l => l ++ [ind])
                 (mp_compound_indications st)))
  end.

Fixpoint read_indications (cs : list Compound)
    (lines : list (Z * string * string)) (st : Mapping) : result Mapping :=
  match lines with
  | [] => Ok st
  | line :: rest =>
      st' <- map_line cs line st ;; read_indications cs rest st'
  end.

(** Before the first line: no indication, and no compound has one. *)
Definition no_mapping (cs : list Compound) : Mapping :=
  mkMapping [] [] (map (fun _ => []) cs).

(** The two directions of the association agree: an indication is listed
    for a compound as often as the compound is listed for the indication,
    and every designation is a valid position. *)
Definition mapping_consistent (cs : list Compound) (st : Mapping) : Prop :=
  mp_indication_ids st = map ind_id_ (mp_indications st) /\
  NoDup (mp_indication_ids st) /\
  length (mp_compound_indications st) = length cs /\
  (forall k l t, nth_error (mp_compound_indications st) k = Some l ->
                 In t l -> (t < length (mp_indications st))%nat) /\
  (forall t ind, nth_error (mp_indications st) t = Some ind ->
                 ind_compounds ind <> [] /\
                 forall k, In k (ind_compounds ind) -> (k < length cs)%nat) /\
  (forall k l t ind,
     nth_error (mp_compound_indications st) k = Some l ->
     nth_error (mp_indications st) t = Some ind ->
     count_occ Nat.eq_dec l t = count_occ Nat.eq_dec (ind_compounds ind) k).

(** A mapping of five lines: one compound id is unknown, one indication
    occurs twice. *)
Definition five_lines : list (Z * string * string) :=
  [(5, "asthma"%string, "MESH:D1"%string);
   (7, "asthma"%string, "MESH:D1"%string);
   (9, "gout"%string, "MESH:D2"%string);
   (7, "gout"%string, "MESH:D2"%string);
   (7, "Asthma"%string, "MESH:D1"%string)].

(** ** The votes of [canpredict_compounds]

    The loop that fills [c_dct] when [sum_scores] is off.  [id_of k] and
    [approved_for k] stand for [c2[0].id_] and [ind in c2[0].indications] of
    the compound at position [k]; [members] holds the neighbor lists of
    [ind.compounds], in order.  The dict is given as its items in insertion
    order. *)

(** [for x in l: st = body(x, st)], stopping at the first exception. *)
Fixpoint for_in {A St : Type} (l : list A) (body : A -> St -> result St)
    (st : St) : result St :=
  match l with
  | [] => Ok st
  | x :: rest => st' <- body x st ;; for_in rest body st'
  end.

(** The value [[count, already_approved, rank_sum]] of an item. *)
Record Vote : Type := mkVote {
  v_count : Z;
  v_approved : bool;
  v_ranks : Z
}.

(** [k in c_dct] *)
Definition dict_has (k : Z) (c_dct : list (Z * Vote)) : bool :=
  existsb (fun kv => fst kv =? k) c_dct.

(** The in-place change of the value stored under [k]. *)
Fixpoint dict_update (k : Z) (f : Vote -> Vote) (c_dct : list (Z * Vote))
    : list (Z * Vote) :=
  match c_dct with
  | [] => []
  | (k', v) :: rest =>
      if k' =? k then (k', f v) :: rest
      else (k', v) :: dict_update k f rest
  end.

Section Votes.

Variable id_of : cref -> Z.
Variable approved_for : cref -> bool.

(** What one neighbor [c2] at position [c2_i] does to the dict. *)
Definition tally (c2_i : nat) (c2 : neighbor) (c_dct : list (Z * Vote))
    : list (Z * Vote) :=
  if SFeqb (snd c2) zero then c_dct
  else
    let already_approved := approved_for (fst c2) in
    let k := id_of (fst c2) in
    if negb (dict_has k c_dct)
    then c_dct ++ [(k, mkVote 1 already_approved (Z.of_nat c2_i))]
    else dict_update k
           (fun v => mkVote (v_count v + 1) (v_approved v)
                            (v_ranks v + Z.of_nat c2_i))
           c_dct.

(** One iteration of [for c2_i in range(n)]. *)
Definition vote_step (similar : list neighbor) (c2_i : nat)
    (c_dct : list (Z * Vote)) : result (list (Z * Vote)) :=
  c2 <- getitem similar c2_i ;;
  Ok (tally c2_i c2 c_dct).

Definition votes (members : list (list neighbor)) (n : Z)
    : result (list (Z * Vote)) :=
  for_in members
    (fun similar c_dct =>
       for_each (seq 0 (Z.to_nat n)) (vote_step similar) c_dct)
    [].

(** The neighbors visited, each with its position, in the order of the
    visits. *)
Definition visited (n : nat) (members : list (list neighbor))
    : list (nat * neighbor) :=
  flat_map (fun similar => combine (seq 0 n) (firstn n similar)) members.

(** Those of them that vote for the compound id [k]: non-zero distance and
    id [k]. *)
Definition votes_for (k : Z) (l : list (nat * neighbor))
    : list (nat * neighbor) :=
  filter (fun e => negb (SFeqb (snd (snd e)) zero)
                   && (id_of (fst (snd e)) =? k)) l.

Definition rank_sum (l : list (nat * neighbor)) : Z :=
  fold_right (fun e acc => Z.of_nat (fst e) + acc) 0 l.

Definition first_approved (l : list (nat * neighbor)) : bool :=
  match l with
  | [] => false
  | e :: _ => approved_for (fst (snd e))
  end.

(** The dict after the visits [l]. *)
Definition tallied (l : list (nat * neighbor)) (c_dct : list (Z * Vote))
    : Prop :=
  NoDup (map fst c_dct) /\
  (forall k, In k (map fst c_dct) <-> votes_for k l <> []) /\
  forall k v, In (k, v) c_dct ->
    v_count v = Z.of_nat (length (votes_for k l)) /\
    v_ranks v = rank_sum (votes_for k l) /\
    v_approved v = first_approved (votes_for k l).

End Votes.

(** ** The rows of [canpredict_indications]

    What follows the regeneration of the query compound's list.
    [indications_of k] stands for the ids of [c[0].indications] of the
    compound at position [k]. *)

(** [l[0:n]] *)
Definition slice_to {A : Type} (n : Z) (l : list A) : list A :=
  if 0 <=? n then firstn (Z.to_nat n) l
  else firstn (length l - Z.to_nat (- n)) l.

(** [sorted(l, key=..., reverse=True)] on integer keys: a stable sort into
    descending order. *)
Section SortedDesc.

Context {A : Type}.
Variable key : A -> Z.

Fixpoint insert_desc (x : A) (l : list A) : list A :=
  match l with
  | [] => [x]
  | y :: l' =>
      if key x <? key y then y :: insert_desc x l' else x :: y :: l'
  end.

Definition sorted_desc (l : list A) : list A := fold_right insert_desc [] l.

End SortedDesc.

(** [id in i_dct] and [i_dct[id] += 1] on a dict given as its items. *)
Definition counts_has (k : string) (i_dct : list (string * Z)) : bool :=
  existsb (fun kv => String.eqb (fst kv) k) i_dct.

Fixpoint counts_incr (k : string) (i_dct : list (string * Z))
    : list (string * Z) :=
  match i_dct with
  | [] => []
  | (k', v) :: rest =>
      if String.eqb k' k then (k', v + 1) :: rest
      else (k', v) :: counts_incr k rest
  end.

Section Predict.

Variable indications_of : cref -> list string.

(** The body of [for ind in c[0].indications]. *)
Definition count_indication (i_dct : list (string * Z)) (ind_id : string)
    : list (string * Z) :=
  if negb (counts_has ind_id i_dct) then i_dct ++ [(ind_id, 1)]
  else counts_incr ind_id i_dct.

Definition count_indications (similar : list neighbor) (n : Z)
    : list (string * Z) :=
  fold_left
    (fun i_dct c => fold_left count_indication (indications_of (fst c)) i_dct)
    (slice_to n similar) [].

(** The rows printed: rank, score, indication id and name. *)
Definition print_row (self : CANDO) (sorted_x : list (string * Z)) (i : nat)
    (rows : list (Z * Z * string * string))
    : result (list (Z * Z * string * string)) :=
  x <- getitem sorted_x i ;;
  indd <- get_indication self (fst x) ;;
  Ok (rows ++ [(Z.of_nat i + 1, snd x, ind_id_ indd, ind_name indd)]).

Definition predicted_indications (self : CANDO) (similar : list neighbor)
    (n topX : Z) : result (list (Z * Z * string * string)) :=
  let i_dct := count_indications similar n in
  let sorted_x := sorted_desc snd i_dct in
  for_each (seq 0 (Z.to_nat topX)) (print_row self sorted_x) [].

(** The indication ids met, with repetitions, in the order of the visits. *)
Definition listed (similar : list neighbor) (n : Z) : list string :=
  flat_map (fun c => indications_of (fst c)) (slice_to n similar).

End Predict.

(** The dict after the ids [l]. *)
Definition counted (l : list string) (i_dct : list (string * Z)) : Prop :=
  NoDup (map fst i_dct) /\
  (forall k, In k (map fst i_dct) <-> In k l) /\
  forall k v, In (k, v) i_dct -> v = Z.of_nat (count_occ string_dec l k).

(** A platform with the two indications of the examples. *)
Definition two_indications : CANDO :=
  mkCANDO [] [mkIndication "MESH:D1" "asthma" [] [];
              mkIndication "MESH:D2" "gout" [] []]
          [] [] [] "max" "" "" false.

(** ** The top targets of a compound ([top_targets])

    [proteins] is [self.proteins]. *)

Definition add_interaction (proteins : list Protein) (sig : list float)
    (i : nat) (all_interactions : list (string * float))
    : result (list (string * float)) :=
  s <- getitem sig i ;;
  p <- getitem proteins i ;;
  let p_id := prot_id_ p in
  Ok (all_interactions ++ [(p_id, s)]).

Definition top_targets (proteins : list Protein) (cmpd : Compound) (n : Z)
    (negative : bool) : result (list (string * float)) :=
  let sig := sig cmpd in
  all_interactions <-
    for_each (seq 0 (length sig)) (add_interaction proteins sig) [] ;;
  let interactions_sorted :=
    if negative then sorted snd all_interactions
    else rev (sorted snd all_interactions) in
  let m := len proteins in
  let n := if n >? m then m else n in
  _ <- for_each (seq 0 (Z.to_nat n))
         (fun si _ => _ <- getitem interactions_sorted si ;; Ok tt) tt ;;
  Ok (slice_to n interactions_sorted).

(** [a] comes before [b] in the order asked for: by descending score, or by
    ascending score when [negative] is set. *)
Definition ranks_before (negative : bool) (a b : string * float) : Prop :=
  if negative then lt (snd b) (snd a) = false
  else lt (snd a) (snd b) = false.

(** * Properties *)

(** ** Order facts on floats *)

Section FloatOrder.

Ltac cmp_cases :=
  repeat match goal with
    | H : context [Pos.compare_cont Eq ?a ?b] |- _ =>
        change (Pos.compare_cont Eq a b) with (Pos.compare a b) in H
    | |- context [Pos.compare_cont Eq ?a ?b] =>
        change (Pos.compare_cont Eq a b) with (Pos.compare a b)
    end;
  repeat match goal with
    | H : context [Z.compare ?a ?b] |- _ => destruct (Z.compare_spec a b)
    | |- context [Z.compare ?a ?b] => destruct (Z.compare_spec a b)
    | H : context [Pos.compare ?a ?b] |- _ => destruct (Pos.compare_spec a b)
    | |- context [Pos.compare ?a ?b] => destruct (Pos.compare_spec a b)
    end;
  simpl in *; subst; try congruence; try lia.

Ltac float_cases a :=
  destruct a as [[|]|[|]| |[|] ? ?].

Lemma le_trans (a b c : float) :
  le a b = true -> le b c = true -> le a c = true.
Proof.
  unfold le, SFleb, SFcompare.
  float_cases a; float_cases b; float_cases c; simpl;
    try congruence; intros; cmp_cases.
Qed.

Lemma lt_le (a b : float) : lt a b = true -> le a b = true.
Proof.
  unfold lt, le, SFltb, SFleb.
  destruct (SFcompare a b) as [[ | | ]|]; congruence.
Qed.

Lemma le_lt_trans (a b c : float) :
  le a b = true -> lt b c = true -> lt a c = true.
Proof.
  unfold le, lt, SFleb, SFltb, SFcompare.
  float_cases a; float_cases b; float_cases c; simpl;
    try congruence; intros; cmp_cases.
Qed.

Lemma lt_le_trans (a b c : float) :
  lt a b = true -> le b c = true -> lt a c = true.
Proof.
  unfold le, lt, SFleb, SFltb, SFcompare.
  float_cases a; float_cases b; float_cases c; simpl;
    try congruence; intros; cmp_cases.
Qed.

(** On floats that are not NaN the order is total. *)
Lemma lt_total (a b : float) :
  isnan a = false -> isnan b = false -> lt a b = negb (le b a).
Proof.
  unfold le, lt, SFleb, SFltb, SFcompare.
  float_cases a; float_cases b; simpl;
    try congruence; intros; try reflexivity; cmp_cases.
Qed.

Lemma gt_lt (a b : float) : gt a b = lt b a.
Proof.
  unfold gt, lt, SFltb, SFcompare.
  float_cases a; float_cases b; simpl; try reflexivity; cmp_cases.
Qed.

Lemma ge_le (a b : float) : ge a b = le b a.
Proof.
  unfold ge, le, SFleb, SFcompare.
  float_cases a; float_cases b; simpl; try reflexivity; cmp_cases.
Qed.

Lemma lt_nan_l (a : float) : lt nan a = false.
Proof. reflexivity. Qed.

Lemma lt_nan_r (a : float) : lt a nan = false.
Proof. destruct a; reflexivity. Qed.

Lemma le_nan_l (a : float) : le nan a = false.
Proof. reflexivity. Qed.

Lemma le_nan_r (a : float) : le a nan = false.
Proof. destruct a; reflexivity. Qed.

Lemma le_isnan (a b : float) :
  le a b = true -> isnan a = false /\ isnan b = false.
Proof.
  destruct a, b; simpl; try discriminate; auto.
Qed.

Lemma lt_isnan (a b : float) :
  lt a b = true -> isnan a = false /\ isnan b = false.
Proof.
  intros H. apply le_isnan, lt_le, H.
Qed.

End FloatOrder.

(** ** The ranking functions *)

Lemma filter_none {A : Type} (f : A -> bool) (l : list A) :
  (forall x, In x l -> f x = false) -> filter f l = [].
Proof.
  induction l as [|a l IH]; intros H; [reflexivity |].
  simpl. rewrite (H a (or_introl eq_refl)). apply IH.
  intros x Hx. apply H. now right.
Qed.

Section RankingFacts.

Variable holds : float -> float -> bool.

Lemma rank_scan_range (sims : list neighbor) (r : float) (k rank : Z) :
  rank_scan holds sims r k = Some rank ->
  k <= rank < k + Z.of_nat (length sims).
Proof.
  revert k. induction sims as [|s rest IH]; intros k; simpl.
  - discriminate.
  - destruct (holds (snd s) r).
    + intros H. apply IH in H. lia.
    + intros H. injection H as <-. lia.
Qed.

Lemma rank_scan_exhausted (sims : list neighbor) (r : float) (k : Z) :
  rank_scan holds sims r k = None <->
  (forall s, In s sims -> holds (snd s) r = true).
Proof.
  revert k. induction sims as [|s rest IH]; intros k; simpl.
  - split; [intros _ s [] | reflexivity].
  - destruct (holds (snd s) r) eqn:Hs.
    + rewrite IH. split.
      * intros H t [<- | Ht]; auto.
      * intros H t Ht. apply H. now right.
    + split; [discriminate |].
      intros H. specialize (H s (or_introl eq_refl)). congruence.
Qed.

Lemma competitive_range (sims : list neighbor) (r : float) :
  0 <= competitive holds sims r <= Z.of_nat (length sims).
Proof.
  unfold competitive.
  destruct (rank_scan holds sims r 0) as [rank|] eqn:H.
  - apply rank_scan_range in H. lia.
  - lia.
Qed.

Lemma competitive_full (sims : list neighbor) (r : float) :
  competitive holds sims r = Z.of_nat (length sims) <->
  (forall s, In s sims -> holds (snd s) r = true).
Proof.
  rewrite <- (rank_scan_exhausted sims r 0). unfold competitive.
  destruct (rank_scan holds sims r 0) as [rank|] eqn:H.
  - apply rank_scan_range in H. split; [lia | discriminate].
  - split; reflexivity.
Qed.

(** Once the comparison fails at an entry of an ascending list, it fails at
    every later entry. *)
Hypothesis holds_closed :
  forall a b r, asc_le a b = true -> holds a r = false -> holds b r = false.

Lemma ascending_fails_after (s : neighbor) (rest : list neighbor) (r : float) :
  is_ascending (s :: rest) = true ->
  holds (snd s) r = false ->
  forall t, In t rest -> holds (snd t) r = false.
Proof.
  revert s. induction rest as [|u rest IH]; intros s Hasc Hs t Ht.
  - destruct Ht.
  - cbn [is_ascending] in Hasc. apply andb_prop in Hasc as [Hsu Hrest].
    assert (Hu : holds (snd u) r = false) by eauto.
    destruct Ht as [<- | Ht]; eauto.
Qed.

Lemma is_ascending_tail (s : neighbor) (rest : list neighbor) :
  is_ascending (s :: rest) = true -> is_ascending rest = true.
Proof.
  destruct rest as [|u rest]; [reflexivity |].
  cbn [is_ascending]. intros H. now apply andb_prop in H.
Qed.

Lemma rank_scan_count (sims : list neighbor) (r : float) (k : Z) :
  is_ascending sims = true ->
  match rank_scan holds sims r k with
  | Some rank => rank = k + count_neighbors holds sims r
  | None => count_neighbors holds sims r = Z.of_nat (length sims)
  end.
Proof.
  unfold count_neighbors. revert k.
  induction sims as [|s rest IH]; intros k Hasc; [reflexivity |].
  cbn [rank_scan filter]. destruct (holds (snd s) r) eqn:Hs.
  - specialize (IH (k + 1) (is_ascending_tail _ _ Hasc)).
    destruct (rank_scan holds rest r (k + 1)); cbn [length]; lia.
  - assert (Hnone : filter (fun sim => holds (snd sim) r) rest = []).
    { apply filter_none.
      intros t Ht. eapply ascending_fails_after; eauto. }
    rewrite Hnone. cbn [length]. lia.
Qed.

Lemma competitive_count (sims : list neighbor) (r : float) :
  is_ascending sims = true ->
  competitive holds sims r = count_neighbors holds sims r.
Proof.
  intros Hasc. unfold competitive.
  pose proof (rank_scan_count sims r 0 Hasc) as H.
  destruct (rank_scan holds sims r 0); lia.
Qed.

End RankingFacts.

Lemma lt_closed (a b r : float) :
  asc_le a b = true -> lt a r = false -> lt b r = false.
Proof.
  unfold asc_le. intros H Ha.
  destruct (isnan b) eqn:Hb.
  - destruct b; try discriminate. reflexivity.
  - cbn [orb] in H. apply andb_prop in H as [_ Hle].
    destruct (lt b r) eqn:Hbr; [| reflexivity].
    rewrite (le_lt_trans _ _ _ Hle Hbr) in Ha. discriminate.
Qed.

Lemma le_closed (a b r : float) :
  asc_le a b = true -> le a r = false -> le b r = false.
Proof.
  unfold asc_le. intros H Ha.
  destruct (isnan b) eqn:Hb.
  - destruct b; try discriminate. reflexivity.
  - cbn [orb] in H. apply andb_prop in H as [_ Hle].
    destruct (le b r) eqn:Hbr; [| reflexivity].
    rewrite (le_trans _ _ _ Hle Hbr) in Ha. discriminate.
Qed.

(** C1.  On a neighbor list that is ascending by distance, the standard
    ranking returns the number of neighbors whose distance is strictly less
    than [r], and the modified ranking the number of neighbors whose distance
    is less than or equal to [r]. *)
Theorem competitive_rank_counts (sims : list neighbor) (r : float) :
  is_ascending sims = true ->
  competitive_standard sims r = count_neighbors lt sims r /\
  competitive_modified sims r = count_neighbors le sims r.
Proof.
  intros Hasc. split.
  - apply competitive_count; [apply lt_closed | exact Hasc].
  - apply competitive_count; [apply le_closed | exact Hasc].
Qed.

(** A list with a tie block at the match distance and a NaN at the end:
    standard rank 1, modified rank 3. *)
Lemma competitive_rank_counts_witness :
  let sims := [(1%nat, one); (2%nat, f2); (3%nat, f2); (4%nat, f3); (5%nat, nan)] in
  is_ascending sims = true /\
  (competitive_standard sims f2 = count_neighbors lt sims f2 /\
   competitive_modified sims f2 = count_neighbors le sims f2) /\
  competitive_standard sims f2 = 1 /\
  competitive_modified sims f2 = 3.
Proof.
  cbv zeta. split; [reflexivity |]. split.
  - apply (competitive_rank_counts
             [(1%nat, one); (2%nat, f2); (3%nat, f2); (4%nat, f3); (5%nat, nan)] f2).
    reflexivity.
  - split; reflexivity.
Defined.

(** C2, as stated, fails: a rank equal to the neighbor count does not mean
    that no neighbor satisfied the comparison.  With the single neighbor at
    distance 1.0 and match distance 2.0 the standard rank is 1, the neighbor
    count, and the neighbor does satisfy [<]. *)
Lemma competitive_rank_full_counterexample :
  ~ (forall sims r,
        competitive_standard sims r = Z.of_nat (length sims) ->
        forall s, In s sims -> lt (snd s) r = false).
Proof.
  intros H.
  specialize (H [(0%nat, one)] f2 eq_refl (0%nat, one) (or_introl eq_refl)).
  discriminate H.
Qed.

(** C2, amended.  Under each of the four ranking functions the rank lies
    between 0 and the neighbor count, and it equals the neighbor count exactly
    when every neighbor satisfied the function's comparison with [r]. *)
Theorem competitive_rank_bounds (sims : list neighbor) (r : float) :
  (0 <= competitive_standard sims r <= Z.of_nat (length sims) /\
   (competitive_standard sims r = Z.of_nat (length sims) <->
    forall s, In s sims -> lt (snd s) r = true)) /\
  (0 <= competitive_modified sims r <= Z.of_nat (length sims) /\
   (competitive_modified sims r = Z.of_nat (length sims) <->
    forall s, In s sims -> le (snd s) r = true)) /\
  (0 <= competitive_standard_bottom sims r <= Z.of_nat (length sims) /\
   (competitive_standard_bottom sims r = Z.of_nat (length sims) <->
    forall s, In s sims -> gt (snd s) r = true)) /\
  (0 <= competitive_modified_bottom sims r <= Z.of_nat (length sims) /\
   (competitive_modified_bottom sims r = Z.of_nat (length sims) <->
    forall s, In s sims -> ge (snd s) r = true)).
Proof.
  repeat split;
    try apply competitive_range; try apply (proj1 (competitive_full _ _ _));
    try apply (proj2 (competitive_full _ _ _)).
Qed.

(** ** The sort *)

Lemma lt_asym (a b : float) : lt a b = true -> lt b a = false.
Proof.
  intros H. destruct (lt_isnan _ _ H) as [Ha Hb].
  rewrite (lt_total b a Hb Ha), (lt_le _ _ H). reflexivity.
Qed.

Lemma not_lt_trans (a b c : float) :
  isnan a = false -> isnan b = false -> isnan c = false ->
  lt b a = false -> lt c b = false -> lt c a = false.
Proof.
  intros Ha Hb Hc Hba Hcb.
  rewrite (lt_total _ _ Hb Ha) in Hba. rewrite (lt_total _ _ Hc Hb) in Hcb.
  apply negb_false_iff in Hba, Hcb.
  rewrite (lt_total _ _ Hc Ha), (le_trans _ _ _ Hba Hcb). reflexivity.
Qed.

Lemma StronglySorted_nth {A : Type} (R : A -> A -> Prop) (l : list A) :
  StronglySorted R l ->
  forall i j a b, (i < j)%nat ->
    nth_error l i = Some a -> nth_error l j = Some b -> R a b.
Proof.
  induction 1 as [|x l Hl IH Hx]; intros i j a b Hij Hi Hj.
  - destruct i; discriminate.
  - destruct j as [|j]; [lia |]. cbn [nth_error] in Hj.
    destruct i as [|i]; cbn [nth_error] in Hi.
    + injection Hi as <-. rewrite Forall_forall in Hx.
      apply Hx. eapply nth_error_In; eauto.
    + apply (IH i j a b); [lia | exact Hi | exact Hj].
Qed.

Section SortedFacts.

Context {A : Type}.
Variable key : A -> float.

Lemma insert_sorted_perm (x : A) (l : list A) :
  Permutation (insert_sorted key x l) (x :: l).
Proof.
  induction l as [|y l IH]; cbn [insert_sorted]; [reflexivity |].
  destruct (lt (key y) (key x)); [| reflexivity].
  rewrite IH. apply perm_swap.
Qed.

Lemma sorted_perm (l : list A) : Permutation (sorted key l) l.
Proof.
  induction l as [|x l IH]; [reflexivity |].
  cbn [sorted fold_right]. fold (sorted key l).
  rewrite insert_sorted_perm. now constructor.
Qed.


Lemma insert_sorted_ascending (x : A) (l : list A) :
  isnan (key x) = false ->
  Forall (fun a => isnan (key a) = false) l ->
  key_ascending key l -> key_ascending key (insert_sorted key x l).
Proof.
  unfold key_ascending. intros Hx Hl Hs.
  induction l as [|y l IH]; cbn [insert_sorted].
  - repeat constructor.
  - inversion Hs as [|? ? Hs' Hy]; subst.
    inversion Hl as [|? ? Hny Hl']; subst.
    destruct (lt (key y) (key x)) eqn:Hyx.
    + constructor; [now apply IH |].
      eapply Permutation_Forall;
        [symmetry; apply insert_sorted_perm |].
      constructor; [now apply lt_asym | exact Hy].
    + constructor; [exact Hs |].
      constructor; [exact Hyx |].
      rewrite Forall_forall in Hy, Hl' |- *. intros z Hz.
      apply (not_lt_trans (key x) (key y) (key z)); auto.
Qed.

Lemma sorted_ascending (l : list A) :
  Forall (fun a => isnan (key a) = false) l ->
  key_ascending key (sorted key l).
Proof.
  induction 1 as [|x l Hx Hl IH]; [constructor |].
  cbn [sorted fold_right]. fold (sorted key l).
  apply insert_sorted_ascending; auto.
  eapply Permutation_Forall; [symmetry; apply sorted_perm | exact Hl].
Qed.

End SortedFacts.

Lemma sort_key_not_nan (x : neighbor) : isnan (sort_key x) = false.
Proof.
  unfold sort_key. destruct (isnan (snd x)) eqn:H; [reflexivity | exact H].
Qed.

Lemma sorted_similar_ascending (sims : list neighbor) :
  key_ascending sort_key (sorted sort_key sims).
Proof.
  apply sorted_ascending, Forall_forall. intros x _. apply sort_key_not_nan.
Qed.

(** C3, as stated, fails: the sort keys NaN as 100000, so a finite distance
    above 100000 is placed after a NaN.  Sorting [(c1, 200000.0); (c2, NaN)]
    gives [(c2, NaN); (c1, 200000.0)]. *)
Lemma sort_nan_last_counterexample :
  ~ (forall (c : Compound) (i j : nat) (a b : neighbor),
        nth_error (similar (sort_and_mark c)) i = Some a ->
        nth_error (similar (sort_and_mark c)) j = Some b ->
        isnan (snd a) = true -> isfinite (snd b) = true -> (j < i)%nat).
Proof.
  intros H.
  specialize (H (blank_compound 0 [(1%nat, f200000); (2%nat, nan)] false)
                0%nat 1%nat (2%nat, nan) (1%nat, f200000)
                eq_refl eq_refl eq_refl eq_refl).
  lia.
Qed.

(** C3, amended.  After the sort, every entry whose distance is NaN appears
    after every entry whose distance is below 100000 and before every entry
    whose distance is above 100000: NaN is ordered as the value 100000. *)
Theorem sort_nan_as_100000 (c : Compound) (i j : nat) (a b : neighbor) :
  nth_error (similar (sort_and_mark c)) i = Some a ->
  nth_error (similar (sort_and_mark c)) j = Some b ->
  isnan (snd a) = true ->
  (lt (snd b) f100000 = true -> (j < i)%nat) /\
  (lt f100000 (snd b) = true -> (i < j)%nat).
Proof.
  cbn [sort_and_mark set_similar set_similar_computed set_similar_sorted similar].
  intros Hi Hj Ha.
  pose proof (sorted_similar_ascending (similar c)) as Hs.
  assert (Hka : sort_key a = f100000)
    by (unfold sort_key; rewrite Ha; reflexivity).
  split; intros Hb.
  - assert (Hkb : sort_key b = snd b).
    { unfold sort_key. destruct (lt_isnan _ _ Hb) as [-> _]. reflexivity. }
    destruct (Nat.lt_trichotomy i j) as [Hij | [-> | Hij]]; [| | exact Hij].
    + pose proof (StronglySorted_nth _ _ Hs i j a b Hij Hi Hj) as H.
      cbv beta in H. rewrite Hka, Hkb in H. congruence.
    + rewrite Hi in Hj. injection Hj as <-.
      destruct (lt_isnan _ _ Hb) as [Hn _]. congruence.
  - assert (Hkb : sort_key b = snd b).
    { unfold sort_key. destruct (lt_isnan _ _ Hb) as [_ ->]. reflexivity. }
    destruct (Nat.lt_trichotomy i j) as [Hij | [-> | Hij]]; [exact Hij | |].
    + rewrite Hi in Hj. injection Hj as <-.
      destruct (lt_isnan _ _ Hb) as [_ Hn]. congruence.
    + pose proof (StronglySorted_nth _ _ Hs j i b a Hij Hj Hi) as H.
      cbv beta in H. rewrite Hka, Hkb in H. congruence.
Qed.

Lemma sort_nan_as_100000_witness :
  let c := blank_compound 0 [(1%nat, nan); (2%nat, f200000); (3%nat, f2)] false in
  similar (sort_and_mark c) = [(3%nat, f2); (1%nat, nan); (2%nat, f200000)] /\
  ((lt f2 f100000 = true -> (0 < 1)%nat) /\
   (lt f100000 f2 = true -> (1 < 0)%nat)).
Proof.
  cbv zeta. split; [reflexivity |].
  apply (sort_nan_as_100000
           (blank_compound 0 [(1%nat, nan); (2%nat, f200000); (3%nat, f2)] false)
           1%nat 0%nat (1%nat, nan) (3%nat, f2));
    reflexivity.
Defined.

(** ** The sorting step of [canbenchmark] *)

(** C10, as stated, fails in its description of the sort: with the first
    compound's flag false the lists are sorted by the key that orders NaN as
    100000, so [(c1, 200000.0); (c2, NaN)] becomes [(c2, NaN); (c1, 200000.0)],
    which is not ascending with NaN last. *)
Lemma canbenchmark_sort_counterexample :
  ~ (forall (self : CANDO) (c0 : Compound) (rest : list Compound),
        truthy (indication_proteins self) = false ->
        truthy (indication_pathways self) = false ->
        compounds self = c0 :: rest ->
        similar_sorted c0 = false ->
        exists self',
          canbenchmark_sort self = Ok self' /\
          forall c, In c (compounds self') -> is_ascending (similar c) = true).
Proof.
  intros H.
  destruct (H (sample_cando
                 [blank_compound 0 [(1%nat, f200000); (2%nat, nan)] false])
              _ _ eq_refl eq_refl eq_refl eq_refl) as [self' [Hrun Hasc]].
  vm_compute in Hrun. injection Hrun as <-.
  specialize (Hasc _ (or_introl eq_refl)). vm_compute in Hasc.
  discriminate Hasc.
Qed.

(** C10, amended.  Without indication-protein or indication-pathway
    restriction, the sorting step of [canbenchmark] looks only at the first
    compound's [similar_sorted] flag.  If it is false, every compound's
    neighbor list is replaced by its sort (a permutation of the list,
    ascending by the sort key, which orders NaN as 100000) and flagged
    sorted; if it is true, nothing is changed, whatever the other compounds'
    lists and flags are. *)
Theorem canbenchmark_sort_first_flag
    (self : CANDO) (c0 : Compound) (rest : list Compound) :
  truthy (indication_proteins self) = false ->
  truthy (indication_pathways self) = false ->
  compounds self = c0 :: rest ->
  (similar_sorted c0 = false ->
   canbenchmark_sort self
   = Ok (set_compounds (map sort_for_benchmark (compounds self)) self) /\
   forall c, In c (compounds self) ->
     similar (sort_for_benchmark c) = sorted sort_key (similar c) /\
     Permutation (similar (sort_for_benchmark c)) (similar c) /\
     key_ascending sort_key (similar (sort_for_benchmark c)) /\
     similar_sorted (sort_for_benchmark c) = true) /\
  (similar_sorted c0 = true -> canbenchmark_sort self = Ok self).
Proof.
  intros Hp Hw Hcs. unfold canbenchmark_sort.
  rewrite Hp, Hw, Hcs. cbn [negb andb getitem nth_error bind].
  split; intros Hflag; rewrite Hflag; cbn [negb].
  - split; [reflexivity |]. intros c _.
    cbn [sort_for_benchmark set_similar set_similar_sorted similar similar_sorted].
    repeat split.
    + apply sorted_perm.
    + apply sorted_similar_ascending.
  - reflexivity.
Qed.

(** The first compound is flagged sorted and the second one holds an unsorted
    list: nothing is re-sorted. *)
Lemma canbenchmark_sort_first_flag_witness :
  let c0 := blank_compound 0 [(1%nat, one)] true in
  let c1 := blank_compound 1 [(0%nat, f3); (0%nat, one)] false in
  canbenchmark_sort (sample_cando [c0; c1]) = Ok (sample_cando [c0; c1]).
Proof.
  cbv zeta.
  apply (proj2 (canbenchmark_sort_first_flag
                  (sample_cando
                     [blank_compound 0 [(1%nat, one)] true;
                      blank_compound 1 [(0%nat, f3); (0%nat, one)] false])
                  (blank_compound 0 [(1%nat, one)] true)
                  [blank_compound 1 [(0%nat, f3); (0%nat, one)] false]
                  eq_refl eq_refl eq_refl)).
  reflexivity.
Defined.

(** ** Lookups *)

Lemma find_absent {A : Type} (f : A -> bool) (l : list A) :
  (forall x, In x l -> f x = false) -> find f l = None.
Proof.
  induction l as [|a l IH]; intros H; [reflexivity |].
  cbn [find]. rewrite (H a (or_introl eq_refl)). apply IH.
  intros x Hx. apply H. now right.
Qed.

Lemma id_d_absent (cs : list Compound) (nm : string) (d : option Z) :
  (forall c, In c cs -> name c <> nm) ->
  fold_left (fun d c => if String.eqb (name c) nm then Some (id_ c) else d) cs d
  = d.
Proof.
  revert d. induction cs as [|c cs IH]; intros d H; [reflexivity |].
  cbn [fold_left].
  destruct (String.eqb_spec (name c) nm) as [E | _].
  - exfalso. apply (H c (or_introl eq_refl) E).
  - apply IH. intros x Hx. apply H. now right.
Qed.

(** C9, as stated, fails for compounds: [get_compound] on an id that is not
    in the collection prints a message and returns [None]; it does not raise
    [LookupError]. *)
Lemma get_compound_counterexample :
  ~ (forall (self : CANDO) (i : Z),
        (forall c, In c (compounds self) -> id_ c <> i) ->
        get_compound self (Some i) EmptyString = Raise LookupError).
Proof.
  intros H. specialize (H (sample_cando []) 1 (fun c (F : False) => match F with end)).
  discriminate H.
Qed.

(** C9, amended.  Looking up an indication, a pathway or an ADR by an id that
    is not in the collection raises [LookupError], which the caller can
    catch; looking up a compound by an id, or by a name, that is not in the
    collection returns [None] instead of raising. *)
Theorem lookup_not_found (self : CANDO) :
  (forall i, (forall x, In x (indications self) -> ind_id_ x <> i) ->
             get_indication self i = Raise LookupError) /\
  (forall i, (forall x, In x (pathways self) -> pw_id_ x <> i) ->
             get_pathway self i = Raise LookupError) /\
  (forall i, (forall x, In x (adrs self) -> adr_id_ x <> i) ->
             get_adr self i = Raise LookupError) /\
  (forall i nm, (forall c, In c (compounds self) -> id_ c <> i) ->
                get_compound self (Some i) nm = Ok None) /\
  (forall nm, (forall c, In c (compounds self) -> name c <> strip nm) ->
              get_compound self None nm = Ok None).
Proof.
  repeat split.
  - intros i H. unfold get_indication. rewrite find_absent; [reflexivity |].
    intros x Hx. apply String.eqb_neq. auto.
  - intros i H. unfold get_pathway. rewrite find_absent; [reflexivity |].
    intros x Hx. apply String.eqb_neq. auto.
  - intros i H. unfold get_adr. rewrite find_absent; [reflexivity |].
    intros x Hx. apply String.eqb_neq. auto.
  - intros i nm H. cbn [get_compound]. unfold get_compound_id.
    rewrite find_absent; [reflexivity |].
    intros x Hx. apply Z.eqb_neq. auto.
  - intros nm H. cbn [get_compound]. unfold id_d.
    rewrite id_d_absent; [reflexivity | exact H].
Qed.

Lemma lookup_not_found_witness :
  let self := mkCANDO [blank_compound 7 [] false]
                      [mkIndication "D001" "flu" [0%nat] []]
                      [mkPathway "P1" []] [mkADR "A1" "rash" [0%nat]]
                      [] "max" "" "" false in
  get_indication self "D999" = Raise LookupError /\
  get_compound self (Some 8) "" = Ok None.
Proof.
  cbv zeta. split.
  - apply (proj1 (lookup_not_found _)).
    intros x [<- | []]. discriminate.
  - apply (proj1 (proj2 (proj2 (proj2 (lookup_not_found _))))).
    intros c [<- | []]. discriminate.
Defined.

(** ** The pathway fallback *)

Lemma check_proteins_unbounded (depth : nat) (self : CANDO)
    (ind : Indication) (paths : list Pathway) :
  filter has_proteins paths = [] ->
  filter has_proteins (pathways self) = [] ->
  check_proteins depth self (Some ind) paths = (Raise RecursionError, depth).
Proof.
  intros Hp Hall. revert paths Hp.
  induction depth as [|depth IH]; intros paths Hp; [reflexivity |].
  cbn [check_proteins]. rewrite Hp. cbn [length Nat.ltb Nat.leb].
  rewrite (IH _ Hall). reflexivity.
Qed.

(** When the full pathway set has a pathway with a member protein, one
    fallback is enough. *)
Lemma check_proteins_one_fallback (depth : nat) (self : CANDO)
    (ind : Indication) (paths : list Pathway) :
  filter has_proteins paths = [] ->
  filter has_proteins (pathways self) <> [] ->
  check_proteins (S (S depth)) self (Some ind) paths
  = (Ok (filter has_proteins (pathways self)), 1%nat).
Proof.
  intros Hp Hall. cbn [check_proteins]. rewrite Hp. cbn [length Nat.ltb Nat.leb].
  destruct (filter has_proteins (pathways self)) as [|pw pl]; [contradiction |].
  reflexivity.
Qed.

(** C4: the code breaks the claim.  With an indication whose only pathway has
    no member protein and a full pathway set that has no member protein
    either, [quantify_pathways] never gets its pathway list: whatever the
    recursion limit [depth], [check_proteins] falls back to the full set
    [depth] times and the call ends in [RecursionError]. *)
Theorem quantify_pathways_fallback_unbounded
    (py_sum np_average : list float -> float) (depth : nat) :
  quantify_pathways py_sum np_average depth orphan_cando (Some orphan_indication)
  = (Raise RecursionError, depth).
Proof.
  unfold quantify_pathways. cbn [select_func orphan_cando pathway_quantifier].
  cbn [String.eqb Ascii.eqb Bool.eqb].
  unfold select_pathways. cbn [orphan_indication ind_pathways length Nat.eqb].
  rewrite check_proteins_unbounded by reflexivity.
  reflexivity.
Qed.

(** ** The saved distance file *)

Section SavingFacts.

Variable format_float : float -> string.

Lemma append_assoc (a b c : string) :
  ((a ++ b) ++ c = a ++ (b ++ c))%string.
Proof.
  induction a as [|x a IH]; [reflexivity |]. cbn. now rewrite IH.
Qed.

Lemma append_empty_r (a : string) : (a ++ "" = a)%string.
Proof.
  induction a as [|x a IH]; [reflexivity |]. cbn. now rewrite IH.
Qed.

Lemma drop_last_tab (s : string) : drop_last (s ++ tab) = s.
Proof.
  induction s as [|x s IH]; [reflexivity |].
  cbn [append drop_last]. rewrite IH.
  destruct s; reflexivity.
Qed.

Lemma rmsds_loop_fields (similarity : bool) (ci si : nat)
    (sims : list neighbor) (o : string) :
  rmsds_loop format_float similarity ci si sims o
  = (o ++ tabbed (rmsds_fields format_float similarity ci si sims))%string.
Proof.
  revert si o. induction sims as [|s rest IH]; intros si o.
  - cbn. now rewrite append_empty_r.
  - cbn [rmsds_loop rmsds_fields]. rewrite IH.
    destruct (Nat.eqb ci si), similarity; cbn [app tabbed];
      now rewrite ?append_assoc.
Qed.

Lemma rmsds_fields_length (similarity : bool) (ci si : nat)
    (sims : list neighbor) :
  length (rmsds_fields format_float similarity ci si sims)
  = (length sims
     + if (si <=? ci)%nat && (ci <? si + length sims)%nat then 1 else 0)%nat.
Proof.
  revert si. induction sims as [|s rest IH]; intros si.
  - cbn [rmsds_fields length]. 
    destruct (Nat.leb_spec si ci), (Nat.ltb_spec ci (si + 0)); cbn; lia.
  - cbn [rmsds_fields]. rewrite length_app. cbn [length]. rewrite IH.
    destruct (Nat.eqb_spec ci si) as [-> | Hne].
    + destruct (Nat.leb_spec (S si) si); [lia |].
      destruct (Nat.leb_spec si si); [| lia].
      destruct (Nat.ltb_spec si (si + S (length rest))); [| lia].
      cbn. lia.
    + destruct (Nat.leb_spec (S si) ci), (Nat.leb_spec si ci),
        (Nat.ltb_spec ci (S si + length rest)),
        (Nat.ltb_spec ci (si + S (length rest))); cbn; lia.
Qed.

(** C5: the code breaks the claim on the last line.  Every line is its
    compound's fields joined by tabs; the fields are the compound's distances,
    with the diagonal placeholder put in front of the distance at position
    [ci] of the list.  A compound at position [ci] with [ci] neighbors or
    fewer gets no placeholder: in a collection of N compounds, each with N-1
    neighbors, the last line holds N-1 values.  For two compounds at distance
    [d] the file is the line [0.0 <tab> d] followed by the line [d]. *)
Theorem rmsds_last_line_lacks_diagonal (similarity : bool) (c : Compound)
    (ci : nat) (d : float) :
  rmsds_to_str format_float similarity c ci
  = (drop_last (tabbed (rmsds_fields format_float similarity ci 0 (similar c)))
     ++ newline)%string /\
  length (rmsds_fields format_float similarity ci 0 (similar c))
  = (if (ci <? length (similar c))%nat
     then S (length (similar c)) else length (similar c)) /\
  save_rmsds format_float false
    [blank_compound 0 [(1%nat, d)] false; blank_compound 1 [(0%nat, d)] false]
  = [("0.0" ++ tab ++ format_float d ++ newline)%string;
     (format_float d ++ newline)%string].
Proof.
  split; [| split].
  - unfold rmsds_to_str. rewrite rmsds_loop_fields. reflexivity.
  - rewrite rmsds_fields_length. cbn [Nat.leb andb Nat.add].
    destruct (ci <? length (similar c))%nat; lia.
  - unfold save_rmsds, rmsds_to_str.
    cbn [length seq map nth_error blank_compound similar rmsds_loop Nat.eqb snd].
    cbn [append]. rewrite <- (append_assoc tab (format_float d) tab).
    change (String "0" (String "." (String "0" ((tab ++ format_float d) ++ tab))))
      with (("0.0" ++ tab ++ format_float d) ++ tab)%string.
    rewrite !drop_last_tab. reflexivity.
Qed.

End SavingFacts.

(** ** Pathway aggregation *)

Lemma mapM_total {A B : Type} (f : A -> result B) (g : A -> B) (l : list A) :
  (forall a, In a l -> f a = Ok (g a)) -> mapM f l = Ok (map g l).
Proof.
  induction l as [|a l IH]; intros H; [reflexivity |].
  cbn [mapM map]. rewrite (H a (or_introl eq_refl)). cbn [bind].
  rewrite IH; [reflexivity |]. intros x Hx. apply H. now right.
Qed.






Section QuantifyFacts.

Variable py_sum : list float -> float.
Variable np_average : list float -> float.



End QuantifyFacts.


(** ** Loops and list updates *)

Lemma for_each_seq_total {St : Type} (P : nat -> St -> Prop)
    (body : nat -> St -> result St) (len a : nat) (st : St) :
  P a st ->
  (forall i s, (a <= i < a + len)%nat -> P i s ->
               exists s', body i s = Ok s' /\ P (S i) s') ->
  exists st', for_each (seq a len) body st = Ok st' /\ P (a + len)%nat st'.
Proof.
  revert a st. induction len as [|len IH]; intros a st H0 Hstep.
  - exists st. rewrite Nat.add_0_r. split; [reflexivity | exact H0].
  - destruct (Hstep a st ltac:(lia) H0) as [s1 [Hb H1]].
    destruct (IH (S a) s1 H1) as [st' [Hrun Hend]].
    { intros i s Hi. apply Hstep. lia. }
    exists st'. cbn [seq for_each]. rewrite Hb. cbn [bind].
    split; [exact Hrun |]. now rewrite Nat.add_succ_r.
Qed.

Lemma for_each_seq_inv {St : Type} (P : St -> Prop)
    (body : nat -> St -> result St) (len a : nat) (st st' : St) :
  P st ->
  (forall i s s', (a <= i < a + len)%nat -> P s -> body i s = Ok s' -> P s') ->
  for_each (seq a len) body st = Ok st' -> P st'.
Proof.
  revert a st. induction len as [|len IH]; intros a st H0 Hstep Hrun.
  - cbn in Hrun. now injection Hrun as <-.
  - cbn [seq for_each] in Hrun.
    destruct (body a st) as [s1|e] eqn:Hb; [| discriminate Hrun].
    cbn [bind] in Hrun. apply (IH (S a) s1); auto.
    + apply (Hstep a st s1); auto. lia.
    + intros i s s' Hi. apply Hstep. lia.
Qed.

Lemma getitem_in_range {A : Type} (l : list A) (i : nat) :
  (i < length l)%nat -> exists a, getitem l i = Ok a.
Proof.
  intros H. unfold getitem.
  destruct (nth_error l i) eqn:E; [eexists; reflexivity |].
  apply nth_error_None in E. lia.
Qed.

Lemma getitem_ok_range {A : Type} (l : list A) (i : nat) (a : A) :
  getitem l i = Ok a -> nth_error l i = Some a.
Proof.
  unfold getitem. destruct (nth_error l i); [| discriminate].
  intros H. now injection H as <-.
Qed.

Lemma nth_error_update_nth {A : Type} (f : A -> A) (l : list A) (i k : nat) :
  nth_error (update_nth i f l) k
  = if Nat.eqb k i then option_map f (nth_error l k) else nth_error l k.
Proof.
  revert i k. induction l as [|a l IH]; intros i k.
  - destruct i, k; cbn; try reflexivity; destruct (Nat.eqb k i); reflexivity.
  - destruct i as [|i], k as [|k]; cbn; try reflexivity. apply IH.
Qed.

Lemma length_update_nth {A : Type} (f : A -> A) (l : list A) (i : nat) :
  length (update_nth i f l) = length l.
Proof.
  revert i. induction l as [|a l IH]; intros [|i]; cbn; auto.
Qed.

(** ** Neighbor lists never refer to their own compound *)

Lemma append_similar_no_self (cs : list Compound) (i j : nat) (s : float) :
  i <> j -> no_self_reference cs ->
  no_self_reference (append_similar i (j, s) cs).
Proof.
  intros Hij H k c e Hk He. unfold append_similar in Hk.
  rewrite nth_error_update_nth in Hk.
  destruct (Nat.eqb_spec k i) as [-> | Hki]; [| eauto].
  destruct (nth_error cs i) as [c0|] eqn:E; [| discriminate Hk].
  cbn in Hk. injection Hk as <-. cbn in He.
  apply in_app_or in He as [He | [<- | []]]; [eauto | cbn; auto].
Qed.

Lemma sort_and_mark_no_self (cs : list Compound) :
  no_self_reference cs -> no_self_reference (map sort_and_mark cs).
Proof.
  intros H k c e Hk He. rewrite nth_error_map in Hk.
  destruct (nth_error cs k) as [c0|] eqn:E; [| discriminate Hk].
  cbn in Hk. injection Hk as <-. cbn in He.
  apply (Permutation_in _ (sorted_perm sort_key (similar c0))) in He. eauto.
Qed.

Lemma read_score_step (similarity : bool) (scores : list float) (n i : nat)
    (j : nat) (cs : list Compound) :
  (j < length scores)%nat -> (length scores <= n)%nat ->
  no_self_reference cs /\ length cs = n ->
  exists cs', read_score similarity i scores j cs = Ok cs' /\
              (no_self_reference cs' /\ length cs' = n).
Proof.
  intros Hj Hn [Hns Hlen]. unfold read_score.
  destruct (Nat.eqb_spec i j) as [-> | Hij]; [eauto |].
  destruct (getitem_in_range scores j Hj) as [s ->].
  destruct (getitem_in_range cs j ltac:(lia)) as [c ->].
  cbn [bind]. eexists. split; [reflexivity |]. split.
  - now apply append_similar_no_self.
  - unfold append_similar. now rewrite length_update_nth.
Qed.

Lemma read_line_step (similarity : bool) (lines : list (list float)) (n i : nat)
    (cs : list Compound) :
  (i < length lines)%nat -> (length lines <= n)%nat ->
  Forall (fun scores => length scores <= n)%nat lines ->
  no_self_reference cs /\ length cs = n ->
  exists cs', read_line similarity lines i cs = Ok cs' /\
              (no_self_reference cs' /\ length cs' = n).
Proof.
  intros Hi Hn Hall Hinv. unfold read_line.
  destruct (getitem_in_range cs i ltac:(lia)) as [c ->].
  destruct (getitem_in_range lines i Hi) as [scores Hsc]. rewrite Hsc.
  cbn [bind].
  assert (Hlen : (length scores <= n)%nat).
  { rewrite Forall_forall in Hall. apply Hall.
    eapply nth_error_In, getitem_ok_range, Hsc. }
  destruct (for_each_seq_total
              (fun _ cs => no_self_reference cs /\ length cs = n)
              (read_score similarity i scores) (length scores) 0 cs Hinv)
    as [cs' [Hrun Hend]]; [| eauto].
  intros j s Hj Hs. apply read_score_step; auto. lia.
Qed.

Lemma read_rmsds_no_self (similarity : bool) (lines : list (list float))
    (cs : list Compound) :
  (length lines <= length cs)%nat ->
  Forall (fun scores => length scores <= length cs)%nat lines ->
  no_self_reference cs ->
  exists cs', read_rmsds similarity lines cs = Ok cs' /\
              no_self_reference cs' /\ length cs' = length cs.
Proof.
  intros Hn Hall Hns. unfold read_rmsds.
  destruct (for_each_seq_total
              (fun _ cs' => no_self_reference cs' /\ length cs' = length cs)
              (read_line similarity lines) (length lines) 0 cs (conj Hns eq_refl))
    as [cs' [Hrun [Hns' Hlen]]].
  { intros i s Hi Hs. apply read_line_step; auto. lia. }
  rewrite Hrun. cbn [bind]. eexists. split; [reflexivity |]. split.
  - now apply sort_and_mark_no_self.
  - now rewrite length_map.
Qed.

Lemma pair_step_total (dm : list float) (nc i j : nat)
    (st : list Compound * nat) :
  (i <= j < nc)%nat ->
  (nc * (nc - 1) <= 2 * length dm)%nat ->
  pairs_invariant nc i j st ->
  exists st', pair_step dm i j st = Ok st' /\ pairs_invariant nc i (S j) st'.
Proof.
  intros Hij Hdm. destruct st as [cs n]. unfold pairs_invariant.
  cbn [fst snd]. intros [Hns [Hlen Hn]]. unfold pair_step.
  destruct (Nat.eqb_spec i j) as [-> | Hne].
  - eexists. split; [reflexivity |]. cbn [fst snd]. repeat split; auto. lia.
  - destruct (getitem_in_range dm n) as [r ->].
    { assert (2 * Z.of_nat n + 2 <= Z.of_nat nc * (Z.of_nat nc - 1)) by nia.
      nia. }
    cbn [bind]. eexists. split; [reflexivity |]. cbn [fst snd]. repeat split.
    + apply append_similar_no_self; [lia |].
      now apply append_similar_no_self.
    + unfold append_similar. now rewrite !length_update_nth.
    + lia.
Qed.

Lemma add_pairs_total (dm : list float) (cs : list Compound) :
  (length cs * (length cs - 1) <= 2 * length dm)%nat ->
  no_self_reference cs ->
  exists st, add_pairs dm cs = Ok st /\
             no_self_reference (fst st) /\ length (fst st) = length cs.
Proof.
  intros Hdm Hns. unfold add_pairs. set (nc := length cs) in *.
  destruct (for_each_seq_total
              (fun i st => pairs_invariant nc i i st)
              (fun i => for_each (seq i (nc - i)) (pair_step dm i))
              nc 0 (cs, O))
    as [st [Hrun [Hns' [Hlen _]]]].
  - unfold pairs_invariant. cbn [fst snd]. repeat split; auto.
  - intros i s Hi Hs.
    destruct (for_each_seq_total
                (fun j st => pairs_invariant nc i j st)
                (pair_step dm i) (nc - i) i s Hs)
      as [s' [Hrun Hend]].
    + intros j s0 Hj Hs0. apply pair_step_total; auto. lia.
    + exists s'. split; [exact Hrun |].
      replace (i + (nc - i))%nat with nc in Hend by lia.
      unfold pairs_invariant in *. destruct Hend as [H1 [H2 H3]].
      repeat split; auto. nia.
  - exists st. auto.
Qed.

Lemma compute_distances_no_self (dm : list float) (cs : list Compound) :
  (length cs * (length cs - 1) <= 2 * length dm)%nat ->
  no_self_reference cs ->
  exists cs', compute_distances dm cs = Ok cs' /\
              no_self_reference cs' /\ length cs' = length cs.
Proof.
  intros Hdm Hns. unfold compute_distances.
  destruct (add_pairs_total dm cs Hdm Hns) as [st [-> [Hns' Hlen]]].
  cbn [bind]. eexists. split; [reflexivity |]. split.
  - now apply sort_and_mark_no_self.
  - now rewrite length_map.
Qed.

Lemma find_q_absent (i : Z) (cs : list Compound) (ci q : nat) :
  (forall c, In c cs -> id_ c <> i) -> find_q i cs ci q = q.
Proof.
  revert ci q. induction cs as [|c cs IH]; intros ci q H; [reflexivity |].
  cbn [find_q]. destruct (Z.eqb_spec i (id_ c)) as [E | _].
  - exfalso. apply (H c (or_introl eq_refl)). auto.
  - apply IH. intros x Hx. apply H. now right.
Qed.

Lemma find_q_unique (i : Z) (cs : list Compound) (ci q p : nat)
    (cmpd : Compound) :
  nth_error cs p = Some cmpd -> id_ cmpd = i ->
  (forall j c, nth_error cs j = Some c -> id_ c = i -> j = p) ->
  find_q i cs ci q = (ci + p)%nat.
Proof.
  revert ci q p. induction cs as [|c cs IH]; intros ci q p Hp Hid Hu.
  - destruct p; discriminate Hp.
  - cbn [find_q]. destruct p as [|p]; cbn [nth_error] in Hp.
    + injection Hp as ->. rewrite <- Hid, Z.eqb_refl.
      rewrite find_q_absent; [lia |].
      intros x Hx E. apply In_nth_error in Hx as [k Hk].
      specialize (Hu (S k) x Hk (eq_trans E Hid)). discriminate Hu.
    + destruct (Z.eqb_spec i (id_ c)) as [E | _].
      * specialize (Hu 0%nat c eq_refl (eq_sym E)). discriminate Hu.
      * rewrite (IH (S ci) q p Hp Hid); [lia |].
        intros j x Hj Hx. specialize (Hu (S j) x Hj Hx). lia.
Qed.

Lemma generate_similar_sigs_entries (cs : list Compound) (cmpd : Compound)
    (sort : bool) (distances : list float) :
  (length cs <= length distances)%nat ->
  exists cmpd',
    generate_similar_sigs cs cmpd sort distances = Ok cmpd' /\
    forall e, In e (similar cmpd') -> fst e <> find_q (id_ cmpd) cs O O.
Proof.
  intros Hd. unfold generate_similar_sigs.
  set (q := find_q (id_ cmpd) cs O O).
  destruct (for_each_seq_total
              (fun _ sim => forall e : neighbor, In e sim -> fst e <> q)
              (similar_step q cs distances) (length cs) 0 [])
    as [sim [Hrun Hend]].
  - intros e [].
  - intros i s Hi Hs. unfold similar_step.
    destruct (getitem_in_range cs i ltac:(lia)) as [c ->]. cbn [bind].
    destruct (Nat.eqb_spec i q) as [-> | Hiq]; [eauto |].
    destruct (getitem_in_range distances i ltac:(lia)) as [d ->]. cbn [bind].
    eexists. split; [reflexivity |].
    intros e He. apply in_app_or in He as [He | [<- | []]]; auto.
  - rewrite Hrun. cbn [bind]. destruct sort; eexists; (split; [reflexivity |]).
    + cbn. intros e He.
      apply (Permutation_in _ (sorted_perm sort_key sim)) in He. auto.
    + cbn. exact Hend.
Qed.

(** C8, as stated, fails on the one-vs-all path: [generate_similar_sigs]
    leaves out the entry at the last position whose compound has the query's
    id.  In a collection of two compounds that both carry id 1, the first one's
    new neighbor list refers to the first one itself. *)
Lemma generate_similar_sigs_counterexample :
  ~ (forall (cs : list Compound) (p : nat) (cmpd cmpd' : Compound)
            (sort : bool) (distances : list float),
        nth_error cs p = Some cmpd ->
        generate_similar_sigs cs cmpd sort distances = Ok cmpd' ->
        forall e, In e (similar cmpd') -> fst e <> p).
Proof.
  intros H.
  apply (H [blank_compound 1 [] false; blank_compound 1 [] false] 0%nat
           (blank_compound 1 [] false) _ false [zero; one] eq_refl eq_refl
           (0%nat, zero)).
  - left. reflexivity.
  - reflexivity.
Qed.

(** C8, amended.  Starting from neighbor lists without self reference (they
    are empty when the compounds are created), reading a distance file and
    the all-pairs computation return and leave no compound's list with an
    entry that refers to the compound itself; one-vs-all generation returns
    and leaves the query compound's list without such an entry provided no
    other compound of the collection carries the query's id. *)
Theorem neighbor_lists_no_self (cs : list Compound) :
  no_self_reference cs ->
  (forall similarity lines,
     (length lines <= length cs)%nat ->
     Forall (fun scores => length scores <= length cs)%nat lines ->
     exists cs', read_rmsds similarity lines cs = Ok cs' /\
                 no_self_reference cs') /\
  (forall distance_matrix,
     (length cs * (length cs - 1) <= 2 * length distance_matrix)%nat ->
     exists cs', compute_distances distance_matrix cs = Ok cs' /\
                 no_self_reference cs') /\
  (forall p cmpd sort distances,
     nth_error cs p = Some cmpd ->
     (forall j c, nth_error cs j = Some c -> id_ c = id_ cmpd -> j = p) ->
     (length cs <= length distances)%nat ->
     exists cmpd',
       generate_similar_sigs cs cmpd sort distances = Ok cmpd' /\
       (forall e, In e (similar cmpd') -> fst e <> p) /\
       no_self_reference (update_nth p (fun _ => cmpd') cs)).
Proof.
  intros Hns. split; [| split].
  - intros similarity lines Hn Hall.
    destruct (read_rmsds_no_self similarity lines cs Hn Hall Hns)
      as [cs' [Hrun [H _]]]; eauto.
  - intros dm Hdm.
    destruct (compute_distances_no_self dm cs Hdm Hns) as [cs' [Hrun [H _]]];
      eauto.
  - intros p cmpd sort distances Hp Hu Hd.
    destruct (generate_similar_sigs_entries cs cmpd sort distances Hd)
      as [cmpd' [Hrun Hq]].
    rewrite (find_q_unique (id_ cmpd) cs 0 0 p cmpd Hp eq_refl Hu) in Hq.
    exists cmpd'. split; [exact Hrun |]. split; [exact Hq |].
    intros k c e Hk He. rewrite nth_error_update_nth in Hk.
    destruct (Nat.eqb_spec k p) as [-> | Hkp]; [| eauto].
    rewrite Hp in Hk. cbn in Hk. injection Hk as <-. auto.
Qed.

(** Three compounds with distinct ids: the three paths on them. *)
Lemma neighbor_lists_no_self_witness :
  let cs := [blank_compound 1 [] false; blank_compound 2 [] false;
             blank_compound 3 [] false] in
  (exists cs', read_rmsds false [[zero; one; f2]; [one; zero; f3]; [f2; f3; zero]] cs
               = Ok cs' /\ no_self_reference cs') /\
  (exists cs', compute_distances [one; f2; f3] cs = Ok cs' /\
               no_self_reference cs') /\
  (exists cmpd', generate_similar_sigs cs (blank_compound 2 [] false) true
                   [one; zero; f3] = Ok cmpd' /\
                 (forall e, In e (similar cmpd') -> fst e <> 1%nat) /\
                 no_self_reference (update_nth 1 (fun _ => cmpd') cs)).
Proof.
  cbv zeta.
  assert (H0 : no_self_reference
                 [blank_compound 1 [] false; blank_compound 2 [] false;
                  blank_compound 3 [] false]).
  { intros [|[|[|i]]] c e Hc He; cbn in Hc;
      try (destruct i; discriminate Hc); injection Hc as <-; destruct He. }
  destruct (neighbor_lists_no_self _ H0) as [Ha [Hb Hc]].
  split; [| split].
  - apply Ha; [cbn; lia | repeat constructor].
  - apply Hb. cbn. lia.
  - apply (Hc 1%nat (blank_compound 2 [] false) true [one; zero; f3] eq_refl);
      [| cbn; lia].
    intros [|[|[|j]]] c Hj Hid; cbn in Hj;
      try (destruct j; discriminate Hj);
      try reflexivity; injection Hj as <-; discriminate Hid.
Defined.

(** ** Continuous-mode cutoffs *)





(** ** More on ranking and sorting *)

Lemma rank_scan_mono (h1 h2 : float -> float -> bool)
    (sims : list neighbor) (r : float) (k : Z) :
  (forall a, h1 a r = true -> h2 a r = true) ->
  match rank_scan h1 sims r k with
  | Some x => x
  | None => k + Z.of_nat (length sims)
  end
  <= match rank_scan h2 sims r k with
     | Some x => x
     | None => k + Z.of_nat (length sims)
     end.
Proof.
  intros Himp. revert k. induction sims as [|s rest IH]; intros k.
  - cbn. lia.
  - cbn [rank_scan]. destruct (h1 (snd s) r) eqn:H1.
    + rewrite (Himp _ H1). specialize (IH (k + 1)).
      destruct (rank_scan h1 rest r (k + 1)), (rank_scan h2 rest r (k + 1));
        cbn [length]; lia.
    + destruct (h2 (snd s) r).
      * destruct (rank_scan h2 rest r (k + 1)) as [x|] eqn:H2.
        -- apply rank_scan_range in H2. lia.
        -- cbn [length]. lia.
      * lia.
Qed.

Lemma competitive_mono (h1 h2 : float -> float -> bool)
    (sims : list neighbor) (r : float) :
  (forall a, h1 a r = true -> h2 a r = true) ->
  competitive h1 sims r <= competitive h2 sims r.
Proof.
  intros Himp. pose proof (rank_scan_mono h1 h2 sims r 0 Himp) as H.
  unfold competitive.
  destruct (rank_scan h1 sims r 0), (rank_scan h2 sims r 0); lia.
Qed.

(** For every neighbor list, sorted or not, and every match distance, the
    standard rank is at most the modified rank, and likewise for the two
    bottom rankings. *)
Theorem standard_rank_le_modified (sims : list neighbor) (r : float) :
  competitive_standard sims r <= competitive_modified sims r /\
  competitive_standard_bottom sims r <= competitive_modified_bottom sims r.
Proof.
  split; apply competitive_mono; intros a H.
  - now apply lt_le.
  - rewrite gt_lt in H. rewrite ge_le. now apply lt_le.
Qed.

Lemma sorted_fixpoint {A : Type} (key : A -> float) (l : list A) :
  key_ascending key l -> sorted key l = l.
Proof.
  unfold key_ascending. induction 1 as [|x l Hl IH Hx]; [reflexivity |].
  cbn [sorted fold_right]. fold (sorted key l). rewrite IH.
  destruct l as [|y l]; [reflexivity |]. cbn [insert_sorted].
  inversion Hx as [|? ? Hxy _]; subst. now rewrite Hxy.
Qed.

(** Sorting a neighbor list gives a permutation of it that is ascending by
    the sort key, and sorting again changes nothing. *)
Theorem sort_and_mark_idempotent (c : Compound) :
  sort_and_mark (sort_and_mark c) = sort_and_mark c /\
  Permutation (similar (sort_and_mark c)) (similar c) /\
  key_ascending sort_key (similar (sort_and_mark c)) /\
  similar_computed (sort_and_mark c) = true /\
  similar_sorted (sort_and_mark c) = true.
Proof.
  destruct c as [nm i ix sg ax sims cmp srt].
  unfold sort_and_mark, set_similar, set_similar_computed, set_similar_sorted.
  cbn [name id_ index sig aux_sig similar similar_computed similar_sorted].
  repeat split.
  - rewrite (sorted_fixpoint sort_key (sorted sort_key sims)); [reflexivity |].
    apply sorted_similar_ascending.
  - apply sorted_perm.
  - apply sorted_similar_ascending.
Qed.

Lemma count_neighbors_perm (holds : float -> float -> bool)
    (l1 l2 : list neighbor) (r : float) :
  Permutation l1 l2 -> count_neighbors holds l1 r = count_neighbors holds l2 r.
Proof.
  unfold count_neighbors. intros H. f_equal.
  induction H as [| x l l' _ IH | x y l | l l' l'' _ IH1 _ IH2].
  - reflexivity.
  - cbn [filter]. destruct (holds (snd x) r); cbn [length]; now rewrite IH.
  - cbn [filter]. destruct (holds (snd x) r), (holds (snd y) r); reflexivity.
  - now rewrite IH1.
Qed.

Lemma key_ascending_is_ascending (sims : list neighbor) :
  Forall (fun e => isnan (snd e) = true \/ lt (snd e) f100000 = true) sims ->
  key_ascending sort_key sims -> is_ascending sims = true.
Proof.
  unfold key_ascending. intros Hsmall Hs.
  induction Hs as [|a l Hl IH Ha]; [reflexivity |].
  inversion Hsmall as [|? ? Hsa Hsl]; subst.
  destruct l as [|b l]; [reflexivity |].
  change (is_ascending (a :: b :: l))
    with (asc_le (snd a) (snd b) && is_ascending (b :: l)).
  rewrite (IH Hsl), andb_true_r.
  inversion Ha as [|? ? Hab _]; subst.
  inversion Hsl as [|? ? Hsb _]; subst.
  unfold asc_le, sort_key in *.
  destruct (isnan (snd b)) eqn:Hb; [reflexivity |]. cbn [negb orb] in *.
  destruct Hsb as [Hsb | Hsb]; [discriminate Hsb |].
  destruct (isnan (snd a)) eqn:Hna; cbn [negb andb] in *.
  - congruence.
  - rewrite (lt_total _ _ Hb Hna) in Hab. now apply negb_false_iff in Hab.
Qed.

(** Sort, then rank.  For a compound whose distances are NaN or below
    100000, ranking against the sorted list gives, under the standard policy,
    the number of neighbors whose distance is strictly less than the match
    distance and, under the modified policy, the number of neighbors whose
    distance is less than or equal to it. *)
Theorem sorted_rank_counts (c : Compound) (r : float) :
  Forall (fun e => isnan (snd e) = true \/ lt (snd e) f100000 = true)
         (similar c) ->
  is_ascending (similar (sort_and_mark c)) = true /\
  competitive_standard (similar (sort_and_mark c)) r
  = count_neighbors lt (similar c) r /\
  competitive_modified (similar (sort_and_mark c)) r
  = count_neighbors le (similar c) r.
Proof.
  intros Hsmall.
  assert (Hasc : is_ascending (similar (sort_and_mark c)) = true).
  { apply key_ascending_is_ascending.
    - eapply Permutation_Forall; [symmetry; apply sorted_perm | exact Hsmall].
    - apply sorted_similar_ascending. }
  split; [exact Hasc |]. split.
  - unfold competitive_standard.
    rewrite (competitive_count lt lt_closed _ r Hasc).
    apply count_neighbors_perm, sorted_perm.
  - unfold competitive_modified.
    rewrite (competitive_count le le_closed _ r Hasc).
    apply count_neighbors_perm, sorted_perm.
Qed.

Lemma sorted_rank_counts_witness :
  let c := blank_compound 0 [(1%nat, f3); (2%nat, nan); (3%nat, one);
                             (4%nat, f2); (5%nat, f2)] false in
  similar (sort_and_mark c)
  = [(3%nat, one); (4%nat, f2); (5%nat, f2); (1%nat, f3); (2%nat, nan)] /\
  competitive_standard (similar (sort_and_mark c)) f2 = 1 /\
  competitive_modified (similar (sort_and_mark c)) f2 = 3.
Proof.
  cbv zeta. split; [reflexivity |].
  destruct (sorted_rank_counts
              (blank_compound 0 [(1%nat, f3); (2%nat, nan); (3%nat, one);
                                 (4%nat, f2); (5%nat, f2)] false) f2)
    as [_ [Hs Hm]].
  - repeat (apply Forall_cons;
            [first [left; reflexivity | right; reflexivity] |]).
    apply Forall_nil.
  - rewrite Hs, Hm. split; reflexivity.
Defined.

(** ** The benchmark scan *)

Section BenchmarkFacts.

Variable member : cref -> bool.

Lemma first_match_found (sims : list neighbor) (k p : nat) (cs : neighbor) :
  first_match member sims k = Some (p, cs) ->
  (k <= p)%nat /\ nth_error sims (p - k) = Some cs /\ member (fst cs) = true /\
  (forall j e, (j < p - k)%nat -> nth_error sims j = Some e ->
               member (fst e) = false).
Proof.
  revert k. induction sims as [|e rest IH]; intros k H; [discriminate H |].
  cbn [first_match] in H. destruct (member (fst e)) eqn:He.
  - injection H as <- <-. rewrite Nat.sub_diag. repeat split; auto.
    intros j x Hj. lia.
  - destruct (IH _ H) as [Hk [Hn [Hm Hbefore]]].
    replace (p - k)%nat with (S (p - S k)) by lia.
    repeat split; auto; [lia |].
    intros [|j] x Hj Hx; cbn [nth_error] in Hx.
    + now injection Hx as <-.
    + apply (Hbefore j x); [lia | exact Hx].
Qed.

Lemma list_index_first_match (sims : list neighbor) (k p : nat) (cs : neighbor) :
  first_match member sims k = Some (p, cs) -> list_index sims p cs k = Ok p.
Proof.
  revert k. induction sims as [|e rest IH]; intros k H; [discriminate H |].
  pose proof (first_match_found _ _ _ _ H) as [_ [_ [Hcs _]]].
  cbn [first_match] in H. cbn [list_index].
  destruct (member (fst e)) eqn:He.
  - injection H as <- <-. now rewrite Nat.eqb_refl.
  - pose proof (first_match_found _ _ _ _ H) as [Hk _].
    destruct (Nat.eqb_spec k p) as [-> | _]; [lia |].
    assert (Hne : entry_eq e cs = false).
    { unfold entry_eq. destruct (Nat.eqb_spec (fst e) (fst cs)) as [E |];
        [| reflexivity].
      rewrite E in He. congruence. }
    rewrite Hne. cbn [orb]. now apply IH.
Qed.

Lemma rank_scan_stops (holds : float -> float -> bool) (sims : list neighbor)
    (r : float) (k : Z) (p : nat) (cs : neighbor) :
  nth_error sims p = Some cs -> holds (snd cs) r = false ->
  exists x, rank_scan holds sims r k = Some x /\ x <= k + Z.of_nat p.
Proof.
  revert k p. induction sims as [|e rest IH]; intros k p Hp Hcs.
  - destruct p; discriminate Hp.
  - cbn [rank_scan]. destruct p as [|p]; cbn [nth_error] in Hp.
    + injection Hp as ->. rewrite Hcs. exists k. split; [reflexivity | lia].
    + destruct (holds (snd e) r).
      * destruct (IH (k + 1) p Hp Hcs) as [x [Hx Hle]].
        exists x. split; [exact Hx | lia].
      * exists k. split; [reflexivity | lia].
Qed.

Lemma rank_scan_passes (holds : float -> float -> bool) (sims : list neighbor)
    (r : float) (k : Z) (p : nat) :
  (p < length sims)%nat ->
  (forall j e, (j <= p)%nat -> nth_error sims j = Some e ->
               holds (snd e) r = true) ->
  match rank_scan holds sims r k with
  | Some x => k + Z.of_nat p < x
  | None => True
  end.
Proof.
  revert k p. induction sims as [|e rest IH]; intros k p Hp Hall.
  - cbn in Hp. lia.
  - cbn [rank_scan]. rewrite (Hall 0%nat e ltac:(lia) eq_refl).
    destruct p as [|p].
    + destruct (rank_scan holds rest r (k + 1)) as [x|] eqn:Hx; [| exact I].
      apply rank_scan_range in Hx. lia.
    + specialize (IH (k + 1) p). cbn [length] in Hp.
      destruct (rank_scan holds rest r (k + 1)) as [x|]; [| exact I].
      assert (k + 1 + Z.of_nat p < x); [| lia].
      apply IH; [lia |]. intros j x0 Hj Hx0.
      apply (Hall (S j) x0); [lia | exact Hx0].
Qed.

Lemma le_refl (a : float) : isnan a = false -> le a a = true.
Proof.
  intros Ha. pose proof (lt_total a a Ha Ha) as H.
  destruct (lt a a) eqn:Hlt.
  - rewrite (lt_asym _ _ Hlt) in Hlt. discriminate Hlt.
  - symmetry in H. now apply negb_false_iff in H.
Qed.

Lemma ascending_before (sims : list neighbor) (p : nat) (cs : neighbor) :
  is_ascending sims = true -> nth_error sims p = Some cs ->
  isnan (snd cs) = false ->
  forall j e, (j <= p)%nat -> nth_error sims j = Some e ->
              le (snd e) (snd cs) = true.
Proof.
  revert p. induction sims as [|a rest IH]; intros p Hasc Hp Hcs j e Hj He.
  - destruct j; discriminate He.
  - destruct p as [|p]; cbn [nth_error] in Hp.
    + assert (j = 0%nat) as -> by lia. cbn [nth_error] in He.
      injection Hp as ->. injection He as <-. now apply le_refl.
    + pose proof (is_ascending_tail _ _ Hasc) as Htail.
      destruct j as [|j]; cbn [nth_error] in He.
      * injection He as <-. destruct rest as [|b rest]; [destruct p; discriminate Hp |].
        change (is_ascending (a :: b :: rest))
          with (asc_le (snd a) (snd b) && is_ascending (b :: rest)) in Hasc.
        apply andb_prop in Hasc as [Hab _].
        assert (Hb : le (snd b) (snd cs) = true)
          by (apply (IH p Htail Hp Hcs 0%nat b); [lia | reflexivity]).
        destruct (le_isnan _ _ Hb) as [Hnb _].
        unfold asc_le in Hab. rewrite Hnb in Hab. cbn [orb] in Hab.
        apply andb_prop in Hab as [_ Hab]. exact (le_trans _ _ _ Hab Hb).
      * apply (IH p Htail Hp Hcs j e); [lia | exact He].
Qed.

(** The three rankings of a match.  Whatever the list, the ordinal value
    ([c.similar.index(cs)]) of the first neighbor that shares the effect is
    that neighbor's position.  On a list ascending by distance, for a match
    whose distance is not NaN, the standard rank is at most that position and
    the modified rank is strictly greater: standard puts the match at the
    front of its tie block, modified behind it. *)
Theorem rank_policies_around_match (sims : list neighbor) (p : nat)
    (cs : neighbor) :
  first_match member sims 0 = Some (p, cs) ->
  rank_value false "ordinal" sims p cs = Ok (Z.of_nat p) /\
  rank_value true "ordinal" sims p cs = Ok (Z.of_nat p) /\
  (is_ascending sims = true -> isnan (snd cs) = false ->
   exists lo hi,
     rank_value false "standard" sims p cs = Ok lo /\
     rank_value false "modified" sims p cs = Ok hi /\
     0 <= lo <= Z.of_nat p /\ Z.of_nat p < hi <= Z.of_nat (length sims)).
Proof.
  intros Hfm.
  pose proof (list_index_first_match _ _ _ _ Hfm) as Hidx.
  destruct (first_match_found _ _ _ _ Hfm) as [_ [Hnth _]].
  rewrite Nat.sub_0_r in Hnth.
  split; [| split].
  - unfold rank_value. cbn [String.eqb Ascii.eqb Bool.eqb]. now rewrite Hidx.
  - unfold rank_value. cbn [String.eqb Ascii.eqb Bool.eqb]. now rewrite Hidx.
  - intros Hasc Hcs. eexists. eexists.
    split; [reflexivity |]. split; [reflexivity |].
    assert (Hlen : (p < length sims)%nat)
      by (apply nth_error_Some; congruence).
    split; [split; [apply competitive_range |] | split;
      [| apply competitive_range]].
    + unfold competitive_standard, competitive.
      destruct (rank_scan_stops lt sims (snd cs) 0 p cs Hnth) as [x [-> Hx]];
        [| lia].
      pose proof (lt_total _ _ Hcs Hcs) as H.
      rewrite (le_refl _ Hcs) in H. exact H.
    + unfold competitive_modified, competitive.
      pose proof (rank_scan_passes le sims (snd cs) 0 p Hlen
                    (ascending_before sims p cs Hasc Hnth Hcs)) as H.
      destruct (rank_scan le sims (snd cs) 0); lia.
Qed.

End BenchmarkFacts.

(** Neighbors at distances 1, 2, 2, 2, 3, of which the third and the fourth
    share the effect: ordinal 2, standard 1, modified 4. *)
Lemma rank_policies_around_match_witness :
  let member := fun k : cref => Nat.leb 7 k in
  let sims := [(1%nat, one); (2%nat, f2); (7%nat, f2); (8%nat, f2); (3%nat, f3)] in
  first_match member sims 0 = Some (2%nat, (7%nat, f2)) /\
  rank_value false "ordinal" sims 2 (7%nat, f2) = Ok 2 /\
  rank_value false "standard" sims 2 (7%nat, f2) = Ok 1 /\
  rank_value false "modified" sims 2 (7%nat, f2) = Ok 4.
Proof.
  cbv zeta. split; [reflexivity |]. split.
  - apply (proj1 (rank_policies_around_match (fun k : cref => Nat.leb 7 k)
       [(1%nat, one); (2%nat, f2); (7%nat, f2); (8%nat, f2); (3%nat, f3)]
       2%nat (7%nat, f2) eq_refl)).
  - split; reflexivity.
Defined.

(** ** Generation for some compounds *)

Lemma map_id_update_nth (f : Compound -> Compound) (k : nat)
    (l : list Compound) :
  (forall c, id_ (f c) = id_ c) -> map id_ (update_nth k f l) = map id_ l.
Proof.
  intros Hf. revert k. induction l as [|a l IH]; intros [|k]; cbn;
    try reflexivity.
  - now rewrite Hf.
  - now rewrite IH.
Qed.

Lemma nth_error_ids (s : list Compound) (ids : list Z) (i : nat)
    (c : Compound) :
  map id_ s = ids -> nth_error s i = Some c -> nth_error ids i = Some (id_ c).
Proof.
  intros <- Hc. now rewrite nth_error_map, Hc.
Qed.

Lemma nth_error_ids_inv (s : list Compound) (ids : list Z) (i : nat) (z : Z) :
  map id_ s = ids -> nth_error ids i = Some z ->
  exists c, nth_error s i = Some c /\ id_ c = z.
Proof.
  intros <- Hz. rewrite nth_error_map in Hz.
  destruct (nth_error s i) as [c|]; [| discriminate Hz].
  cbn in Hz. injection Hz as <-. now exists c.
Qed.

Lemma some_step_loop (ids : list Z) (k : cref) (qj : Z)
    (distances : list (list float)) (j : nat) (row : list float)
    (s0 : list Compound) (c0 : Compound) :
  map id_ s0 = ids -> nth_error s0 k = Some c0 -> similar c0 = [] ->
  nth_error distances j = Some row -> (length ids <= length row)%nat ->
  exists s ck,
    for_each (seq 0 (length ids)) (some_step k qj distances j) s0 = Ok s /\
    map id_ s = ids /\
    (forall k', k' <> k -> nth_error s k' = nth_error s0 k') /\
    nth_error s k = Some ck /\
    others_by_id ids (length ids) qj ck.
Proof.
  intros Hids Hc0 Hempty Hrow Hlen.
  destruct (for_each_seq_total
    (fun m s => map id_ s = ids /\
                (forall k', k' <> k -> nth_error s k' = nth_error s0 k') /\
                exists ck, nth_error s k = Some ck /\ others_by_id ids m qj ck)
    (some_step k qj distances j) (length ids) 0 s0) as [s [Hrun HP]].
  - split; [exact Hids |]. split; [reflexivity |].
    exists c0. split; [exact Hc0 |]. unfold others_by_id. rewrite Hempty.
    split; [constructor |]. intros i. cbn. split; [tauto | lia].
  - intros m s Hm [Hs [Hother [ck [Hck [Hnd Hin]]]]].
    unfold some_step, getitem.
    destruct (nth_error s m) as [c2|] eqn:Ec2.
    2:{ apply nth_error_None in Ec2. rewrite <- Hs, length_map in Hm. lia. }
    cbn [bind]. pose proof (nth_error_ids _ _ _ _ Hs Ec2) as Hz.
    destruct (Z.eqb_spec (id_ c2) qj) as [Eq | Eq].
    + exists s. split; [reflexivity |]. split; [exact Hs |].
      split; [exact Hother |]. exists ck. split; [exact Hck |].
      split; [exact Hnd |]. intros i. rewrite Hin. split.
      * intros [Hi Hex]. split; [lia | exact Hex].
      * intros [Hi [z [Hzi Hne]]]. split; [| now exists z].
        destruct (Nat.eq_dec i m) as [-> |]; [| lia].
        rewrite Hz in Hzi. injection Hzi as <-. contradiction.
    + rewrite Hrow. cbn [bind].
      destruct (nth_error row m) as [d|] eqn:Ed.
      2:{ apply nth_error_None in Ed. lia. }
      cbn [bind]. eexists. split; [reflexivity |].
      split; [| split].
      * unfold append_similar. rewrite map_id_update_nth; auto.
      * intros k' Hk'. unfold append_similar. rewrite nth_error_update_nth.
        destruct (Nat.eqb_spec k' k); [contradiction | now apply Hother].
      * unfold append_similar. rewrite nth_error_update_nth, Nat.eqb_refl, Hck.
        cbn [option_map]. eexists. split; [reflexivity |].
        unfold others_by_id. cbn [similar set_similar].
        rewrite map_app. cbn [map fst].
        assert (Hfresh : ~ In m (map fst (similar ck))).
        { intros H. apply Hin in H. lia. }
        split.
        -- apply (Permutation_NoDup (Permutation_cons_append _ m)).
           now constructor.
        -- intros i. rewrite in_app_iff, Hin. cbn [In]. split.
           ++ intros [[Hi Hex] | [<- | []]]; [split; [lia | exact Hex] |].
              split; [lia |]. now exists (id_ c2).
           ++ intros [Hi Hex]. destruct (Nat.eq_dec i m) as [-> |].
              ** right. now left.
              ** left. split; [lia | exact Hex].
  - destruct HP as [Hs [Hother [ck [Hck Hgood]]]].
    exists s, ck. cbn [Nat.add] in Hgood. auto.
Qed.

(** Whichever compounds are processed, [generate_some_similar_sigs] leaves
    the ids and every compound it was not asked to process as they were, and
    gives each processed compound a list, marked as computed (and as sorted
    when [sort] is set), that holds exactly once each compound of the
    collection whose id differs from its own.  So a processed compound never
    refers to itself, nor to a compound sharing its id. *)
Theorem generate_some_excludes_own_id (cs : list Compound)
    (cmpds : list cref) (sort : bool) (distances : list (list float)) :
  Forall (fun k => (k < length cs)%nat) cmpds ->
  (forall j, (j < length cmpds)%nat ->
             exists row, nth_error distances j = Some row /\
                         (length cs <= length row)%nat) ->
  exists cs',
    generate_some_similar_sigs cs cmpds sort distances = Ok cs' /\
    map id_ cs' = map id_ cs /\
    (forall k, ~ In k cmpds -> nth_error cs' k = nth_error cs k) /\
    (forall k c, In k cmpds -> nth_error cs' k = Some c ->
       similar_computed c = true /\
       (sort = true -> similar_sorted c = true) /\
       NoDup (map fst (similar c)) /\
       (forall i, In i (map fst (similar c)) <->
                  exists c2, nth_error cs' i = Some c2 /\ id_ c2 <> id_ c)).
Proof.
  intros Hrefs Hrows. unfold generate_some_similar_sigs.
  set (ids := map id_ cs).
  assert (Hn : length ids = length cs) by (unfold ids; apply length_map).
  rewrite (mapM_total _ (fun k => nth k ids 0)).
  2:{ intros k Hk. rewrite Forall_forall in Hrefs. specialize (Hrefs k Hk).
      unfold getitem. destruct (nth_error cs k) as [c|] eqn:Ec.
      - cbn [bind]. f_equal. symmetry. apply nth_error_nth.
        now apply (nth_error_ids cs).
      - apply nth_error_None in Ec. lia. }
  cbn [bind].
  pose (good := fun c : Compound =>
    similar_computed c = true /\ (sort = true -> similar_sorted c = true) /\
    others_by_id ids (length ids) (id_ c) c).
  destruct (for_each_seq_total
    (fun j s => map id_ s = ids /\
                (forall k, ~ In k cmpds -> nth_error s k = nth_error cs k) /\
                (forall j0 k c, (j0 < j)%nat -> nth_error cmpds j0 = Some k ->
                                nth_error s k = Some c -> good c))
    (some_compound cmpds (map (fun k => nth k ids 0) cmpds) sort distances
       (length cs))
    (length cmpds) 0 cs) as [cs' [Hrun [Hids [Hrest Hgood]]]].
  - split; [reflexivity |]. split; [reflexivity |]. intros j0 k c Hj0. lia.
  - intros j s Hj [Hs [Hrest Hgood]].
    unfold some_compound, getitem. rewrite nth_error_map. unfold cref in *.
    destruct (nth_error cmpds j) as [k|] eqn:Ek.
    2:{ apply nth_error_None in Ek. lia. }
    cbn [option_map bind].
    assert (Hk : (k < length cs)%nat).
    { rewrite Forall_forall in Hrefs. apply Hrefs.
      now apply nth_error_In with j. }
    destruct (nth_error s k) as [ck0|] eqn:Eck0.
    2:{ apply nth_error_None in Eck0.
        rewrite <- (length_map id_ s), Hs, Hn in Eck0. lia. }
    assert (Hq : nth k ids 0 = id_ ck0).
    { apply nth_error_nth. now apply (nth_error_ids s). }
    destruct (Hrows j ltac:(lia)) as [row [Hrow Hlen]].
    destruct (some_step_loop ids k (nth k ids 0) distances j row
                (update_nth k (set_similar []) s) (set_similar [] ck0))
      as [s2 [ck [Hloop [Hs2 [Hother [Hck Hlist]]]]]].
    + rewrite map_id_update_nth; auto.
    + now rewrite nth_error_update_nth, Nat.eqb_refl, Eck0.
    + reflexivity.
    + exact Hrow.
    + lia.
    + rewrite <- Hn, Hloop. cbn [bind].
      set (f := if sort then sort_and_mark else set_similar_computed true).
      exists (update_nth k f s2).
      split; [unfold f; destruct sort; reflexivity |].
      assert (Hidk : id_ ck = id_ ck0).
      { pose proof (nth_error_ids _ _ _ _ Hs2 Hck) as H1.
        pose proof (nth_error_ids _ _ _ _ Hs Eck0) as H2. congruence. }
      assert (Hf : forall c, id_ (f c) = id_ c)
        by (intros c; unfold f; destruct sort; reflexivity).
      split; [rewrite map_id_update_nth; auto |]. split.
      * intros k' Hk'. rewrite nth_error_update_nth.
        assert (k' <> k) by (intros ->; apply Hk'; now apply nth_error_In with j).
        destruct (Nat.eqb_spec k' k); [contradiction |].
        rewrite Hother by assumption. rewrite nth_error_update_nth.
        destruct (Nat.eqb_spec k' k); [contradiction |]. now apply Hrest.
      * intros j0 k0 c Hj0 Hk0 Hc. rewrite nth_error_update_nth in Hc.
        destruct (Nat.eqb_spec k0 k) as [-> | Hne].
        -- rewrite Hck in Hc. cbn [option_map] in Hc. injection Hc as <-.
           rewrite Hq, <- Hidk in Hlist. destruct Hlist as [Hnd Hin].
           unfold good, others_by_id, f. destruct sort.
           ++ split; [reflexivity |]. split; [reflexivity |].
              cbn [similar sort_and_mark set_similar_sorted
                   set_similar_computed set_similar id_].
              pose proof (sorted_perm sort_key (similar ck)) as Hp.
              split.
              ** apply (Permutation_NoDup
                          (Permutation_sym (Permutation_map fst Hp)) Hnd).
              ** intros i. rewrite <- Hin. split; intros H.
                 --- apply (Permutation_in _ (Permutation_map fst Hp) H).
                 --- apply (Permutation_in _
                              (Permutation_sym (Permutation_map fst Hp)) H).
           ++ split; [reflexivity |]. split; [discriminate |].
              split; [exact Hnd | exact Hin].
        -- rewrite Hother in Hc by assumption.
           rewrite nth_error_update_nth in Hc.
           destruct (Nat.eqb_spec k0 k); [contradiction |].
           apply (Hgood j0 k0 c); auto.
           destruct (Nat.eq_dec j0 j) as [-> |]; [congruence | lia].
  - exists cs'. split; [exact Hrun |]. split; [exact Hids |].
    split; [exact Hrest |].
    intros k c Hk Hc. apply In_nth_error in Hk as [j0 Hj0].
    assert (Hlt : (j0 < 0 + length cmpds)%nat).
    { cbn [Nat.add]. apply nth_error_Some. congruence. }
    destruct (Hgood j0 k c Hlt Hj0 Hc) as [H1 [H2 [Hnd Hin]]].
    split; [exact H1 |]. split; [exact H2 |]. split; [exact Hnd |].
    intros i. rewrite Hin. split.
    + intros [_ [z [Hz Hne]]].
      destruct (nth_error_ids_inv _ _ _ _ Hids Hz) as [c2 [Hc2 <-]].
      now exists c2.
    + intros [c2 [Hc2 Hne]]. split.
      * rewrite <- Hids, length_map. apply nth_error_Some. congruence.
      * exists (id_ c2). split; [now apply (nth_error_ids cs') | exact Hne].
Qed.

(** Processing the first and the third of three compounds of which the first
    two share an id: the first compound's list holds the third compound
    only, the third compound's list holds the other two. *)
Lemma generate_some_excludes_own_id_witness :
  exists cs',
    generate_some_similar_sigs twin_compounds [0%nat; 2%nat] true
      [[zero; one; f3]; [f3; f2; zero]] = Ok cs' /\
    map (fun c => map fst (similar c)) cs' = [[2%nat]; []; [1%nat; 0%nat]] /\
    (forall k c, In k [0%nat; 2%nat] -> nth_error cs' k = Some c ->
       forall i, In i (map fst (similar c)) <->
                 exists c2, nth_error cs' i = Some c2 /\ id_ c2 <> id_ c).
Proof.
  destruct (generate_some_excludes_own_id twin_compounds [0%nat; 2%nat] true
              [[zero; one; f3]; [f3; f2; zero]]) as [cs' [Hrun [_ [_ H]]]].
  - repeat constructor.
  - intros [|[|j]] Hj; cbn in Hj; [| | lia]; eexists; (split; [reflexivity |]);
      cbn; lia.
  - exists cs'. split; [exact Hrun |]. split.
    + vm_compute in Hrun. injection Hrun as <-. reflexivity.
    + intros k c Hk Hc. now apply (H k c Hk Hc).
Defined.

(** ** The all-pairs lists as a whole *)

Lemma condensed_index_count (nc i j n : nat) :
  (i < j < nc)%nat ->
  2 * Z.of_nat n
  = Z.of_nat i * (2 * Z.of_nat nc - Z.of_nat i - 1)
    + 2 * Z.max 0 (Z.of_nat j - Z.of_nat i - 1) ->
  n = condensed_index nc i j.
Proof.
  intros Hij Hn. unfold condensed_index.
  assert (Hx : (i * (2 * nc - i - 1) = (n - (j - i - 1)) * 2)%nat) by nia.
  rewrite Hx, Nat.div_mul by discriminate. nia.
Qed.

Lemma similar_append (e : neighbor) (c : Compound) :
  similar (set_similar (similar c ++ [e]) c) = similar c ++ [e].
Proof. reflexivity. Qed.

Lemma NoDup_snoc (l : list nat) (x : nat) :
  NoDup l -> ~ In x l -> NoDup (l ++ [x]).
Proof.
  intros Hl Hx. apply (Permutation_NoDup (Permutation_cons_append l x)).
  now constructor.
Qed.

Lemma pairs_listed_skip (dm : list float) (nc i j i' j' a : nat)
    (c : Compound) :
  (forall b, pair_seen nc i j a b <-> pair_seen nc i' j' a b) ->
  pairs_listed dm nc i j a c -> pairs_listed dm nc i' j' a c.
Proof.
  intros Hsame [Hnd [Hin Hd]]. split; [exact Hnd |]. split; [| exact Hd].
  intros b. now rewrite Hin.
Qed.

Lemma pairs_listed_add (dm : list float) (nc i j a b : nat) (r : float)
    (c : Compound) :
  a <> b -> ~ pair_seen nc i j a b ->
  (forall x, pair_seen nc i (S j) a x <-> pair_seen nc i j a x \/ x = b) ->
  nth_error dm (condensed_index nc (Nat.min a b) (Nat.max a b)) = Some r ->
  pairs_listed dm nc i j a c ->
  pairs_listed dm nc i (S j) a (set_similar (similar c ++ [(b, r)]) c).
Proof.
  intros Hab Hnew Hnext Hr [Hnd [Hin Hd]]. unfold pairs_listed.
  rewrite similar_append, map_app. cbn [map fst]. split; [| split].
  - apply NoDup_snoc; [exact Hnd |]. now rewrite Hin.
  - intros x. rewrite in_app_iff, Hin, Hnext. cbn [In]. intuition.
  - intros e He. apply in_app_iff in He as [He | [<- | []]]; [now apply Hd |].
    exact Hr.
Qed.

Lemma all_pairs_step (dm : list float) (nc i j : nat)
    (st : list Compound * nat) :
  (i <= j < nc)%nat ->
  (nc * (nc - 1) <= 2 * length dm)%nat ->
  all_pairs_invariant dm nc i j st ->
  exists st', pair_step dm i j st = Ok st' /\
              all_pairs_invariant dm nc i (S j) st'.
Proof.
  intros Hij Hdm. destruct st as [cs n]. unfold all_pairs_invariant.
  cbn [fst snd]. intros [Hlen [Hn Hall]]. unfold pair_step.
  destruct (Nat.eqb_spec i j) as [-> | Hne].
  - eexists. split; [reflexivity |]. cbn [fst snd].
    split; [exact Hlen |]. split; [lia |]. intros a c Hc.
    apply (pairs_listed_skip dm nc j j j (S j)); [| now apply Hall].
    intros b. unfold pair_seen. lia.
  - assert (Hcount : n = condensed_index nc i j)
      by (apply condensed_index_count; [lia | exact Hn]).
    unfold getitem. destruct (nth_error dm n) as [r|] eqn:Er.
    2:{ apply nth_error_None in Er.
        assert (2 * Z.of_nat n + 2 <= Z.of_nat nc * (Z.of_nat nc - 1)) by nia.
        nia. }
    cbn [bind]. eexists. split; [reflexivity |]. cbn [fst snd].
    split; [unfold append_similar; now rewrite !length_update_nth |].
    split; [lia |].
    intros a c Hc. unfold append_similar in Hc.
    rewrite !nth_error_update_nth in Hc.
    destruct (Nat.eqb_spec a j) as [-> | Haj].
    + destruct (Nat.eqb_spec j i) as [-> | _]; [lia |].
      destruct (nth_error cs j) as [c0|] eqn:Ec0; [| discriminate Hc].
      cbn [option_map] in Hc. injection Hc as <-.
      apply pairs_listed_add; [lia | unfold pair_seen; lia | | | now apply Hall].
      * intros x. unfold pair_seen. lia.
      * rewrite Nat.min_r, Nat.max_l by lia. now rewrite <- Hcount.
    + destruct (Nat.eqb_spec a i) as [-> | Hai].
      * destruct (nth_error cs i) as [c0|] eqn:Ec0; [| discriminate Hc].
        cbn [option_map] in Hc. injection Hc as <-.
        apply pairs_listed_add;
          [lia | unfold pair_seen; lia | | | now apply Hall].
        -- intros x. unfold pair_seen. lia.
        -- rewrite Nat.min_l, Nat.max_r by lia. now rewrite <- Hcount.
      * apply (pairs_listed_skip dm nc i j i (S j)); [| now apply Hall].
        intros b. unfold pair_seen. lia.
Qed.

Lemma add_pairs_listed (dm : list float) (cs : list Compound) :
  Forall (fun c => similar c = []) cs ->
  (length cs * (length cs - 1) <= 2 * length dm)%nat ->
  exists st, add_pairs dm cs = Ok st /\
             all_pairs_invariant dm (length cs) (length cs) (length cs) st.
Proof.
  intros Hempty Hdm. unfold add_pairs. set (nc := length cs) in *.
  destruct (for_each_seq_total
              (fun i st => all_pairs_invariant dm nc i i st)
              (fun i => for_each (seq i (nc - i)) (pair_step dm i))
              nc 0 (cs, O)) as [st [Hrun Hend]].
  - unfold all_pairs_invariant. cbn [fst snd].
    split; [reflexivity |]. split; [lia |]. intros a c Hc.
    rewrite Forall_forall in Hempty.
    specialize (Hempty c (nth_error_In _ _ Hc)).
    unfold pairs_listed. rewrite Hempty. cbn [map In].
    split; [constructor |]. split; [| tauto].
    intros b. unfold pair_seen. lia.
  - intros i s Hi Hs.
    destruct (for_each_seq_total
                (fun j st => all_pairs_invariant dm nc i j st)
                (pair_step dm i) (nc - i) i s Hs) as [s' [Hrun Hend]].
    + intros j s0 Hj Hs0. apply all_pairs_step; auto. lia.
    + exists s'. split; [exact Hrun |].
      replace (i + (nc - i))%nat with nc in Hend by lia.
      destruct Hend as [H1 [H2 H3]]. split; [exact H1 |]. split; [nia |].
      intros a c Hc.
      apply (pairs_listed_skip dm nc i nc (S i) (S i)); [| now apply H3].
      intros b. unfold pair_seen. lia.
  - exists st. split; [exact Hrun | exact Hend].
Qed.

Lemma others_length (l : list nat) (nc a : nat) :
  (a < nc)%nat -> NoDup l ->
  (forall b, In b l <-> b <> a /\ (b < nc)%nat) ->
  length l = (nc - 1)%nat.
Proof.
  intros Ha Hnd Hin.
  pose proof (seq_NoDup (a + S (nc - S a)) 0) as Hseq.
  rewrite seq_app in Hseq. cbn [Nat.add seq] in Hseq.
  assert (Hp : Permutation l (seq 0 a ++ seq (S a) (nc - S a))).
  { apply NoDup_Permutation; [exact Hnd | now apply NoDup_remove_1 in Hseq |].
    intros b. rewrite Hin, in_app_iff, !in_seq. lia. }
  rewrite (Permutation_length Hp), length_app, !length_seq. lia.
Qed.

(** The all-pairs computation on compounds with empty lists, given a
    condensed distance matrix with an entry for every pair, returns normally
    and leaves every compound with a list of [nc - 1] entries, one for each
    other compound, where the entry for the compound at position [b] carries
    the distance found at the condensed position of the pair; so the two
    compounds of a pair list each other at the same distance. *)
Theorem all_pairs_lists (dm : list float) (cs : list Compound) :
  Forall (fun c => similar c = []) cs ->
  (length cs * (length cs - 1) <= 2 * length dm)%nat ->
  exists cs',
    compute_distances dm cs = Ok cs' /\ length cs' = length cs /\
    (forall a ca, nth_error cs' a = Some ca ->
       length (similar ca) = (length cs - 1)%nat /\
       NoDup (map fst (similar ca)) /\
       forall b r, In (b, r) (similar ca) <->
         b <> a /\ (b < length cs)%nat /\
         nth_error dm (condensed_index (length cs) (Nat.min a b) (Nat.max a b))
         = Some r) /\
    (forall a b ca cb r,
       nth_error cs' a = Some ca -> nth_error cs' b = Some cb ->
       In (b, r) (similar ca) -> In (a, r) (similar cb)).
Proof.
  intros Hempty Hdm. unfold compute_distances.
  destruct (add_pairs_listed dm cs Hempty Hdm) as [[cs1 n] [-> Hinv]].
  cbn [bind fst]. destruct Hinv as [Hlen [_ Hall]]. cbn [fst snd] in Hlen, Hall.
  set (nc := length cs) in *.
  eexists. split; [reflexivity |]. split; [now rewrite length_map |].
  assert (Hmain : forall a ca, nth_error (map sort_and_mark cs1) a = Some ca ->
            (a < nc)%nat /\
            NoDup (map fst (similar ca)) /\
            (forall b, In b (map fst (similar ca)) <-> b <> a /\ (b < nc)%nat) /\
            forall e, In e (similar ca) ->
              nth_error dm
                (condensed_index nc (Nat.min a (fst e)) (Nat.max a (fst e)))
              = Some (snd e)).
  { intros a ca Hca. rewrite nth_error_map in Hca.
    destruct (nth_error cs1 a) as [c|] eqn:Ec; [| discriminate Hca].
    cbn [option_map] in Hca. injection Hca as <-.
    assert (Ha : (a < nc)%nat)
      by (rewrite <- Hlen; apply nth_error_Some; congruence).
    destruct (Hall a c Ec) as [Hnd [Hin Hd]].
    cbn [similar sort_and_mark set_similar_sorted set_similar_computed
         set_similar].
    pose proof (sorted_perm sort_key (similar c)) as Hp.
    split; [exact Ha |]. split; [| split].
    - apply (Permutation_NoDup (Permutation_sym (Permutation_map fst Hp)) Hnd).
    - intros b. transitivity (In b (map fst (similar c))).
      + split; intros H.
        * apply (Permutation_in _ (Permutation_map fst Hp) H).
        * apply (Permutation_in _ (Permutation_sym (Permutation_map fst Hp)) H).
      + rewrite Hin. unfold pair_seen. lia.
    - intros e He. apply Hd. apply (Permutation_in _ Hp He). }
  assert (Hentry : forall a ca b r,
            nth_error (map sort_and_mark cs1) a = Some ca ->
            (In (b, r) (similar ca) <->
             b <> a /\ (b < nc)%nat /\
             nth_error dm (condensed_index nc (Nat.min a b) (Nat.max a b))
             = Some r)).
  { intros a ca b r Hca. destruct (Hmain a ca Hca) as [Ha [Hnd [Hin Hd]]].
    split.
    - intros He. assert (Hb : In b (map fst (similar ca)))
        by (apply (in_map fst _ _ He)).
      apply Hin in Hb as [Hb1 Hb2]. split; [exact Hb1 |]. split; [exact Hb2 |].
      exact (Hd _ He).
    - intros [Hb1 [Hb2 Hr]].
      assert (Hb : In b (map fst (similar ca))) by (apply Hin; auto).
      apply in_map_iff in Hb as [[b' r'] [Hfst He]]. cbn [fst] in Hfst.
      subst b'. pose proof (Hd _ He) as Hr'. cbn [fst snd] in Hr'.
      rewrite Hr in Hr'. injection Hr' as <-. exact He. }
  split.
  - intros a ca Hca. destruct (Hmain a ca Hca) as [Ha [Hnd [Hin Hd]]].
    split; [| split; [exact Hnd | intros b r; now apply Hentry]].
    transitivity (length (map fst (similar ca)));
      [symmetry; apply length_map |].
    now apply (others_length _ nc a).
  - intros a b ca cb r Hca Hcb He.
    apply (Hentry a ca b r Hca) in He as [Hne [Hb Hr]].
    destruct (Hmain a ca Hca) as [Ha _].
    apply (Hentry b cb a r Hcb). split; [auto |]. split; [exact Ha |].
    now rewrite Nat.min_comm, Nat.max_comm.
Qed.

(** Four compounds and the distances 6, 5, 4, 3, 2, 1 of the pairs (0,1),
    (0,2), (0,3), (1,2), (1,3), (2,3): after sorting, the third compound
    lists the fourth at 1, the second at 3 and the first at 5. *)
Lemma all_pairs_lists_witness :
  exists cs',
    compute_distances six_distances four_compounds = Ok cs' /\
    map similar cs'
    = [[(3%nat, of_pos 4); (2%nat, of_pos 5); (1%nat, of_pos 6)];
       [(3%nat, of_pos 2); (2%nat, of_pos 3); (0%nat, of_pos 6)];
       [(3%nat, of_pos 1); (1%nat, of_pos 3); (0%nat, of_pos 5)];
       [(2%nat, of_pos 1); (1%nat, of_pos 2); (0%nat, of_pos 4)]] /\
    forall a b ca cb r,
      nth_error cs' a = Some ca -> nth_error cs' b = Some cb ->
      In (b, r) (similar ca) -> In (a, r) (similar cb).
Proof.
  destruct (all_pairs_lists six_distances four_compounds)
    as [cs' [Hrun [_ [_ Hsym]]]].
  - repeat constructor.
  - cbn. lia.
  - exists cs'. split; [exact Hrun |]. split; [| exact Hsym].
    vm_compute in Hrun. injection Hrun as <-. reflexivity.
Defined.

(** ** Fingerprint similarity *)

Lemma py_in_spec (x : Z) (l : list Z) : py_in x l = true <-> In x l.
Proof.
  unfold py_in. rewrite existsb_exists. split.
  - intros [y [Hy E]]. apply Z.eqb_eq in E. now subst y.
  - intros H. exists x. split; [exact H | apply Z.eqb_refl].
Qed.

Lemma common_length (l1 l2 : list Z) :
  NoDup l1 -> NoDup l2 ->
  length (filter (fun x => py_in x l2) l1)
  = length (filter (fun x => py_in x l1) l2).
Proof.
  intros H1 H2. apply Permutation_length.
  apply NoDup_Permutation; [now apply NoDup_filter | now apply NoDup_filter |].
  intros x. rewrite !filter_In, !py_in_spec. tauto.
Qed.

(** [tanimoto_dense] divides by zero exactly when both position lists are
    empty, and is symmetric on lists without repeated positions.  A repeated
    position is counted each time it occurs in the first list only: for
    [1, 1] against [1] the result is 2.0, the other way round 0.5. *)
Theorem tanimoto_dense_facts (list1 list2 : list Z) :
  (tanimoto_dense list1 list2 = Raise ZeroDivisionError
   <-> list1 = [] /\ list2 = []) /\
  (NoDup list1 -> NoDup list2 ->
   tanimoto_dense list1 list2 = tanimoto_dense list2 list1) /\
  tanimoto_dense [1; 1] [1] = Ok f2 /\
  tanimoto_dense [1] [1; 1] = Ok half.
Proof.
  split; [| split; [| split; reflexivity]].
  - unfold tanimoto_dense, truediv_int, len.
    pose proof (filter_length_le (fun x => py_in x list2) list1) as Hc.
    split.
    + destruct (Z.eqb_spec
        (Z.of_nat (length list1) + Z.of_nat (length list2)
         - Z.of_nat (length (filter (fun x => py_in x list2) list1))) 0)
        as [E | _]; [| discriminate].
      intros _. assert (H2 : list2 = []).
      { destruct list2 as [|z l]; [reflexivity | exfalso].
        cbn [length] in E. lia. }
      split; [| exact H2]. subst list2.
      assert (Hf : filter (fun x => py_in x []) list1 = [])
        by (clear; induction list1; auto).
      rewrite Hf in E. cbn [length] in E.
      destruct list1 as [|z l]; [reflexivity | cbn [length] in E; lia].
    + intros [-> ->]. reflexivity.
  - intros H1 H2. unfold tanimoto_dense, len.
    rewrite (common_length list1 list2 H1 H2).
    now rewrite (Z.add_comm (Z.of_nat (length list1))).
Qed.

Lemma tanimoto_dense_facts_witness :
  tanimoto_dense [3; 5; 8] [5; 8; 13; 21] = tanimoto_dense [5; 8; 13; 21] [3; 5; 8]
  /\ tanimoto_dense [3; 5; 8] [5; 8; 13; 21]
     = Ok (SFdiv 53 1024 f2 (of_int 5)).
Proof.
  split; [| reflexivity].
  apply (proj1 (proj2 (tanimoto_dense_facts [3; 5; 8] [5; 8; 13; 21]))).
  - repeat constructor; cbn; intuition discriminate.
  - repeat constructor; cbn; intuition discriminate.
Defined.

Lemma str_getitem_in (s : string) (i : nat) :
  (i < String.length s)%nat -> exists c, str_getitem s i = Ok c.
Proof.
  unfold str_getitem. revert i. induction s as [|a s IH]; intros i Hi.
  - cbn in Hi. lia.
  - destruct i as [|i]; cbn [String.get]; [now exists a |].
    apply IH. cbn in Hi. lia.
Qed.

Lemma str_getitem_out (s : string) (i : nat) :
  (String.length s <= i)%nat -> str_getitem s i = Raise IndexError.
Proof.
  unfold str_getitem. revert i. induction s as [|a s IH]; intros i Hi.
  - now destruct i.
  - destruct i as [|i]; cbn [String.get]; [cbn in Hi; lia |].
    apply IH. cbn in Hi. lia.
Qed.

Lemma for_each_raises {St : Type} (body : nat -> St -> result St)
    (e : exn) (m len a : nat) (st : St) :
  (a <= m < a + len)%nat ->
  (forall i s, (a <= i < m)%nat -> exists s', body i s = Ok s') ->
  (forall s, body m s = Raise e) ->
  for_each (seq a len) body st = Raise e.
Proof.
  revert a st. induction len as [|len IH]; intros a st Hm Hok Hbad; [lia |].
  cbn [seq for_each]. destruct (Nat.eq_dec a m) as [-> | Hne].
  - now rewrite Hbad.
  - destruct (Hok a st ltac:(lia)) as [s' ->]. cbn [bind].
    apply IH; [lia | | exact Hbad]. intros i s Hi. apply Hok. lia.
Qed.

Lemma sparse_step_total (str1 str2 : string) (i : nat)
    (st : float * float * float) :
  (i < String.length str1)%nat -> (i < String.length str2)%nat ->
  exists st', sparse_step str1 str2 i st = Ok st'.
Proof.
  intros H1 H2. destruct st as [[n_c n_a] n_b]. unfold sparse_step.
  destruct (str_getitem_in str1 i H1) as [a ->].
  destruct (str_getitem_in str2 i H2) as [b ->]. cbn [bind].
  destruct (Ascii.eqb a "1"); cbn [bind]; eexists; reflexivity.
Qed.

Lemma sparse_step_short (str1 str2 : string) (i : nat)
    (st : float * float * float) :
  (i < String.length str1)%nat -> (String.length str2 <= i)%nat ->
  sparse_step str1 str2 i st = Raise IndexError.
Proof.
  intros H1 H2. destruct st as [[n_c n_a] n_b]. unfold sparse_step.
  destruct (str_getitem_in str1 i H1) as [a ->].
  rewrite (str_getitem_out str2 i H2). cbn [bind].
  destruct (Ascii.eqb a "1"); reflexivity.
Qed.

Lemma sparse_step_no_ones (str1 str2 : string) (i n : nat) :
  (i < n)%nat -> (n <= String.length str1)%nat ->
  (n <= String.length str2)%nat ->
  no_ones n str1 -> no_ones n str2 ->
  sparse_step str1 str2 i (zero, zero, zero) = Ok (zero, zero, zero).
Proof.
  intros Hi H1 H2 Hn1 Hn2. unfold sparse_step, str_getitem.
  destruct (String.get i str1) as [a|] eqn:Ea.
  2:{ pose proof (str_getitem_in str1 i ltac:(lia)) as [c Hc].
      unfold str_getitem in Hc. rewrite Ea in Hc. discriminate Hc. }
  destruct (String.get i str2) as [b|] eqn:Eb.
  2:{ pose proof (str_getitem_in str2 i ltac:(lia)) as [c Hc].
      unfold str_getitem in Hc. rewrite Eb in Hc. discriminate Hc. }
  cbn [bind]. rewrite (Hn1 i a Hi Ea). cbn [bind].
  now rewrite (Hn2 i b Hi Eb).
Qed.

(** [tanimoto_sparse] raises [IndexError] exactly when the second string is
    shorter than the first (characters of the second string beyond the
    length of the first are never read), and returns 0.0, without dividing,
    when no ['1'] occurs in the part of the strings it reads. *)
Theorem tanimoto_sparse_facts (str1 str2 : string) :
  (tanimoto_sparse str1 str2 = Raise IndexError
   <-> (String.length str2 < String.length str1)%nat) /\
  ((String.length str1 <= String.length str2)%nat ->
   no_ones (String.length str1) str1 -> no_ones (String.length str1) str2 ->
   tanimoto_sparse str1 str2 = Ok zero).
Proof.
  split.
  - split.
    + intros Hraise.
      destruct (Nat.lt_ge_cases (String.length str2) (String.length str1))
        as [Hlt | Hge]; [exact Hlt | exfalso].
      unfold tanimoto_sparse in Hraise.
      destruct (for_each_seq_total (fun _ _ => True)
                  (sparse_step str1 str2) (String.length str1) 0
                  (zero, zero, zero) I) as [st [Hrun _]].
      { intros i s Hi _. destruct (sparse_step_total str1 str2 i s) as [s' Hs'];
          [lia | lia |]. now exists s'. }
      rewrite Hrun in Hraise. cbn [bind] in Hraise.
      destruct st as [[n_c n_a] n_b]. unfold truediv in Hraise.
      destruct (SFeqb (SFadd 53 1024 (SFadd 53 1024 n_c n_a) n_b) zero);
        [discriminate Hraise |].
      destruct (SFeqb (SFsub 53 1024 (SFadd 53 1024 n_a n_b) n_c) zero);
        discriminate Hraise.
    + intros Hlt. unfold tanimoto_sparse.
      rewrite (for_each_raises (sparse_step str1 str2) IndexError
                 (String.length str2)); [reflexivity | lia | |].
      * intros i s Hi. apply sparse_step_total; lia.
      * intros s. apply sparse_step_short; lia.
  - intros Hlen Hn1 Hn2. unfold tanimoto_sparse.
    destruct (for_each_seq_total (fun _ st => st = (zero, zero, zero))
                (sparse_step str1 str2) (String.length str1) 0
                (zero, zero, zero) eq_refl) as [st [Hrun ->]].
    { intros i s Hi ->. exists (zero, zero, zero). split; [| reflexivity].
      apply (sparse_step_no_ones str1 str2 i (String.length str1)); auto; lia. }
    rewrite Hrun. reflexivity.
Qed.

Lemma tanimoto_sparse_facts_witness :
  tanimoto_sparse "0000" "00001" = Ok zero /\
  tanimoto_sparse "0101" "010" = Raise IndexError /\
  tanimoto_sparse "0110" "0100" = Ok half.
Proof.
  split; [| split; [| reflexivity]].
  - apply (proj2 (tanimoto_sparse_facts "0000" "00001")); [cbn; lia | |].
    + intros [|[|[|[|i]]]] c Hi Hc; cbn in Hc, Hi; try lia;
        injection Hc as <-; reflexivity.
    + intros [|[|[|[|i]]]] c Hi Hc; cbn in Hc, Hi; try lia;
        injection Hc as <-; reflexivity.
  - apply (proj1 (tanimoto_sparse_facts "0101" "010")). cbn. lia.
Defined.

(** ** Lookup by name *)

Lemma id_d_no_match (nm : string) (l : list Compound) (d : option Z) :
  Forall (fun c => name c <> nm) l ->
  fold_left (fun d c => if String.eqb (name c) nm then Some (id_ c) else d) l d
  = d.
Proof.
  revert d. induction l as [|c l IH]; intros d H; [reflexivity |].
  inversion H as [|? ? Hc Hl]; subst. cbn [fold_left].
  destruct (String.eqb_spec (name c) nm) as [E | _]; [contradiction |].
  now apply IH.
Qed.

Lemma find_unique_id (cs : list Compound) (c : Compound) :
  NoDup (map id_ cs) -> In c cs ->
  find (fun x => id_ x =? id_ c) cs = Some c.
Proof.
  induction cs as [|x cs IH]; intros Hnd Hin; [destruct Hin |].
  cbn [map] in Hnd. inversion Hnd as [|? ? Hx Hcs]; subst. cbn [find].
  destruct Hin as [-> | Hin]; [now rewrite Z.eqb_refl |].
  destruct (Z.eqb_spec (id_ x) (id_ c)) as [E | _]; [| now apply IH].
  exfalso. apply Hx. rewrite E. now apply in_map.
Qed.

(** Lookup by name, in a collection whose ids are all different: the name is
    stripped, and of the compounds that carry it the one listed last is
    returned. *)
Theorem get_compound_by_name (self : CANDO) (nm : string)
    (before after : list Compound) (c : Compound) :
  NoDup (map id_ (compounds self)) ->
  compounds self = before ++ c :: after ->
  name c = strip nm ->
  Forall (fun c' => name c' <> strip nm) after ->
  get_compound self None nm = Ok (Some c).
Proof.
  intros Hnd Hsplit Hname Hafter.
  assert (Hid : id_d self (strip nm) = Some (id_ c)).
  { unfold id_d. rewrite Hsplit, fold_left_app. cbn [fold_left].
    rewrite Hname, String.eqb_refl. now apply id_d_no_match. }
  unfold get_compound. rewrite Hid. unfold get_compound_id. f_equal.
  apply find_unique_id; [exact Hnd |].
  rewrite Hsplit. apply in_or_app. right. now left.
Qed.

Lemma get_compound_by_name_witness :
  get_compound (sample_cando aspirin_twice) None " aspirin "
  = Ok (Some (named_compound "aspirin" 12)).
Proof.
  apply (get_compound_by_name (sample_cando aspirin_twice) " aspirin "
           [named_compound "aspirin" 10; named_compound "caffeine" 11]
           [named_compound "niacin" 13] (named_compound "aspirin" 12)).
  - repeat constructor; cbn; intuition discriminate.
  - reflexivity.
  - reflexivity.
  - repeat constructor. discriminate.
Defined.

(** ** Printing the nearest compounds *)

Lemma find_q_range (i : Z) (cs : list Compound) (ci q : nat) :
  find_q i cs ci q = q \/ (ci <= find_q i cs ci q < ci + length cs)%nat.
Proof.
  revert ci q. induction cs as [|c cs IH]; intros ci q; [now left |].
  cbn [find_q length]. destruct (i =? id_ c).
  - right. destruct (IH (S ci) ci) as [-> | H]; lia.
  - destruct (IH (S ci) q) as [-> | H]; [now left | right; lia].
Qed.

Lemma similar_loop (cs : list Compound) (q : nat) (distances : list float) :
  (length cs <= length distances)%nat ->
  exists sim,
    for_each (seq 0 (length cs)) (similar_step q cs distances) [] = Ok sim /\
    map fst sim = filter (fun i => negb (Nat.eqb i q)) (seq 0 (length cs)) /\
    forall e, In e sim -> nth_error distances (fst e) = Some (snd e).
Proof.
  intros Hd.
  destruct (for_each_seq_total
              (fun m sim =>
                 map fst sim = filter (fun i => negb (Nat.eqb i q)) (seq 0 m) /\
                 forall e : neighbor,
                   In e sim -> nth_error distances (fst e) = Some (snd e))
              (similar_step q cs distances) (length cs) 0 [])
    as [sim [Hrun Hend]].
  - split; [reflexivity | intros e []].
  - intros m s Hm [Hs Hdist]. unfold similar_step.
    destruct (getitem_in_range cs m ltac:(lia)) as [c ->]. cbn [bind].
    rewrite seq_S, filter_app. cbn [Nat.add filter].
    destruct (Nat.eqb_spec m q) as [-> | Hmq]; cbn [negb].
    + exists s. split; [reflexivity |]. rewrite app_nil_r. auto.
    + unfold getitem. destruct (nth_error distances m) as [d|] eqn:Ed.
      2:{ apply nth_error_None in Ed. lia. }
      cbn [bind]. eexists. split; [reflexivity |]. split.
      * rewrite map_app. cbn [map fst]. f_equal. exact Hs.
      * intros e He. apply in_app_or in He as [He | [<- | []]]; auto.
  - exists sim. split; [exact Hrun | exact Hend].
Qed.

Lemma print_rows_total {A : Type} (l : list A) (k : nat) :
  (k <= length l)%nat ->
  for_each (seq 0 k) (fun i _ => _ <- getitem l i ;; Ok tt) tt = Ok tt.
Proof.
  intros Hk.
  destruct (for_each_seq_total (fun _ _ => True)
              (fun i (_ : unit) => _ <- getitem l i ;; Ok tt) k 0 tt I)
    as [[] [Hrun _]]; [| exact Hrun].
  intros i [] Hi _. destruct (getitem_in_range l i ltac:(lia)) as [a ->].
  exists tt. split; [reflexivity | exact I].
Qed.

Lemma print_rows_short {A : Type} (l : list A) (k : nat) :
  (length l < k)%nat ->
  for_each (seq 0 k) (fun i _ => _ <- getitem l i ;; Ok tt) tt
  = Raise IndexError.
Proof.
  intros Hk. apply (for_each_raises _ IndexError (length l)); [lia | |].
  - intros i [] Hi. destruct (getitem_in_range l i ltac:(lia)) as [a ->].
    now exists tt.
  - intros []. unfold getitem.
    destruct (nth_error l (length l)) eqn:E; [| reflexivity].
    assert (nth_error l (length l) <> None) by congruence.
    apply nth_error_Some in H. lia.
Qed.

(** [similar_compounds] for a compound of the platform reads the rows
    [0 .. n] of the regenerated list, which has one entry per compound but
    one.  So it raises [IndexError] when the platform holds fewer than
    [n + 2] compounds, and otherwise returns the list: ascending by sort key,
    every entry carrying the distance found at its compound's position. *)
Theorem similar_compounds_rows (cs : list Compound) (cando_cmpd : Compound)
    (n : Z) (distances : list float) :
  (length cs <= length distances)%nat ->
  (Z.of_nat (length cs - 1) < n + 1 ->
   similar_compounds cs cando_cmpd n distances = Raise IndexError) /\
  (n + 1 <= Z.of_nat (length cs - 1) ->
   exists sim,
     similar_compounds cs cando_cmpd n distances = Ok sim /\
     length sim = (length cs - 1)%nat /\
     key_ascending sort_key sim /\
     forall e, In e sim -> nth_error distances (fst e) = Some (snd e)).
Proof.
  intros Hd. unfold similar_compounds, generate_similar_sigs.
  set (q := find_q (id_ cando_cmpd) cs 0 0).
  destruct (similar_loop cs q distances Hd) as [sim [-> [Hfst Hdist]]].
  cbn [bind similar sort_and_mark set_similar_sorted set_similar_computed
       set_similar].
  pose proof (sorted_perm sort_key sim) as Hp.
  assert (Hlen : length (sorted sort_key sim) = (length cs - 1)%nat).
  { rewrite (Permutation_length Hp).
    transitivity
      (length (filter (fun i => negb (Nat.eqb i q)) (seq 0 (length cs))));
      [rewrite <- Hfst; symmetry; apply length_map |].
    destruct (Nat.eq_dec (length cs) 0) as [E0 | Hne];
      [rewrite E0; reflexivity |].
    assert (Hq : (q < length cs)%nat).
    { pose proof (find_q_range (id_ cando_cmpd) cs 0 0) as H. fold q in H.
      lia. }
    apply (others_length _ (length cs) q Hq).
    - apply NoDup_filter, seq_NoDup.
    - intros b. rewrite filter_In, in_seq, negb_true_iff, Nat.eqb_neq. lia. }
  split.
  - intros Hn. rewrite print_rows_short; [reflexivity | lia].
  - intros Hn. rewrite print_rows_total by lia. cbn [bind].
    eexists. split; [reflexivity |]. split; [exact Hlen |]. split.
    + apply sorted_similar_ascending.
    + intros e He. apply Hdist. apply (Permutation_in _ Hp He).
Qed.

(** Three compounds: the default [n = 10] fails, [n = 1] prints the two
    other compounds. *)
Lemma similar_compounds_rows_witness :
  similar_compounds twin_compounds (blank_compound 7 [] false) 10
    [f3; f2; zero] = Raise IndexError /\
  similar_compounds twin_compounds (blank_compound 7 [] false) 1
    [f3; f2; zero] = Ok [(1%nat, f2); (0%nat, f3)].
Proof.
  split.
  - apply (proj1 (similar_compounds_rows twin_compounds
             (blank_compound 7 [] false) 10 [f3; f2; zero] (le_n 3))).
    cbn. lia.
  - destruct (proj2 (similar_compounds_rows twin_compounds
             (blank_compound 7 [] false) 1 [f3; f2; zero] (le_n 3)))
      as [sim [Hrun _]]; [cbn; lia |].
    rewrite Hrun. vm_compute in Hrun. symmetry. exact Hrun.
Defined.

(** ** Pathway signatures without a usable indication pathway *)

Lemma mapM_ext {A B : Type} (f g : A -> result B) (l : list A) :
  (forall a, f a = g a) -> mapM f l = mapM g l.
Proof.
  intros H. induction l as [|a l IH]; [reflexivity |].
  cbn [mapM]. now rewrite H, IH.
Qed.

Lemma pw_sig_all_loop_filter (self : CANDO) (c : Compound)
    (pws : list Pathway) (flat : list float) (nested : list (list float)) :
  pw_sig_all_loop self c pws flat nested
  = pw_sig_all_loop self c (filter has_proteins pws) flat nested.
Proof.
  revert flat nested. induction pws as [|pw pws IH]; intros flat nested;
    [reflexivity |].
  cbn [pw_sig_all_loop filter]. unfold has_proteins at 1.
  destruct (length (pw_proteins pw)) as [|n] eqn:En.
  - cbn [Nat.eqb Nat.ltb Nat.leb]. apply IH.
  - cbn [Nat.eqb Nat.ltb Nat.leb pw_sig_all_loop]. rewrite En.
    cbn [Nat.eqb].
    destruct (mapM (protein_score self c) (pw_proteins pw)) as [pw_sig|e];
      [| reflexivity].
    cbn [bind]. destruct (String.eqb (pathway_quantifier self) "proteins");
      apply IH.
Qed.

Section FallbackFacts.

Variable py_sum : list float -> float.
Variable np_average : list float -> float.

Lemma quantify_loop_filter (self : CANDO)
    (func : option (list float -> result float)) (pws : list Pathway) :
  quantify_loop self func pws
  = quantify_loop self func (filter has_proteins pws).
Proof.
  unfold quantify_loop.
  rewrite (mapM_ext _
    (fun c => aux <- compound_aux_sig self func c (filter has_proteins pws) ;;
              Ok (set_aux_sig aux c))); [reflexivity |].
  intros c. unfold compound_aux_sig. now rewrite pw_sig_all_loop_filter.
Qed.

(** An indication none of whose pathways has a member protein (it may have no
    pathway at all) gets the signatures of the full pathway set: when that
    set has a pathway with a member protein, [quantify_pathways] ends as the
    call without an indication does, after at most one fallback. *)
Theorem quantify_pathways_global_fallback (depth : nat) (self : CANDO)
    (ind : Indication) :
  filter has_proteins (ind_pathways ind) = [] ->
  filter has_proteins (pathways self) <> [] ->
  fst (quantify_pathways py_sum np_average (S (S depth)) self (Some ind))
  = fst (quantify_pathways py_sum np_average (S depth) self None) /\
  (snd (quantify_pathways py_sum np_average (S (S depth)) self (Some ind))
   <= 1)%nat /\
  snd (quantify_pathways py_sum np_average (S depth) self None) = 0%nat.
Proof.
  intros Hind Hall. unfold quantify_pathways.
  destruct (select_func py_sum np_average self) as [func|e];
    [| cbn; repeat split; lia].
  assert (Hnone : select_pathways (S depth) self None
                  = (Ok (filter has_proteins (pathways self)), 0%nat)).
  { unfold select_pathways. cbn [check_proteins].
    destruct (filter has_proteins (pathways self)) as [|pw pl];
      [contradiction | reflexivity]. }
  rewrite Hnone. unfold select_pathways.
  destruct (length (ind_pathways ind)) as [|n] eqn:En; cbn [Nat.eqb].
  - cbn [fst snd bind]. rewrite quantify_loop_filter. repeat split; lia.
  - rewrite (check_proteins_one_fallback depth self ind _ Hind Hall).
    cbn [fst snd bind]. repeat split; lia.
Qed.

(** Called without an indication on a platform none of whose pathways has a
    member protein, [quantify_pathways] does not recurse: composing the
    message reads [indication.id_] on [None] and the call ends in
    [AttributeError]. *)
Theorem quantify_pathways_without_indication (depth : nat) (self : CANDO) :
  (exists func, select_func py_sum np_average self = Ok func) ->
  filter has_proteins (pathways self) = [] ->
  quantify_pathways py_sum np_average (S depth) self None
  = (Raise AttributeError, 0%nat).
Proof.
  intros [func Hf] Hall. unfold quantify_pathways. rewrite Hf.
  unfold select_pathways. cbn [check_proteins]. rewrite Hall. reflexivity.
Qed.

End FallbackFacts.

Lemma quantify_pathways_global_fallback_witness :
  fst (quantify_pathways (fun _ => zero) (fun _ => zero) 2 mixed_cando
         (Some orphan_indication))
  = fst (quantify_pathways (fun _ => zero) (fun _ => zero) 1 mixed_cando None)
  /\ quantify_pathways (fun _ => zero) (fun _ => zero) 2 mixed_cando
       (Some orphan_indication)
     = (Ok (set_compounds [set_aux_sig [f2; f3] five_scores] mixed_cando),
        1%nat).
Proof.
  split; [| reflexivity].
  apply (proj1 (quantify_pathways_global_fallback (fun _ => zero)
                  (fun _ => zero) 0 mixed_cando orphan_indication
                  eq_refl ltac:(discriminate))).
Defined.

Lemma quantify_pathways_without_indication_witness :
  quantify_pathways (fun _ => zero) (fun _ => zero) 1000 orphan_cando None
  = (Raise AttributeError, 0%nat).
Proof.
  apply (quantify_pathways_without_indication (fun _ => zero) (fun _ => zero)
           999 orphan_cando).
  - eexists. reflexivity.
  - reflexivity.
Defined.

(** ** Reading back a saved file *)

Lemma clean_no_tab (c : ascii) :
  is_space c = false -> Ascii.eqb c (ascii_of_nat 9) = false.
Proof.
  intros H. destruct (Ascii.eqb_spec c (ascii_of_nat 9)) as [-> | _];
    [discriminate H | reflexivity].
Qed.

Lemma split_tab_field (f s : string) :
  clean f = true -> split_tab (f ++ tab ++ s)%string = f :: split_tab s.
Proof.
  induction f as [|c f IH]; intros Hf; [reflexivity |].
  cbn [clean] in Hf. apply andb_prop in Hf as [Hc Hf].
  apply negb_true_iff in Hc.
  cbn [append split_tab]. rewrite (clean_no_tab c Hc).
  change (f ++ String (ascii_of_nat 9) s)%string with (f ++ tab ++ s)%string.
  now rewrite (IH Hf).
Qed.

Lemma split_tab_last (f : string) : clean f = true -> split_tab f = [f].
Proof.
  induction f as [|c f IH]; intros Hf; [reflexivity |].
  cbn [clean] in Hf. apply andb_prop in Hf as [Hc Hf].
  apply negb_true_iff in Hc.
  cbn [split_tab]. rewrite (clean_no_tab c Hc). now rewrite (IH Hf).
Qed.

Lemma drop_last_app (s t : string) :
  t <> EmptyString -> drop_last (s ++ t) = (s ++ drop_last t)%string.
Proof.
  intros Ht. induction s as [|c s IH]; [reflexivity |].
  cbn [append drop_last]. rewrite IH.
  destruct (s ++ t)%string eqn:E; [| reflexivity].
  destruct s; [cbn in E; contradiction | discriminate E].
Qed.

Lemma tabbed_cons_nonempty (f : string) (rest : list string) :
  tabbed (f :: rest) <> EmptyString.
Proof.
  cbn [tabbed]. destruct f; discriminate.
Qed.

Lemma drop_last_tabbed (f g : string) (rest : list string) :
  drop_last (tabbed (f :: g :: rest))
  = (f ++ tab ++ drop_last (tabbed (g :: rest)))%string.
Proof.
  change (tabbed (f :: g :: rest))
    with (f ++ (tab ++ tabbed (g :: rest)))%string.
  rewrite drop_last_app by discriminate.
  f_equal. cbn [tab append drop_last].
  destruct (tabbed (g :: rest)) eqn:E; [| reflexivity].
  exfalso. exact (tabbed_cons_nonempty g rest E).
Qed.

Lemma split_tab_join (fields : list string) :
  fields <> [] -> Forall (fun f => clean f = true) fields ->
  split_tab (drop_last (tabbed fields)) = fields.
Proof.
  induction fields as [|f fields IH]; intros Hne Hall; [contradiction |].
  inversion Hall as [|? ? Hf Hrest]; subst.
  destruct fields as [|g rest].
  - cbn [tabbed]. rewrite append_empty_r, drop_last_tab.
    now apply split_tab_last.
  - rewrite drop_last_tabbed, split_tab_field by exact Hf.
    f_equal. apply IH; [discriminate | exact Hrest].
Qed.

Lemma rstrip_space_end (s : string) (c : ascii) :
  is_space c = true -> rstrip (s ++ String c EmptyString) = rstrip s.
Proof.
  intros Hc. induction s as [|a s IH].
  - cbn. now rewrite Hc.
  - cbn [append rstrip]. now rewrite IH.
Qed.

Lemma rstrip_clean_end (s : string) (c : ascii) :
  is_space c = false ->
  rstrip (s ++ String c EmptyString) = (s ++ String c EmptyString)%string.
Proof.
  intros Hc. induction s as [|a s IH].
  - cbn. now rewrite Hc.
  - cbn [append rstrip]. rewrite IH.
    destruct (s ++ String c EmptyString)%string eqn:E; [| reflexivity].
    destruct s; discriminate E.
Qed.

Lemma clean_end (s : string) :
  s <> EmptyString -> clean s = true ->
  exists t c, s = (t ++ String c EmptyString)%string /\ is_space c = false.
Proof.
  induction s as [|a s IH]; intros Hne Hs; [contradiction |].
  cbn [clean] in Hs. apply andb_prop in Hs as [Ha Hs].
  apply negb_true_iff in Ha. destruct s as [|b s].
  - exists EmptyString, a. split; [reflexivity | exact Ha].
  - destruct (IH ltac:(discriminate) Hs) as [t [c [E Hc]]].
    exists (String a t), c. split; [| exact Hc]. cbn [append]. now rewrite <- E.
Qed.

Lemma join_clean_end (fields : list string) :
  fields <> [] ->
  Forall (fun f => f <> EmptyString /\ clean f = true) fields ->
  exists t c, drop_last (tabbed fields) = (t ++ String c EmptyString)%string
              /\ is_space c = false.
Proof.
  induction fields as [|f fields IH]; intros Hne Hall; [contradiction |].
  inversion Hall as [|? ? [Hf1 Hf2] Hrest]; subst.
  destruct fields as [|g rest].
  - cbn [tabbed]. rewrite append_empty_r, drop_last_tab.
    now apply clean_end.
  - destruct (IH ltac:(discriminate) Hrest) as [t [c [E Hc]]].
    exists (f ++ tab ++ t)%string, c. split; [| exact Hc].
    rewrite drop_last_tabbed, E. now rewrite !append_assoc.
Qed.

Lemma strip_line (fields : list string) :
  fields <> [] ->
  Forall (fun f => f <> EmptyString /\ clean f = true) fields ->
  strip (drop_last (tabbed fields) ++ newline) = drop_last (tabbed fields).
Proof.
  intros Hne Hall. unfold strip.
  assert (Hl : lstrip (drop_last (tabbed fields) ++ newline)
               = (drop_last (tabbed fields) ++ newline)%string).
  { destruct fields as [|f fields]; [contradiction |].
    inversion Hall as [|? ? [Hf1 Hf2] Hrest]; subst.
    destruct f as [|c f]; [contradiction |].
    cbn [clean] in Hf2. apply andb_prop in Hf2 as [Hc _].
    apply negb_true_iff in Hc.
    destruct fields as [|g rest].
    - cbn [tabbed]. rewrite append_empty_r, drop_last_tab.
      cbn [append lstrip]. now rewrite Hc.
    - rewrite drop_last_tabbed. cbn [append lstrip]. now rewrite Hc. }
  rewrite Hl. unfold newline. rewrite rstrip_space_end by reflexivity.
  destruct (join_clean_end fields Hne Hall) as [t [c [-> Hc]]].
  now apply rstrip_clean_end.
Qed.

Lemma read_scores_line (parse_float : string -> float)
    (fields : list string) :
  fields <> [] ->
  Forall (fun f => f <> EmptyString /\ clean f = true) fields ->
  read_scores parse_float (drop_last (tabbed fields) ++ newline)
  = map parse_float fields.
Proof.
  intros Hne Hall. unfold read_scores.
  rewrite strip_line, split_tab_join; auto.
  eapply Forall_impl; [| exact Hall]. now intros f [_ H].
Qed.

Section FieldsFacts.

Variable format_float : float -> string.

Lemma rmsds_fields_after (similarity : bool) (ci si : nat)
    (sims : list neighbor) :
  (ci < si)%nat ->
  rmsds_fields format_float similarity ci si sims
  = map (fun e => format_float (snd e)) sims.
Proof.
  revert si. induction sims as [|s rest IH]; intros si Hlt; [reflexivity |].
  cbn [rmsds_fields map]. destruct (Nat.eqb_spec ci si) as [E | _]; [lia |].
  cbn [app]. f_equal. apply IH. lia.
Qed.

Lemma rmsds_fields_at (similarity : bool) (ci si : nat)
    (sims : list neighbor) :
  (si <= ci)%nat ->
  rmsds_fields format_float similarity ci si sims
  = map (fun e => format_float (snd e)) (firstn (ci - si) sims)
    ++ (if (ci - si <? length sims)%nat
        then [if similarity then "1.0"%string else "0.0"%string] else [])
    ++ map (fun e => format_float (snd e)) (skipn (ci - si) sims).
Proof.
  revert si. induction sims as [|s rest IH]; intros si Hle.
  - cbn [rmsds_fields length]. rewrite firstn_nil, skipn_nil.
    destruct (ci - si)%nat; reflexivity.
  - cbn [rmsds_fields]. destruct (Nat.eqb_spec ci si) as [-> | Hne].
    + rewrite Nat.sub_diag. cbn [firstn skipn map app length Nat.ltb Nat.leb].
      rewrite rmsds_fields_after by lia. reflexivity.
    + replace (ci - si)%nat with (S (ci - S si)) by lia.
      cbn [firstn skipn map app length].
      rewrite (IH (S si)) by lia. reflexivity.
Qed.

End FieldsFacts.

Lemma seq_sorted (s n : nat) : StronglySorted Nat.lt (seq s n).
Proof.
  revert s. induction n as [|n IH]; intros s; [constructor |].
  cbn [seq]. constructor; [apply IH |].
  apply Forall_forall. intros x Hx. apply in_seq in Hx. lia.
Qed.

Lemma sorted_app (l1 l2 : list nat) :
  StronglySorted Nat.lt l1 -> StronglySorted Nat.lt l2 ->
  (forall x y, In x l1 -> In y l2 -> (x < y)%nat) ->
  StronglySorted Nat.lt (l1 ++ l2).
Proof.
  intros H1 H2 H. induction H1 as [|a l1 Hs IH Ha]; [exact H2 |].
  cbn [app]. constructor.
  - apply IH. intros x y Hx Hy. apply H; [now right | exact Hy].
  - apply Forall_app. split; [exact Ha |].
    apply Forall_forall. intros y Hy. apply H; [now left | exact Hy].
Qed.

Lemma sorted_unique (l l' : list nat) :
  StronglySorted Nat.lt l -> StronglySorted Nat.lt l' ->
  (forall x, In x l <-> In x l') -> l = l'.
Proof.
  intros Hl. revert l'. induction Hl as [|a l Hs IH Ha]; intros l' Hl' Hin.
  - destruct l' as [|b l']; [reflexivity |].
    destruct (proj2 (Hin b) (or_introl eq_refl)).
  - destruct Hl' as [|b l' Hs' Hb].
    + destruct (proj1 (Hin a) (or_introl eq_refl)).
    + rewrite Forall_forall in Ha, Hb.
      assert (Hab : a = b).
      { destruct (proj1 (Hin a) (or_introl eq_refl)) as [E | Hal']; [auto |].
        destruct (proj2 (Hin b) (or_introl eq_refl)) as [E | Hbl]; [auto |].
        specialize (Ha b Hbl). specialize (Hb a Hal'). lia. }
      subst b. f_equal. apply IH; [exact Hs' |].
      intros x. split; intros Hx.
      * destruct (proj1 (Hin x) (or_intror Hx)) as [E | H]; [| exact H].
        specialize (Ha x Hx). lia.
      * destruct (proj2 (Hin x) (or_intror Hx)) as [E | H]; [| exact H].
        specialize (Hb x Hx). lia.
Qed.

Lemma others_sorted (nc a : nat) : StronglySorted Nat.lt (others nc a).
Proof.
  unfold others. apply sorted_app; try apply seq_sorted.
  intros x y Hx Hy. apply in_seq in Hx, Hy. lia.
Qed.

Lemma others_members (nc a b : nat) :
  (a < nc)%nat -> In b (others nc a) <-> b <> a /\ (b < nc)%nat.
Proof.
  intros Ha. unfold others. rewrite in_app_iff, !in_seq. lia.
Qed.

Lemma set_similar_frame (l : list neighbor) (c c0 : Compound) :
  c = set_similar (similar c) c0 ->
  set_similar l c = set_similar (similar (set_similar l c)) c0.
Proof.
  intros ->. reflexivity.
Qed.

Lemma pair_step_ordered (dm : list float) (cs0 : list Compound)
    (nc i j : nat) (st st' : list Compound * nat) :
  (i <= j < nc)%nat ->
  all_pairs_invariant dm nc i j st -> pairs_ordered cs0 st ->
  pair_step dm i j st = Ok st' -> pairs_ordered cs0 st'.
Proof.
  intros Hij [_ [_ Hall]] Hord. destruct st as [cs n]. cbn [fst] in Hall.
  unfold pair_step. destruct (Nat.eqb_spec i j) as [-> | Hne].
  - intros H. injection H as <-. exact Hord.
  - unfold getitem. destruct (nth_error dm n) as [r|]; [| discriminate].
    cbn [bind]. intros H. injection H as <-.
    intros a c Hc. cbn [fst] in Hc. unfold append_similar in Hc.
    rewrite !nth_error_update_nth in Hc.
    assert (Hadd : forall b c1,
              nth_error cs a = Some c1 ->
              (forall x, pair_seen nc i j a x -> (x < b)%nat) ->
              c = set_similar (similar c1 ++ [(b, r)]) c1 ->
              StronglySorted Nat.lt (map fst (similar c)) /\
              exists c0, nth_error cs0 a = Some c0 /\
                         c = set_similar (similar c) c0).
    { intros b c1 Hc1 Hlt ->.
      destruct (Hord a c1 Hc1) as [Hs [c0 [Hc0 Hframe]]].
      destruct (Hall a c1 Hc1) as [_ [Hin _]]. split.
      - rewrite similar_append, map_app. cbn [map fst].
        apply sorted_app; [exact Hs | repeat constructor |].
        intros x y Hx [<- | []]. apply Hlt. now apply Hin.
      - exists c0. split; [exact Hc0 |]. now apply set_similar_frame. }
    destruct (Nat.eqb_spec a j) as [-> | Haj].
    + destruct (Nat.eqb_spec j i) as [-> | _]; [lia |].
      destruct (nth_error cs j) as [c1|] eqn:Ec1; [| discriminate Hc].
      cbn [option_map] in Hc. injection Hc as <-.
      apply (Hadd i c1 eq_refl); [| reflexivity].
      intros x. unfold pair_seen. lia.
    + destruct (Nat.eqb_spec a i) as [-> | Hai].
      * destruct (nth_error cs i) as [c1|] eqn:Ec1; [| discriminate Hc].
        cbn [option_map] in Hc. injection Hc as <-.
        apply (Hadd j c1 eq_refl); [| reflexivity].
        intros x. unfold pair_seen. lia.
      * now apply Hord.
Qed.

Lemma set_similar_id (c : Compound) : set_similar (similar c) c = c.
Proof. now destruct c. Qed.

Lemma add_pairs_rows (dm : list float) (cs : list Compound) :
  Forall (fun c => similar c = []) cs ->
  (length cs * (length cs - 1) <= 2 * length dm)%nat ->
  exists st,
    add_pairs dm cs = Ok st /\ length (fst st) = length cs /\
    forall a c0, nth_error cs a = Some c0 ->
      exists l, nth_error (fst st) a = Some (set_similar l c0) /\
                map fst l = others (length cs) a /\
                forall e, In e l -> In (snd e) dm.
Proof.
  intros Hempty Hdm. unfold add_pairs. set (nc := length cs) in *.
  destruct (for_each_seq_total
              (fun i st => all_pairs_invariant dm nc i i st /\
                           pairs_ordered cs st)
              (fun i => for_each (seq i (nc - i)) (pair_step dm i))
              nc 0 (cs, O)) as [st [Hrun [Hinv Hord]]].
  - split.
    + unfold all_pairs_invariant. cbn [fst snd].
      split; [reflexivity |]. split; [lia |]. intros a c Hc.
      rewrite Forall_forall in Hempty.
      specialize (Hempty c (nth_error_In _ _ Hc)).
      unfold pairs_listed. rewrite Hempty. cbn [map In].
      split; [constructor |]. split; [| tauto].
      intros b. unfold pair_seen. lia.
    + intros a c Hc. cbn [fst] in Hc. rewrite Forall_forall in Hempty.
      specialize (Hempty c (nth_error_In _ _ Hc)). rewrite Hempty.
      split; [constructor |]. exists c. split; [exact Hc |].
      rewrite <- Hempty. symmetry. apply set_similar_id.
  - intros i s Hi [Hs Ho].
    destruct (for_each_seq_total
                (fun j st => all_pairs_invariant dm nc i j st /\
                             pairs_ordered cs st)
                (pair_step dm i) (nc - i) i s (conj Hs Ho))
      as [s' [Hrun [Hend Hoend]]].
    + intros j s0 Hj [Hs0 Ho0].
      destruct (all_pairs_step dm nc i j s0 ltac:(lia) Hdm Hs0)
        as [s1 [Hstep Hs1]].
      exists s1. split; [exact Hstep |]. split; [exact Hs1 |].
      apply (pair_step_ordered dm cs nc i j s0 s1); auto. lia.
    + exists s'. split; [exact Hrun |]. split; [| exact Hoend].
      replace (i + (nc - i))%nat with nc in Hend by lia.
      destruct Hend as [H1 [H2 H3]]. split; [exact H1 |]. split; [nia |].
      intros a c Hc.
      apply (pairs_listed_skip dm nc i nc (S i) (S i)); [| now apply H3].
      intros b. unfold pair_seen. lia.
  - exists st. split; [exact Hrun |].
    destruct Hinv as [Hlen [_ Hall]]. split; [exact Hlen |].
    intros a c0 Hc0.
    assert (Ha : (a < nc)%nat) by (apply nth_error_Some; congruence).
    destruct (nth_error (fst st) a) as [c|] eqn:Ec.
    2:{ apply nth_error_None in Ec. lia. }
    destruct (Hord a c Ec) as [Hs [c0' [Hc0' Hframe]]].
    rewrite Hc0 in Hc0'. injection Hc0' as <-.
    destruct (Hall a c Ec) as [_ [Hin Hd]].
    exists (similar c). split; [now rewrite <- Hframe |]. split.
    + apply sorted_unique; [exact Hs | apply others_sorted |].
      intros x. rewrite Hin, (others_members nc a x Ha).
      unfold pair_seen. cbn [Nat.add] in *. lia.
    + intros e He. apply (nth_error_In _ _ (Hd e He)).
Qed.

Lemma update_nth_twice {A : Type} (f g : A -> A) (i : nat) (l : list A) :
  update_nth i g (update_nth i f l) = update_nth i (fun c => g (f c)) l.
Proof.
  revert i. induction l as [|a l IH]; intros [|i]; cbn; try reflexivity.
  now rewrite IH.
Qed.

Lemma update_nth_ext {A : Type} (f g : A -> A) (i : nat) (l : list A) :
  (forall c, f c = g c) -> update_nth i f l = update_nth i g l.
Proof.
  intros H. revert i. induction l as [|a l IH]; intros [|i]; cbn;
    try reflexivity.
  - now rewrite H.
  - now rewrite IH.
Qed.

Lemma update_nth_same {A : Type} (f : A -> A) (i : nat) (l : list A) :
  (forall c, f c = c) -> update_nth i f l = l.
Proof.
  intros H. revert i. induction l as [|a l IH]; intros [|i]; cbn;
    try reflexivity.
  - now rewrite H.
  - now rewrite IH.
Qed.

Lemma for_each_app {St : Type} (l1 l2 : list nat)
    (body : nat -> St -> result St) (st : St) :
  for_each (l1 ++ l2) body st
  = (st' <- for_each l1 body st ;; for_each l2 body st').
Proof.
  revert st. induction l1 as [|i l1 IH]; intros st; [reflexivity |].
  cbn [app for_each]. destruct (body i st) as [s|e]; [| reflexivity].
  cbn [bind]. apply IH.
Qed.

Lemma filter_keep {A : Type} (f : A -> bool) (l : list A) :
  (forall x, In x l -> f x = true) -> filter f l = l.
Proof.
  induction l as [|a l IH]; intros H; [reflexivity |].
  cbn [filter]. rewrite (H a (or_introl eq_refl)). f_equal.
  apply IH. intros x Hx. apply H. now right.
Qed.

(** The entries read from the first [m] scores of line [i]. *)
Lemma read_row_upto (i m : nat) (scores : list float) (cs : list Compound) :
  (m <= length scores)%nat -> (length scores <= length cs)%nat ->
  for_each (seq 0 m) (read_score false i scores) cs
  = Ok (update_nth i
          (fun c => set_similar
                      (similar c
                       ++ map (fun j => (j, nth j scores nan))
                            (filter (fun j => negb (Nat.eqb i j)) (seq 0 m)))
                      c)
          cs).
Proof.
  intros Hm Hlen. induction m as [|m IH].
  - cbn [seq for_each filter map]. f_equal. symmetry.
    apply update_nth_same. intros c. rewrite app_nil_r. apply set_similar_id.
  - rewrite seq_S, for_each_app, IH by lia. cbn [bind Nat.add for_each].
    rewrite filter_app. cbn [filter]. unfold read_score.
    destruct (Nat.eqb_spec i m) as [-> | Hne]; cbn [negb bind].
    + now rewrite app_nil_r.
    + unfold getitem. destruct (nth_error scores m) as [d|] eqn:Ed.
      2:{ apply nth_error_None in Ed. lia. }
      cbn [bind].
      destruct (nth_error (update_nth i _ cs) m) as [c|] eqn:Ec.
      2:{ apply nth_error_None in Ec. rewrite length_update_nth in Ec. lia. }
      cbn [bind]. f_equal. unfold append_similar.
      rewrite update_nth_twice. apply update_nth_ext. intros c1.
      cbn [similar set_similar]. rewrite map_app, <- app_assoc.
      cbn [map]. now rewrite (nth_error_nth _ _ nan Ed).
Qed.

Lemma read_row (i : nat) (scores : list float) (cs : list Compound) :
  (length scores <= length cs)%nat ->
  for_each (seq 0 (length scores)) (read_score false i scores) cs
  = Ok (update_nth i
          (fun c => set_similar (similar c ++ row_entries i scores) c) cs).
Proof.
  intros Hlen. now rewrite read_row_upto by lia.
Qed.

Lemma read_rows (lines : list (list float)) (cs : list Compound) :
  (length lines <= length cs)%nat ->
  Forall (fun scores => (length scores <= length cs)%nat) lines ->
  exists cs',
    for_each (seq 0 (length lines)) (read_line false lines) cs = Ok cs' /\
    length cs' = length cs /\
    forall a,
      nth_error cs' a
      = if (a <? length lines)%nat
        then option_map
               (fun c => set_similar
                           (similar c ++ row_entries a (nth a lines [])) c)
               (nth_error cs a)
        else nth_error cs a.
Proof.
  intros Hlines Hall.
  destruct (for_each_seq_total
    (fun m s =>
       length s = length cs /\
       forall a,
         nth_error s a
         = if (a <? m)%nat
           then option_map
                  (fun c => set_similar
                              (similar c ++ row_entries a (nth a lines [])) c)
                  (nth_error cs a)
           else nth_error cs a)
    (read_line false lines) (length lines) 0 cs) as [cs' [Hrun Hend]].
  - split; [reflexivity |]. intros a. reflexivity.
  - intros m s Hm [Hlen Hs]. unfold read_line, getitem.
    destruct (nth_error s m) as [c|] eqn:Ec.
    2:{ apply nth_error_None in Ec. lia. }
    destruct (nth_error lines m) as [scores|] eqn:El.
    2:{ apply nth_error_None in El. lia. }
    cbn [bind].
    assert (Hsc : (length scores <= length s)%nat).
    { rewrite Forall_forall in Hall. rewrite Hlen.
      apply Hall. now apply nth_error_In with m. }
    rewrite (read_row m scores s Hsc). eexists. split; [reflexivity |].
    split; [now rewrite length_update_nth |].
    intros a. rewrite nth_error_update_nth.
    rewrite (nth_error_nth _ _ [] El) || idtac.
    destruct (Nat.eqb_spec a m) as [-> | Hne].
    + rewrite Hs, Nat.ltb_irrefl.
      destruct (Nat.ltb_spec m (S m)); [| lia].
      now rewrite (nth_error_nth _ _ [] El).
    + rewrite Hs.
      destruct (Nat.ltb_spec a m), (Nat.ltb_spec a (S m)); try lia;
        reflexivity.
  - exists cs'. destruct Hend as [Hlen Hs]. auto.
Qed.

Lemma entries_of_seq (x : list neighbor) (s : nat) :
  map fst x = seq s (length x) ->
  map (fun j => (j, nth (j - s) (map snd x) nan)) (seq s (length x)) = x.
Proof.
  revert s. induction x as [|[b d] x IH]; intros s Hfst; [reflexivity |].
  cbn [map fst length seq] in Hfst. injection Hfst as -> Hrest.
  cbn [length seq map snd]. rewrite Nat.sub_diag. cbn [nth]. f_equal.
  rewrite <- (IH (S s) Hrest) at 2.
  apply map_ext_in. intros j Hj. apply in_seq in Hj.
  replace (j - s)%nat with (S (j - S s)) by lia. reflexivity.
Qed.

Lemma row_entries_split (a : nat) (front diag back : list float) :
  length front = a ->
  (exists x, diag = [x]) \/ (diag = [] /\ back = []) ->
  row_entries a (front ++ diag ++ back)
  = map (fun j => (j, nth (j - 0) front nan)) (seq 0 a)
    ++ map (fun j => (j, nth (j - S a) back nan)) (seq (S a) (length back)).
Proof.
  intros Ha Hd. unfold row_entries.
  assert (Hfront : forall rest,
            map (fun j => (j, nth j (front ++ rest) nan)) (seq 0 a)
            = map (fun j => (j, nth (j - 0) front nan)) (seq 0 a)).
  { intros rest. apply map_ext_in. intros j Hj. apply in_seq in Hj.
    rewrite Nat.sub_0_r, app_nth1 by lia. reflexivity. }
  assert (Hkeep : filter (fun j => negb (Nat.eqb a j)) (seq 0 a) = seq 0 a).
  { apply filter_keep. intros j Hj. apply in_seq in Hj.
    apply negb_true_iff, Nat.eqb_neq. lia. }
  destruct Hd as [[x ->] | [-> ->]].
  - rewrite !length_app, Ha. cbn [length Nat.add].
    replace (a + S (length back))%nat with (a + (1 + length back))%nat by lia.
    rewrite seq_app. cbn [Nat.add seq]. rewrite filter_app, Hkeep.
    cbn [filter]. rewrite Nat.eqb_refl. cbn [negb].
    rewrite filter_keep.
    2:{ intros j Hj. apply in_seq in Hj. apply negb_true_iff, Nat.eqb_neq. lia. }
    rewrite map_app, Hfront. f_equal.
    apply map_ext_in. intros j Hj. apply in_seq in Hj.
    rewrite app_nth2 by lia. rewrite Ha.
    change ([x] ++ back) with (x :: back).
    replace (j - a)%nat with (S (j - S a)) by lia. reflexivity.
  - rewrite !app_nil_r, Ha, Hkeep. cbn [length seq map].
    apply map_ext_in. intros j _. now rewrite Nat.sub_0_r.
Qed.

Section RowFacts.

Variable format_float : float -> string.
Variable parse_float : string -> float.

Lemma rmsds_fields_all (P : string -> Prop) (similarity : bool)
    (ci si : nat) (sims : list neighbor) :
  P "1.0"%string -> P "0.0"%string ->
  (forall e, In e sims -> P (format_float (snd e))) ->
  Forall P (rmsds_fields format_float similarity ci si sims).
Proof.
  intros H1 H0. revert si. induction sims as [|s rest IH]; intros si Hall;
    [constructor |].
  cbn [rmsds_fields]. apply Forall_app. split.
  - destruct (Nat.eqb ci si); [| constructor].
    constructor; [| constructor]. now destruct similarity.
  - constructor; [apply Hall; now left |].
    apply IH. intros e He. apply Hall. now right.
Qed.

(** The line saved for the compound at position [a], read again. *)
Lemma saved_row_read_back (similarity : bool) (dm : list float)
    (nc a : nat) (l : list neighbor) (c0 : Compound) :
  (forall d, In d dm -> parse_float (format_float d) = d) ->
  (forall d, In d dm ->
             format_float d <> EmptyString /\ clean (format_float d) = true) ->
  (a < nc)%nat -> map fst l = others nc a ->
  (forall e, In e l -> In (snd e) dm) ->
  let scores :=
    read_scores parse_float
      (rmsds_to_str format_float similarity (set_similar l c0) a) in
  (length scores <= nc)%nat /\ row_entries a scores = l.
Proof.
  intros Hparse Hclean Ha Hfst Hdm.
  assert (Hlen : length l = (nc - 1)%nat).
  { transitivity (length (map fst l)); [symmetry; apply length_map |].
    rewrite Hfst. unfold others. rewrite length_app, !length_seq. lia. }
  unfold rmsds_to_str. rewrite rmsds_loop_fields.
  cbn [similar set_similar append].
  destruct l as [|e0 l0] eqn:El.
  - cbn [length] in Hlen. assert (a = 0%nat) as -> by lia.
    cbv zeta. cbn [rmsds_fields].
    replace (read_scores parse_float (drop_last (tabbed []) ++ newline))
      with [parse_float EmptyString] by reflexivity.
    split; [cbn [length]; lia | reflexivity].
  - assert (Hne : l <> []) by (rewrite El; discriminate).
    rewrite <- El in *. clear El e0 l0.
    cbv zeta. rewrite read_scores_line.
    2:{ intros Hnil.
        pose proof (rmsds_fields_length format_float similarity a 0 l) as H.
        rewrite Hnil in H. cbn [length] in H.
        destruct l; [contradiction | cbn [length] in H; lia]. }
    2:{ apply rmsds_fields_all.
        - split; [discriminate | reflexivity].
        - split; [discriminate | reflexivity].
        - intros e He. apply Hclean. now apply Hdm. }
    rewrite rmsds_fields_at by lia. rewrite Nat.sub_0_r.
    rewrite !map_app, !map_map.
    assert (Hin1 : forall e, In e (firstn a l) -> In e l).
    { intros e He. rewrite <- (firstn_skipn a l). apply in_or_app. now left. }
    assert (Hin2 : forall e, In e (skipn a l) -> In e l).
    { intros e He. rewrite <- (firstn_skipn a l). apply in_or_app. now right. }
    rewrite (map_ext_in _ snd (firstn a l))
      by (intros e He; apply Hparse, Hdm, Hin1, He).
    rewrite (map_ext_in _ snd (skipn a l))
      by (intros e He; apply Hparse, Hdm, Hin2, He).
    assert (Hf1 : map fst (firstn a l) = seq 0 a).
    { transitivity (firstn a (map fst l)); [symmetry; apply firstn_map |].
      rewrite Hfst. unfold others.
      rewrite firstn_app, length_seq, Nat.sub_diag. cbn [firstn].
      rewrite app_nil_r. apply firstn_all2. rewrite length_seq. lia. }
    assert (Hf2 : map fst (skipn a l) = seq (S a) (nc - S a)).
    { transitivity (skipn a (map fst l)); [symmetry; apply skipn_map |].
      rewrite Hfst. unfold others.
      rewrite skipn_app, length_seq, Nat.sub_diag. cbn [skipn].
      rewrite skipn_all2 by (rewrite length_seq; lia). reflexivity. }
    unfold neighbor, cref in *.
    assert (Hl1 : length (firstn a l) = a)
      by (rewrite length_firstn; lia).
    assert (Hl2 : length (skipn a l) = (nc - S a)%nat)
      by (rewrite length_skipn; lia).
    split.
    + rewrite !length_app, !length_map, Hl1, Hl2.
      destruct (a <? length l)%nat; cbn [length]; lia.
    + rewrite row_entries_split.
      * rewrite length_map.
        pose proof (entries_of_seq (firstn a l) 0) as E1.
        pose proof (entries_of_seq (skipn a l) (S a)) as E2.
        unfold neighbor, cref in E1, E2. rewrite Hl1 in E1.
        rewrite (E1 Hf1), E2 by (now rewrite Hl2).
        apply firstn_skipn.
      * now rewrite length_map.
      * destruct (Nat.ltb_spec a (length l)) as [Hlt | Hge].
        -- left. eexists. reflexivity.
        -- right. split; [reflexivity |].
           rewrite skipn_all2 by lia. reflexivity.
Qed.

(** Saving the distances that the all-pairs computation has just produced
    (before the lists are sorted) and reading the file again in a fresh run
    gives the platform that the computation itself ends with.  The floats
    are written by [format_float] and read by [parse_float]; every distance
    is assumed to be written as a non-empty text without whitespace from
    which it is read back. *)
Theorem saved_distances_read_back (similarity : bool) (dm : list float)
    (cs : list Compound) :
  Forall (fun c => similar c = []) cs ->
  (length cs * (length cs - 1) <= 2 * length dm)%nat ->
  (forall d, In d dm -> parse_float (format_float d) = d) ->
  (forall d, In d dm ->
             format_float d <> EmptyString /\ clean (format_float d) = true) ->
  exists st cs',
    add_pairs dm cs = Ok st /\
    compute_distances dm cs = Ok cs' /\
    read_saved parse_float false
      (save_rmsds format_float similarity (fst st)) cs = Ok cs'.
Proof.
  intros Hempty Hlen Hparse Hclean.
  destruct (add_pairs_rows dm cs Hempty Hlen) as [st [Hrun [Hlen1 Hrows]]].
  exists st, (map sort_and_mark (fst st)).
  split; [exact Hrun |].
  split; [unfold compute_distances; now rewrite Hrun |].
  unfold read_saved, read_rmsds.
  set (lines := map (read_scores parse_float)
                    (save_rmsds format_float similarity (fst st))).
  assert (Hnl : length lines = length cs).
  { unfold lines, save_rmsds. now rewrite !length_map, length_seq. }
  assert (Hline : forall a c0,
            nth_error cs a = Some c0 ->
            exists l,
              nth_error (fst st) a = Some (set_similar l c0) /\
              (length (nth a lines []) <= length cs)%nat /\
              row_entries a (nth a lines []) = l).
  { intros a c0 Hc0.
    assert (Ha : (a < length cs)%nat) by (apply nth_error_Some; congruence).
    destruct (Hrows a c0 Hc0) as [l [Hst [Hfst Hdm]]].
    exists l. split; [exact Hst |].
    assert (Hnth : nth a lines []
                   = read_scores parse_float
                       (rmsds_to_str format_float similarity
                          (set_similar l c0) a)).
    { apply nth_error_nth. unfold lines, save_rmsds.
      rewrite !nth_error_map.
      rewrite (nth_error_nth' (seq 0 (length (fst st))) 0%nat)
        by (rewrite length_seq; lia).
      rewrite seq_nth by lia. cbn [option_map Nat.add]. now rewrite Hst. }
    rewrite Hnth.
    apply (saved_row_read_back similarity dm (length cs) a l c0); auto. }
  destruct (read_rows lines cs) as [cs' [Hread [Hlen' Hnth]]].
  - lia.
  - apply Forall_forall. intros scores Hin.
    apply In_nth_error in Hin as [a Ha].
    assert (Hlt : (a < length cs)%nat)
      by (rewrite <- Hnl; apply nth_error_Some; congruence).
    destruct (nth_error cs a) as [c0|] eqn:Ec0.
    2:{ apply nth_error_None in Ec0. lia. }
    destruct (Hline a c0 Ec0) as [l [_ [Hle _]]].
    now rewrite (nth_error_nth _ _ [] Ha) in Hle.
  - rewrite Hread. cbn [bind]. f_equal. f_equal.
    apply nth_error_ext. intros a. rewrite Hnth, Hnl.
    destruct (Nat.ltb_spec a (length cs)) as [Hlt | Hge].
    + destruct (nth_error cs a) as [c0|] eqn:Ec0.
      2:{ apply nth_error_None in Ec0. lia. }
      destruct (Hline a c0 Ec0) as [l [Hst [_ Hrow]]].
      rewrite Hst, Hrow. cbn [option_map]. f_equal.
      rewrite Forall_forall in Hempty.
      now rewrite (Hempty c0 (nth_error_In _ _ Ec0)).
    + transitivity (@None Compound); [now apply nth_error_None |].
      symmetry. apply nth_error_None. lia.
Qed.

End RowFacts.

(** Three compounds at the distances 1.0, 2.0 and 3.0: the file is
    [0.0 1.0 2.0], [1.0 0.0 3.0], [2.0 3.0], and reading it back gives the
    sorted lists of the computation. *)
Lemma saved_distances_read_back_witness :
  save_rmsds toy_format false
    [blank_compound 0 [(1%nat, one); (2%nat, f2)] false;
     blank_compound 1 [(0%nat, one); (2%nat, f3)] false;
     blank_compound 2 [(0%nat, f2); (1%nat, f3)] false]
  = [("0.0" ++ tab ++ "1.0" ++ tab ++ "2.0" ++ newline)%string;
     ("1.0" ++ tab ++ "0.0" ++ tab ++ "3.0" ++ newline)%string;
     ("2.0" ++ tab ++ "3.0" ++ newline)%string] /\
  exists st cs',
    add_pairs [one; f2; f3] three_compounds = Ok st /\
    compute_distances [one; f2; f3] three_compounds = Ok cs' /\
    read_saved toy_parse false (save_rmsds toy_format false (fst st))
      three_compounds = Ok cs'.
Proof.
  split; [reflexivity |].
  apply (saved_distances_read_back toy_format toy_parse false
           [one; f2; f3] three_compounds).
  - repeat constructor.
  - cbn. lia.
  - intros d [<- | [<- | [<- | []]]]; reflexivity.
  - intros d [<- | [<- | [<- | []]]]; (split; [discriminate | reflexivity]).
Defined.

(** ** Reading the matrix *)

Lemma firstn_snoc {A : Type} (l : list A) (m : nat) (x : A) :
  nth_error l m = Some x -> firstn (S m) l = firstn m l ++ [x].
Proof.
  revert m. induction l as [|a l IH]; intros [|m] H; try discriminate H.
  - cbn in H. injection H as ->. reflexivity.
  - cbn [firstn app]. f_equal. now apply IH.
Qed.

Lemma combine_snoc {A B : Type} (l : list A) (l' : list B) (x : A) (y : B) :
  length l = length l' ->
  combine (l ++ [x]) (l' ++ [y]) = combine l l' ++ [(x, y)].
Proof.
  revert l'. induction l as [|a l IH]; intros [|b l'] H; try discriminate H.
  - reflexivity.
  - cbn [app combine]. f_equal. apply IH. now injection H.
Qed.

Lemma set_sig_id (c : Compound) : set_sig (sig c) c = c.
Proof. now destruct c. Qed.

Lemma dict_get_last (names : list string) (k : string) (l : nat) :
  nth_error names l = Some k ->
  (forall l' k', (l < l')%nat -> nth_error names l' = Some k' -> k' <> k) ->
  dict_get (rev (combine names (seq 0 (length names)))) k = Ok l.
Proof.
  revert l. induction names as [|x names IH] using rev_ind; intros l Hl Hlast.
  - destruct l; discriminate Hl.
  - rewrite length_app. cbn [length]. rewrite Nat.add_1_r, seq_S.
    cbn [Nat.add]. rewrite combine_snoc by (now rewrite length_seq).
    rewrite rev_app_distr. cbn [rev app dict_get].
    assert (Hlt : (l < S (length names))%nat).
    { assert (H : nth_error (names ++ [x]) l <> None) by congruence.
      apply nth_error_Some in H. rewrite length_app in H. cbn in H. lia. }
    destruct (String.eqb_spec x k) as [-> | Hne].
    + destruct (Nat.eq_dec l (length names)) as [-> | Hd]; [reflexivity |].
      exfalso. apply (Hlast (length names) k); [lia | | reflexivity].
      rewrite nth_error_app2, Nat.sub_diag by lia. reflexivity.
    + assert (Hl' : (l < length names)%nat).
      { destruct (Nat.eq_dec l (length names)) as [-> | Hd]; [| lia].
        rewrite nth_error_app2, Nat.sub_diag in Hl by lia.
        cbn in Hl. congruence. }
      rewrite nth_error_app1 in Hl by exact Hl'.
      apply IH; [exact Hl |]. intros l' k' Hll Hk'.
      apply (Hlast l' k' Hll).
      rewrite nth_error_app1; [exact Hk' |].
      apply nth_error_Some. congruence.
Qed.

Lemma append_scores (scores : list float) (cs : list Compound) :
  (length scores <= length cs)%nat ->
  exists cs',
    for_each (seq 0 (length scores)) (append_score scores) cs = Ok cs' /\
    length cs' = length cs /\
    forall i,
      nth_error cs' i
      = if (i <? length scores)%nat
        then option_map (fun c => set_sig (sig c ++ [nth i scores nan]) c)
                        (nth_error cs i)
        else nth_error cs i.
Proof.
  intros Hlen.
  destruct (for_each_seq_total
    (fun m s =>
       length s = length cs /\
       forall i,
         nth_error s i
         = if (i <? m)%nat
           then option_map (fun c => set_sig (sig c ++ [nth i scores nan]) c)
                           (nth_error cs i)
           else nth_error cs i)
    (append_score scores) (length scores) 0 cs) as [cs' [Hrun Hend]].
  - split; [reflexivity |]. intros i. reflexivity.
  - intros m s Hm [Hl Hs]. unfold append_score, getitem.
    destruct (nth_error scores m) as [d|] eqn:Ed.
    2:{ apply nth_error_None in Ed. lia. }
    destruct (nth_error s m) as [c|] eqn:Ec.
    2:{ apply nth_error_None in Ec. lia. }
    cbn [bind]. eexists. split; [reflexivity |].
    split; [now rewrite length_update_nth |].
    intros i. rewrite nth_error_update_nth, Hs.
    destruct (Nat.eqb_spec i m) as [-> | Hne].
    + rewrite Nat.ltb_irrefl. destruct (Nat.ltb_spec m (S m)); [| lia].
      now rewrite (nth_error_nth _ _ nan Ed).
    + destruct (Nat.ltb_spec i m), (Nat.ltb_spec i (S m)); try lia;
        reflexivity.
  - exists cs'. destruct Hend as [Hl Hs]. auto.
Qed.

Lemma read_matrix_line_step (n : nat) (m_lines : list (string * list float))
    (cs : list Compound) (m : nat) (st : Signatures) :
  (m < length m_lines)%nat -> (n <= length cs)%nat ->
  Forall (fun vec => length (snd vec) = n) m_lines ->
  matrix_invariant n m_lines cs m st ->
  exists st', read_matrix_line m_lines m st = Ok st' /\
              matrix_invariant n m_lines cs (S m) st'.
Proof.
  intros Hm Hn Hrect [Hp [Hd [Hl Hc]]]. unfold read_matrix_line, getitem.
  destruct (nth_error m_lines m) as [vec|] eqn:Ev.
  2:{ apply nth_error_None in Ev. lia. }
  cbn [bind].
  assert (Hvec : length (snd vec) = n).
  { rewrite Forall_forall in Hrect. apply Hrect. now apply nth_error_In with m. }
  destruct (append_scores (snd vec) (sg_compounds st)) as [cs' [-> [Hl' Hc']]];
    [lia |].
  cbn [bind]. eexists. split; [reflexivity |].
  unfold matrix_invariant.
  cbn [sg_proteins sg_protein_id_to_index sg_compounds].
  rewrite (firstn_snoc _ _ _ Ev), !map_app. cbn [map].
  split; [now rewrite Hp |]. split; [| split; [lia |]].
  - unfold dict_set. rewrite Hd, seq_S. cbn [Nat.add].
    rewrite combine_snoc.
    + rewrite rev_app_distr. reflexivity.
    + rewrite length_map, length_firstn, length_seq. lia.
  - intros i c Hi. rewrite Hc', Hvec, (Hc i c Hi). cbn [option_map].
    destruct (i <? n)%nat; [| reflexivity].
    unfold column. rewrite (firstn_snoc _ _ _ Ev), map_app. reflexivity.
Qed.

(** Reading a matrix whose lines all hold [n] scores, [n] being at most the
    number of compounds, into compounds with empty signatures: the compound
    at position [i < n] gets column [i] of the matrix as its signature, the
    proteins are the line names in order, and looking a protein up the way
    [quantify_pathways] does ([c.sig[self.protein_id_to_index[p.id_]]])
    gives the score of its line (the last line with that name) in the
    compound's column. *)
Theorem read_matrix_columns (n : nat) (m_lines : list (string * list float))
    (cs : list Compound) (self : CANDO) :
  Forall (fun c => sig c = []) cs -> (n <= length cs)%nat ->
  Forall (fun vec => length (snd vec) = n) m_lines ->
  exists st,
    read_matrix m_lines cs = Ok st /\
    map prot_id_ (sg_proteins st) = map fst m_lines /\
    (forall i c, nth_error cs i = Some c ->
       nth_error (sg_compounds st) i
       = Some (if (i <? n)%nat
               then set_sig (map (fun vec => nth i (snd vec) nan) m_lines) c
               else c)) /\
    (forall l vec i c',
       nth_error m_lines l = Some vec ->
       (forall l' vec', (l < l')%nat -> nth_error m_lines l' = Some vec' ->
                        fst vec' <> fst vec) ->
       (i < n)%nat -> nth_error (sg_compounds st) i = Some c' ->
       protein_score (with_signatures st self) c' (mkProtein (fst vec))
       = Ok (nth i (snd vec) nan)).
Proof.
  intros Hempty Hn Hrect. unfold read_matrix.
  destruct (for_each_seq_total (matrix_invariant n m_lines cs)
              (read_matrix_line m_lines) (length m_lines) 0
              (mkSignatures [] [] cs)) as [st [Hrun [Hp [Hd [Hl Hc]]]]].
  - unfold matrix_invariant, column.
    cbn [sg_proteins sg_protein_id_to_index sg_compounds firstn map seq
         combine rev].
    split; [reflexivity |]. split; [reflexivity |]. split; [reflexivity |].
    intros i c Hi. rewrite Hi. f_equal. destruct (i <? n)%nat; [| reflexivity].
    rewrite Forall_forall in Hempty.
    rewrite <- (Hempty c (nth_error_In _ _ Hi)). symmetry. apply set_sig_id.
  - intros m s Hm Hs. apply (read_matrix_line_step n); auto. lia.
  - cbn [Nat.add] in *. rewrite firstn_all in Hp, Hd.
    assert (Hcol : forall i, column i (length m_lines) m_lines
                             = map (fun vec => nth i (snd vec) nan) m_lines)
      by (intros i; unfold column; now rewrite firstn_all).
    exists st. split; [exact Hrun |]. split; [exact Hp |]. split.
    + intros i c Hi. rewrite (Hc i c Hi). now rewrite Hcol.
    + intros l vec i c' Hvec Hlast Hi Hc'.
      unfold protein_score, with_signatures.
      cbn [protein_id_to_index prot_id_]. rewrite Hd.
      rewrite <- (length_map fst m_lines) at 1.
      rewrite (dict_get_last (map fst m_lines) (fst vec) l).
      * cbn [bind]. unfold getitem.
        destruct (nth_error cs i) as [c|] eqn:Ec.
        2:{ apply nth_error_None in Ec. lia. }
        rewrite (Hc i c Ec) in Hc'. injection Hc' as <-.
        destruct (Nat.ltb_spec i n); [| lia].
        cbn [sig set_sig]. rewrite Hcol, nth_error_map, Hvec. reflexivity.
      * now rewrite nth_error_map, Hvec.
      * intros l' k' Hll Hk'. rewrite nth_error_map in Hk'.
        destruct (nth_error m_lines l') as [vec'|] eqn:Ev'; [| discriminate Hk'].
        cbn in Hk'. injection Hk' as <-. now apply (Hlast l' vec').
Qed.

(** Two proteins and three compounds: the second compound's signature is
    the second column, and the score of [P2] for it is read from there. *)
Lemma read_matrix_columns_witness :
  exists st,
    read_matrix two_by_three three_compounds = Ok st /\
    map sig (sg_compounds st) = [[one; f3]; [f2; f2]; [f3; one]] /\
    forall c', nth_error (sg_compounds st) 1 = Some c' ->
      protein_score (with_signatures st (sample_cando [])) c' (mkProtein "P2")
      = Ok f2.
Proof.
  destruct (read_matrix_columns 3 two_by_three three_compounds
              (sample_cando [])) as [st [Hrun [_ [_ Hscore]]]].
  - repeat constructor.
  - cbn. lia.
  - repeat constructor.
  - exists st. split; [exact Hrun |]. split.
    + vm_compute in Hrun. injection Hrun as <-. reflexivity.
    + intros c' Hc'.
      apply (Hscore 1%nat ("P2"%string, [f3; f2; one]) 1%nat c' eq_refl);
        [| lia | exact Hc'].
      intros [|[|l']] vec' Hl Hv; try lia. destruct l'; discriminate Hv.
Defined.

Lemma for_each_raises_inv {St : Type} (P : St -> Prop)
    (body : nat -> St -> result St) (e : exn) (m len a : nat) (st : St) :
  (a <= m < a + len)%nat -> P st ->
  (forall i s, (a <= i < m)%nat -> P s ->
               exists s', body i s = Ok s' /\ P s') ->
  (forall s, P s -> body m s = Raise e) ->
  for_each (seq a len) body st = Raise e.
Proof.
  revert a st. induction len as [|len IH]; intros a st Hm H0 Hok Hbad; [lia |].
  cbn [seq for_each]. destruct (Nat.eq_dec a m) as [-> | Hne].
  - now rewrite Hbad.
  - destruct (Hok a st ltac:(lia) H0) as [s' [-> H1]]. cbn [bind].
    apply (IH (S a) s'); [lia | exact H1 | | exact Hbad].
    intros i s Hi. apply Hok. lia.
Qed.

Lemma first_long_line (k : nat) (m_lines : list (string * list float)) :
  Exists (fun vec => (k < length (snd vec))%nat) m_lines ->
  exists m vec,
    nth_error m_lines m = Some vec /\ (k < length (snd vec))%nat /\
    forall l vec', (l < m)%nat -> nth_error m_lines l = Some vec' ->
                   (length (snd vec') <= k)%nat.
Proof.
  induction m_lines as [|x rest IH]; intros H; [inversion H |].
  destruct (Nat.lt_ge_cases k (length (snd x))) as [Hlong | Hshort].
  - exists 0%nat, x. split; [reflexivity |]. split; [exact Hlong |].
    intros l vec' Hl. lia.
  - assert (Hrest : Exists (fun vec => (k < length (snd vec))%nat) rest).
    { inversion H as [? ? Hx | ? ? Hr]; subst; [lia | exact Hr]. }
    destruct (IH Hrest) as [m [vec [Hm [Hlong Hbefore]]]].
    exists (S m), vec. split; [exact Hm |]. split; [exact Hlong |].
    intros [|l] vec' Hl Hv; cbn [nth_error] in Hv.
    + now injection Hv as <-.
    + apply (Hbefore l vec'); [lia | exact Hv].
Qed.

(** A matrix line that holds more scores than there are compounds ends the
    reading in [IndexError]. *)
Theorem read_matrix_long_line (m_lines : list (string * list float))
    (cs : list Compound) :
  Exists (fun vec => (length cs < length (snd vec))%nat) m_lines ->
  read_matrix m_lines cs = Raise IndexError.
Proof.
  intros Hex.
  destruct (first_long_line (length cs) m_lines Hex)
    as [m [vec [Hm [Hlong Hbefore]]]].
  assert (Hlt : (m < length m_lines)%nat)
    by (apply nth_error_Some; congruence).
  unfold read_matrix.
  apply (for_each_raises_inv
           (fun s => length (sg_compounds s) = length cs) _ IndexError m);
    [lia | reflexivity | |].
  - intros l s Hl Hs. unfold read_matrix_line, getitem.
    destruct (nth_error m_lines l) as [vec'|] eqn:Ev.
    2:{ apply nth_error_None in Ev. lia. }
    cbn [bind].
    destruct (append_scores (snd vec') (sg_compounds s)) as [cs' [-> [Hl' _]]].
    { rewrite Hs. apply (Hbefore l vec'); [lia | exact Ev]. }
    cbn [bind]. eexists. split; [reflexivity |].
    cbn [sg_compounds]. lia.
  - intros s Hs. unfold read_matrix_line, getitem. rewrite Hm. cbn [bind].
    rewrite (for_each_raises_inv
               (fun s' : list Compound => length s' = length cs)
               (append_score (snd vec)) IndexError (length cs));
      [reflexivity | lia | exact Hs | |].
    + intros i s' Hi Hs'. unfold append_score, getitem.
      destruct (nth_error (snd vec) i) as [d|] eqn:Ed.
      2:{ apply nth_error_None in Ed. lia. }
      destruct (nth_error s' i) as [c|] eqn:Ec.
      2:{ apply nth_error_None in Ec. lia. }
      cbn [bind]. eexists. split; [reflexivity |].
      now rewrite length_update_nth.
    + intros s' Hs'. unfold append_score, getitem.
      destruct (nth_error (snd vec) (length cs)) as [d|] eqn:Ed.
      2:{ apply nth_error_None in Ed. lia. }
      destruct (nth_error s' (length cs)) as [c|] eqn:Ec; [| reflexivity].
      assert (H : nth_error s' (length cs) <> None) by congruence.
      apply nth_error_Some in H. lia.
Qed.

Lemma read_matrix_long_line_witness :
  read_matrix two_by_three twin_compounds = Ok
    (mkSignatures [mkProtein "P1"; mkProtein "P2"]
       [("P2"%string, 1%nat); ("P1"%string, 0%nat)]
       (map (fun p => set_sig (snd p) (fst p))
            (combine twin_compounds [[one; f3]; [f2; f2]; [f3; one]]))) /\
  read_matrix two_by_three [blank_compound 5 [] false; blank_compound 7 [] false]
  = Raise IndexError.
Proof.
  split; [reflexivity |].
  apply read_matrix_long_line. left. cbn. lia.
Defined.

(** ** Reading the indication mapping *)

Lemma position_of_id_range (i : Z) (cs : list Compound) (k p : nat) :
  position_of_id i cs k = Some p -> (k <= p < k + length cs)%nat.
Proof.
  revert k. induction cs as [|c cs IH]; intros k H; [discriminate H |].
  cbn [position_of_id length] in *. destruct (id_ c =? i).
  - injection H as <-. lia.
  - apply IH in H. lia.
Qed.

Lemma position_of_indication_found (x : string) (inds : list Indication)
    (k : nat) :
  existsb (String.eqb x) (map ind_id_ inds) = true ->
  exists t, position_of_indication x inds k = Ok t /\
            (k <= t < k + length inds)%nat.
Proof.
  revert k. induction inds as [|i inds IH]; intros k H; [discriminate H |].
  cbn [map existsb position_of_indication length] in *.
  destruct (String.eqb_spec (ind_id_ i) x) as [E | Hne].
  - exists k. split; [reflexivity | lia].
  - destruct (String.eqb_spec x (ind_id_ i)) as [E | _]; [congruence |].
    cbn [orb] in H. destruct (IH (S k) H) as [t [Ht Hr]].
    exists t. split; [exact Ht | lia].
Qed.

Lemma map_ind_id_update_nth (f : Indication -> Indication) (t : nat)
    (inds : list Indication) :
  (forall i, ind_id_ (f i) = ind_id_ i) ->
  map ind_id_ (update_nth t f inds) = map ind_id_ inds.
Proof.
  intros Hf. revert t. induction inds as [|a l IH]; intros [|t]; cbn;
    try reflexivity.
  - now rewrite Hf.
  - now rewrite IH.
Qed.

Lemma count_occ_snoc (l : list nat) (x y : nat) :
  count_occ Nat.eq_dec (l ++ [x]) y
  = (count_occ Nat.eq_dec l y + if Nat.eq_dec x y then 1 else 0)%nat.
Proof.
  rewrite count_occ_app. cbn [count_occ]. now destruct (Nat.eq_dec x y).
Qed.

Lemma map_line_consistent (cs : list Compound) (line : Z * string * string)
    (st : Mapping) :
  mapping_consistent cs st ->
  exists st', map_line cs line st = Ok st' /\ mapping_consistent cs st'.
Proof.
  intros [Hids [Hnd [Hlen [Hvalid [Hmem Hcount]]]]].
  destruct line as [[c_id i_name] ind_id]. unfold map_line.
  destruct (position_of_id c_id cs 0) as [cm|] eqn:Ecm.
  2:{ exists st. split; [reflexivity |]. repeat split; auto;
      try (now apply (Hmem t ind)). }
  apply position_of_id_range in Ecm. cbn [Nat.add] in Ecm.
  destruct (existsb (String.eqb ind_id) (mp_indication_ids st)) eqn:Eex.
  - rewrite Hids in Eex.
    destruct (position_of_indication_found ind_id _ 0 Eex) as [t0 [-> Ht0]].
    cbn [bind Nat.add] in *. eexists. split; [reflexivity |].
    unfold mapping_consistent.
    cbn [mp_indications mp_indication_ids mp_compound_indications].
    split; [rewrite map_ind_id_update_nth; auto |].
    split; [exact Hnd |].
    split; [now rewrite length_update_nth |].
    split; [| split].
    + intros k l t Hk Hin. rewrite length_update_nth.
      rewrite nth_error_update_nth in Hk.
      destruct (Nat.eqb_spec k cm) as [-> | _]; [| now apply (Hvalid k l)].
      destruct (nth_error (mp_compound_indications st) cm) as [l0|] eqn:El0;
        [| discriminate Hk].
      cbn in Hk. injection Hk as <-.
      apply in_app_or in Hin as [Hin | [<- | []]]; [| lia].
      now apply (Hvalid cm l0).
    + intros t ind Ht. rewrite nth_error_update_nth in Ht.
      destruct (Nat.eqb_spec t t0) as [-> | _]; [| now apply (Hmem t)].
      destruct (nth_error (mp_indications st) t0) as [i0|] eqn:Ei0;
        [| discriminate Ht].
      cbn in Ht. injection Ht as <-. cbn [add_compound ind_compounds].
      split; [destruct (ind_compounds i0); discriminate |].
      intros k Hin. apply in_app_or in Hin as [Hin | [<- | []]]; [| lia].
      now apply (proj2 (Hmem t0 i0 Ei0)).
    + intros k l t ind Hk Ht.
      rewrite nth_error_update_nth in Hk. rewrite nth_error_update_nth in Ht.
      destruct (nth_error (mp_compound_indications st) k) as [l0|] eqn:El0;
        [| destruct (Nat.eqb k cm); discriminate Hk].
      destruct (nth_error (mp_indications st) t) as [i0|] eqn:Ei0;
        [| destruct (Nat.eqb t t0); discriminate Ht].
      pose proof (Hcount k l0 t i0 El0 Ei0) as Hc.
      destruct (Nat.eqb_spec k cm) as [-> | Hk'],
               (Nat.eqb_spec t t0) as [-> | Ht'];
        cbn [option_map] in Hk, Ht; injection Hk as <-; injection Ht as <-;
        cbn [add_compound ind_compounds]; rewrite ?count_occ_snoc, Hc.
      * destruct (Nat.eq_dec t0 t0), (Nat.eq_dec cm cm); congruence.
      * destruct (Nat.eq_dec t0 t); [congruence | lia].
      * destruct (Nat.eq_dec cm k); [congruence | lia].
      * reflexivity.
  - cbn [bind]. eexists. split; [reflexivity |].
    unfold mapping_consistent.
    cbn [mp_indications mp_indication_ids mp_compound_indications].
    split; [rewrite map_app, Hids; reflexivity |].
    split.
    { apply (Permutation_NoDup (Permutation_cons_append _ ind_id)).
      constructor; [| exact Hnd]. intros Hin.
      assert (H : existsb (String.eqb ind_id) (mp_indication_ids st) = true).
      { apply existsb_exists. exists ind_id. split; [exact Hin |].
        apply String.eqb_refl. }
      congruence. }
    split; [now rewrite length_update_nth |].
    split; [| split].
    + intros k l t Hk Hin. rewrite length_app. cbn [length].
      rewrite nth_error_update_nth in Hk.
      destruct (Nat.eqb_spec k cm) as [-> | _].
      * destruct (nth_error (mp_compound_indications st) cm) as [l0|] eqn:El0;
          [| discriminate Hk].
        cbn in Hk. injection Hk as <-.
        apply in_app_or in Hin as [Hin | [<- | []]]; [| lia].
        pose proof (Hvalid cm l0 t El0 Hin). lia.
      * pose proof (Hvalid k l t Hk Hin). lia.
    + intros t ind Ht.
      destruct (Nat.lt_ge_cases t (length (mp_indications st))) as [Hlt | Hge].
      * rewrite nth_error_app1 in Ht by exact Hlt. now apply (Hmem t).
      * rewrite nth_error_app2 in Ht by exact Hge.
        destruct (t - length (mp_indications st))%nat as [|d];
          [| destruct d; discriminate Ht].
        cbn in Ht. injection Ht as <-. cbn [ind_compounds].
        split; [discriminate |]. intros k [<- | []]. lia.
    + intros k l t ind Hk Ht. rewrite nth_error_update_nth in Hk.
      destruct (nth_error (mp_compound_indications st) k) as [l0|] eqn:El0;
        [| destruct (Nat.eqb k cm); discriminate Hk].
      assert (Hfresh : count_occ Nat.eq_dec l0 (length (mp_indications st))
                       = 0%nat).
      { apply count_occ_not_In. intros Hin.
        pose proof (Hvalid k l0 _ El0 Hin). lia. }
      destruct (Nat.lt_ge_cases t (length (mp_indications st))) as [Hlt | Hge].
      * rewrite nth_error_app1 in Ht by exact Hlt.
        pose proof (Hcount k l0 t ind El0 Ht) as Hc.
        destruct (Nat.eqb_spec k cm) as [-> | _]; cbn [option_map] in Hk;
          injection Hk as <-; rewrite ?count_occ_snoc, Hc; [| reflexivity].
        destruct (Nat.eq_dec (length (mp_indications st)) t); lia.
      * rewrite nth_error_app2 in Ht by exact Hge.
        destruct (t - length (mp_indications st))%nat as [|d] eqn:Ed;
          [| destruct d; discriminate Ht].
        cbn in Ht. injection Ht as <-. cbn [ind_compounds count_occ].
        assert (t = length (mp_indications st)) as -> by lia.
        destruct (Nat.eqb_spec k cm) as [-> | Hk']; cbn [option_map] in Hk;
          injection Hk as <-; rewrite ?count_occ_snoc, Hfresh.
        -- destruct (Nat.eq_dec (length (mp_indications st))
                       (length (mp_indications st))),
                    (Nat.eq_dec cm cm); first [reflexivity | congruence].
        -- destruct (Nat.eq_dec cm k); first [reflexivity | congruence].
Qed.

Lemma read_indications_consistent (cs : list Compound)
    (lines : list (Z * string * string)) (st : Mapping) :
  mapping_consistent cs st ->
  exists st', read_indications cs lines st = Ok st' /\
              mapping_consistent cs st'.
Proof.
  revert st. induction lines as [|line rest IH]; intros st Hst.
  - exists st. split; [reflexivity | exact Hst].
  - destruct (map_line_consistent cs line st Hst) as [st1 [H1 Hst1]].
    destruct (IH st1 Hst1) as [st' [H' Hst']].
    exists st'. split; [| exact Hst']. cbn [read_indications].
    now rewrite H1.
Qed.

(** Whatever the lines of the indication mapping, the loop that reads them
    ends without an exception ([get_indication] is only called on ids that
    are present, and a line whose compound id is unknown is passed over),
    and leaves the two directions of the association in agreement: the ids
    recorded are those of the indications, without repetition; every
    indication has a compound; and an indication is listed for a compound
    exactly as often as the compound is listed for the indication. *)
Theorem indication_mapping_consistent (cs : list Compound)
    (lines : list (Z * string * string)) :
  exists st,
    read_indications cs lines (no_mapping cs) = Ok st /\
    mapping_consistent cs st.
Proof.
  apply read_indications_consistent. unfold mapping_consistent, no_mapping.
  cbn [mp_indications mp_indication_ids mp_compound_indications map length].
  split; [reflexivity |]. split; [constructor |].
  split; [apply length_map |]. split; [| split].
  - intros k l t Hk Hin. rewrite nth_error_map in Hk.
    destruct (nth_error cs k); [| discriminate Hk].
    cbn in Hk. injection Hk as <-. destruct Hin.
  - intros t ind Ht. destruct t; discriminate Ht.
  - intros k l t ind Hk Ht. destruct t; discriminate Ht.
Qed.

(** Five lines read into three compounds with the ids 5, 5 and 7: the line
    for the unknown id 9 is passed over, the first compound with id 5 is the
    one associated, and the indication keeps the name of its first line. *)
Example read_indications_five_lines :
  read_indications twin_compounds five_lines (no_mapping twin_compounds)
  = Ok (mkMapping
          [mkIndication "MESH:D1" "asthma" [0; 2; 2]%nat [];
           mkIndication "MESH:D2" "gout" [2%nat] []]
          ["MESH:D1"%string; "MESH:D2"%string]
          [[0%nat]; []; [0; 1; 0]%nat]).
Proof. reflexivity. Qed.

(** ** The votes of [canpredict_compounds] *)

Lemma dict_has_spec (k : Z) (d : list (Z * Vote)) :
  dict_has k d = true <-> In k (map fst d).
Proof.
  unfold dict_has. rewrite existsb_exists, in_map_iff. split.
  - intros [kv [Hin E]]. apply Z.eqb_eq in E. now exists kv.
  - intros [kv [E Hin]]. exists kv. split; [exact Hin |]. now apply Z.eqb_eq.
Qed.

Lemma dict_update_keys (k : Z) (f : Vote -> Vote) (d : list (Z * Vote)) :
  map fst (dict_update k f d) = map fst d.
Proof.
  induction d as [|[k' v] d IH]; [reflexivity |].
  cbn [dict_update]. destruct (k' =? k); cbn [map fst]; [reflexivity |].
  now rewrite IH.
Qed.

Lemma dict_update_in (k : Z) (f : Vote -> Vote) (d : list (Z * Vote))
    (k' : Z) (v' : Vote) :
  NoDup (map fst d) -> In (k', v') (dict_update k f d) ->
  (k' <> k /\ In (k', v') d) \/ (k' = k /\ exists v, In (k, v) d /\ v' = f v).
Proof.
  induction d as [|[k0 v0] d IH]; intros Hnd Hin; [destruct Hin |].
  cbn [map fst] in Hnd. inversion Hnd as [|? ? Hk0 Hd]; subst.
  cbn [dict_update] in Hin. destruct (Z.eqb_spec k0 k) as [-> | Hne].
  - destruct Hin as [E | Hin].
    + injection E as <- <-. right. split; [reflexivity |].
      exists v0. split; [now left | reflexivity].
    + left. split; [| now right]. intros ->. apply Hk0.
      apply in_map_iff. now exists (k, v').
  - destruct Hin as [E | Hin].
    + injection E as <- <-. left. split; [exact Hne | now left].
    + destruct (IH Hd Hin) as [[H1 H2] | [H1 [v [H2 H3]]]].
      * left. split; [exact H1 | now right].
      * right. split; [exact H1 |]. exists v. split; [now right | exact H3].
Qed.

Section VotesFacts.

Variable id_of : cref -> Z.
Variable approved_for : cref -> bool.

Lemma votes_for_snoc (k : Z) (l : list (nat * neighbor)) (e : nat * neighbor) :
  votes_for id_of k (l ++ [e])
  = votes_for id_of k l
    ++ (if negb (SFeqb (snd (snd e)) zero) && (id_of (fst (snd e)) =? k)
        then [e] else []).
Proof.
  unfold votes_for. rewrite filter_app. reflexivity.
Qed.

Lemma rank_sum_snoc (l : list (nat * neighbor)) (e : nat * neighbor) :
  rank_sum (l ++ [e]) = rank_sum l + Z.of_nat (fst e).
Proof.
  unfold rank_sum. induction l as [|x l IH]; cbn [app fold_right]; lia.
Qed.

Lemma first_approved_snoc (l : list (nat * neighbor)) (e : nat * neighbor) :
  l <> [] ->
  first_approved approved_for (l ++ [e]) = first_approved approved_for l.
Proof.
  destruct l; [contradiction | reflexivity].
Qed.

Lemma tally_tallied (l : list (nat * neighbor)) (c2_i : nat) (c2 : neighbor)
    (d : list (Z * Vote)) :
  tallied id_of approved_for l d ->
  tallied id_of approved_for (l ++ [(c2_i, c2)])
          (tally id_of approved_for c2_i c2 d).
Proof.
  intros [Hnd [Hkeys Hvals]]. unfold tally.
  destruct (SFeqb (snd c2) zero) eqn:Ez.
  - assert (Hsame : forall k, votes_for id_of k (l ++ [(c2_i, c2)])
                              = votes_for id_of k l).
    { intros k. rewrite votes_for_snoc. cbn [snd fst]. rewrite Ez.
      cbn [negb andb]. apply app_nil_r. }
    split; [exact Hnd |]. split.
    + intros k. now rewrite Hsame, Hkeys.
    + intros k v Hin. rewrite Hsame. now apply Hvals.
  - set (k0 := id_of (fst c2)).
    assert (Hsnoc : forall k, votes_for id_of k (l ++ [(c2_i, c2)])
                              = votes_for id_of k l
                                ++ (if k0 =? k then [(c2_i, c2)] else [])).
    { intros k. rewrite votes_for_snoc. cbn [snd fst]. rewrite Ez.
      reflexivity. }
    assert (Hother : forall k, k <> k0 ->
                               votes_for id_of k (l ++ [(c2_i, c2)])
                               = votes_for id_of k l).
    { intros k Hk. rewrite Hsnoc. destruct (Z.eqb_spec k0 k); [congruence |].
      apply app_nil_r. }
    assert (Hown : votes_for id_of k0 (l ++ [(c2_i, c2)])
                   = votes_for id_of k0 l ++ [(c2_i, c2)])
      by (rewrite Hsnoc, Z.eqb_refl; reflexivity).
    destruct (dict_has k0 d) eqn:Ehas; cbn [negb].
    + apply dict_has_spec in Ehas. split; [| split].
      * now rewrite dict_update_keys.
      * intros k. rewrite dict_update_keys, Hkeys.
        destruct (Z.eq_dec k k0) as [-> | Hk]; [| now rewrite Hother].
        rewrite Hown. split; intros _; [| now apply Hkeys].
        destruct (votes_for id_of k0 l); discriminate.
      * intros k v Hin.
        destruct (dict_update_in _ _ _ _ _ Hnd Hin)
          as [[Hk Hold] | [-> [v0 [Hold ->]]]].
        -- rewrite Hother by exact Hk. now apply Hvals.
        -- destruct (Hvals k0 v0 Hold) as [Hc [Hr Ha]].
           assert (Hne : votes_for id_of k0 l <> []) by (now apply Hkeys).
           rewrite Hown, length_app, rank_sum_snoc,
             first_approved_snoc by exact Hne.
           cbn [v_count v_ranks v_approved length fst].
           rewrite Hc, Hr, Ha. repeat split; lia.
    + assert (Hfresh : ~ In k0 (map fst d)).
      { intros Hin. apply dict_has_spec in Hin. congruence. }
      assert (Hnone : votes_for id_of k0 l = []).
      { destruct (votes_for id_of k0 l) eqn:E; [reflexivity |].
        exfalso. apply Hfresh, Hkeys. rewrite E. discriminate. }
      split; [| split].
      * rewrite map_app. cbn [map fst].
        apply (Permutation_NoDup (Permutation_cons_append _ k0)).
        now constructor.
      * intros k. rewrite map_app, in_app_iff. cbn [map fst In].
        destruct (Z.eq_dec k k0) as [-> | Hk].
        -- rewrite Hown, Hnone. cbn [app]. split; [discriminate | auto].
        -- rewrite Hother, <- Hkeys by exact Hk. split; [| auto].
           intros [H | [H | []]]; [exact H | congruence].
      * intros k v Hin. apply in_app_or in Hin as [Hin | [E | []]].
        -- assert (Hk : k <> k0).
           { intros ->. apply Hfresh. apply in_map_iff. now exists (k0, v). }
           rewrite Hother by exact Hk. now apply Hvals.
        -- injection E as <- <-. rewrite Hown, Hnone.
           cbn. repeat split; lia.
Qed.

Lemma vote_steps (similar : list neighbor) (n : nat)
    (l : list (nat * neighbor)) (d : list (Z * Vote)) :
  (n <= length similar)%nat -> tallied id_of approved_for l d ->
  exists d',
    for_each (seq 0 n) (vote_step id_of approved_for similar) d = Ok d' /\
    tallied id_of approved_for (l ++ combine (seq 0 n) (firstn n similar)) d'.
Proof.
  intros Hn Hd. induction n as [|n IH].
  - exists d. split; [reflexivity |]. cbn [seq combine]. now rewrite app_nil_r.
  - destruct (IH ltac:(lia)) as [d1 [Hrun Hd1]].
    destruct (nth_error similar n) as [c2|] eqn:Ec2.
    2:{ apply nth_error_None in Ec2. lia. }
    exists (tally id_of approved_for n c2 d1). split.
    + rewrite seq_S, for_each_app, Hrun. cbn [bind Nat.add for_each].
      unfold vote_step, getitem. rewrite Ec2. reflexivity.
    + rewrite seq_S, (firstn_snoc _ _ _ Ec2). cbn [Nat.add].
      rewrite combine_snoc by (rewrite length_seq, length_firstn; lia).
      rewrite app_assoc. now apply tally_tallied.
Qed.

Lemma rank_sum_bound (n : nat) (l : list (nat * neighbor)) :
  (forall e, In e l -> (fst e < n)%nat) ->
  0 <= rank_sum l <= (Z.of_nat n - 1) * Z.of_nat (length l).
Proof.
  intros H. induction l as [|e l IH]; [cbn; lia |].
  cbn [rank_sum fold_right length]. fold (rank_sum l).
  assert (Hl : 0 <= rank_sum l <= (Z.of_nat n - 1) * Z.of_nat (length l))
    by (apply IH; intros x Hx; apply H; now right).
  pose proof (H e (or_introl eq_refl)). nia.
Qed.

Lemma visited_positions (n : nat) (members : list (list neighbor))
    (e : nat * neighbor) :
  In e (visited n members) -> (fst e < n)%nat.
Proof.
  unfold visited. rewrite in_flat_map. intros [similar [_ Hin]].
  destruct e as [p c2]. apply in_combine_l in Hin. apply in_seq in Hin.
  cbn [fst]. lia.
Qed.

(** The votes.  When every compound of the indication has at least [n]
    neighbors the loop ends normally, and the dict it leaves has one item
    per compound id that received a vote, where a vote is a neighbor with a
    non-zero distance among the first [n] of a member's list: the count is
    the number of votes for the id, the rank sum adds the positions of these
    neighbors (so the average rank lies between 0 and [n - 1]), and the
    approval flag is the one of the first voter. *)
Theorem canpredict_votes (members : list (list neighbor)) (n : Z) :
  Forall (fun similar => n <= Z.of_nat (length similar)) members ->
  exists c_dct,
    votes id_of approved_for members n = Ok c_dct /\
    NoDup (map fst c_dct) /\
    (forall k, In k (map fst c_dct)
               <-> votes_for id_of k (visited (Z.to_nat n) members) <> []) /\
    forall k v, In (k, v) c_dct ->
      let voters := votes_for id_of k (visited (Z.to_nat n) members) in
      v_count v = Z.of_nat (length voters) /\ 1 <= v_count v /\
      v_ranks v = rank_sum voters /\
      0 <= v_ranks v <= (Z.max n 0 - 1) * v_count v /\
      v_approved v = first_approved approved_for voters.
Proof.
  intros Hall. unfold votes.
  assert (Hloop : forall ms l d,
            Forall (fun similar => n <= Z.of_nat (length similar)) ms ->
            tallied id_of approved_for l d ->
            exists d',
              for_in ms
                (fun similar c_dct =>
                   for_each (seq 0 (Z.to_nat n))
                     (vote_step id_of approved_for similar) c_dct) d
              = Ok d' /\
              tallied id_of approved_for (l ++ visited (Z.to_nat n) ms) d').
  { induction ms as [|similar ms IH]; intros l d Hms Hd.
    - exists d. split; [reflexivity |]. cbn. now rewrite app_nil_r.
    - inversion Hms as [|? ? Hs Hrest]; subst.
      destruct (vote_steps similar (Z.to_nat n) l d ltac:(lia) Hd)
        as [d1 [Hrun Hd1]].
      destruct (IH _ d1 Hrest Hd1) as [d' [Hrun' Hd']].
      exists d'. split.
      + cbn [for_in]. now rewrite Hrun.
      + unfold visited in *. cbn [flat_map]. now rewrite app_assoc. }
  destruct (Hloop members [] [] Hall) as [d [Hrun [Hnd [Hkeys Hvals]]]].
  { split; [constructor |]. split; [| intros k v []].
    intros k. cbn. tauto. }
  cbn [app] in *. exists d. split; [exact Hrun |]. split; [exact Hnd |].
  split; [exact Hkeys |]. intros k v Hin. cbv zeta.
  destruct (Hvals k v Hin) as [Hc [Hr Ha]].
  assert (Hne : votes_for id_of k (visited (Z.to_nat n) members) <> []).
  { apply Hkeys. apply in_map_iff. now exists (k, v). }
  assert (Hpos : (0 < length (votes_for id_of k
                                (visited (Z.to_nat n) members)))%nat).
  { destruct (votes_for id_of k (visited (Z.to_nat n) members));
      [contradiction | cbn; lia]. }
  pose proof (rank_sum_bound (Z.to_nat n)
                (votes_for id_of k (visited (Z.to_nat n) members))) as Hb.
  assert (Hb' : 0 <= rank_sum (votes_for id_of k
                                 (visited (Z.to_nat n) members))
                <= (Z.of_nat (Z.to_nat n) - 1)
                   * Z.of_nat (length (votes_for id_of k
                                         (visited (Z.to_nat n) members)))).
  { apply Hb. intros e He. unfold votes_for in He. apply filter_In in He.
    apply (visited_positions _ members), He. }
  rewrite Hc, Hr, Ha. replace (Z.max n 0) with (Z.of_nat (Z.to_nat n)) by lia.
  repeat split; lia.
Qed.

End VotesFacts.

(** Two compounds of an indication, two neighbors each taken: the compound
    with id 7 is voted for twice, at the positions 0 and 1; the neighbor at
    distance 0.0 does not vote. *)
Lemma canpredict_votes_witness :
  votes (fun k => Z.of_nat k + 5) (fun k => Nat.eqb k 3)
    [[(2%nat, one); (3%nat, f2); (4%nat, f3)];
     [(1%nat, zero); (2%nat, f2); (3%nat, f3)]] 2
  = Ok [(7, mkVote 2 false 1); (8, mkVote 1 true 1)].
Proof.
  destruct (canpredict_votes (fun k => Z.of_nat k + 5) (fun k => Nat.eqb k 3)
              [[(2%nat, one); (3%nat, f2); (4%nat, f3)];
               [(1%nat, zero); (2%nat, f2); (3%nat, f3)]] 2)
    as [d [Hrun _]].
  - repeat constructor; cbn; lia.
  - rewrite Hrun. vm_compute in Hrun. symmetry. exact Hrun.
Defined.

(** ** The rows of [canpredict_indications] *)

Section SortedDescFacts.

Context {A : Type}.
Variable key : A -> Z.

Lemma insert_desc_perm (x : A) (l : list A) :
  Permutation (insert_desc key x l) (x :: l).
Proof.
  induction l as [|y l IH]; cbn [insert_desc]; [reflexivity |].
  destruct (key x <? key y); [| reflexivity].
  rewrite IH. apply perm_swap.
Qed.

Lemma sorted_desc_perm (l : list A) : Permutation (sorted_desc key l) l.
Proof.
  induction l as [|x l IH]; [reflexivity |].
  cbn [sorted_desc fold_right]. fold (sorted_desc key l).
  rewrite insert_desc_perm. now constructor.
Qed.

Lemma insert_desc_sorted (x : A) (l : list A) :
  StronglySorted (fun a b => key b <= key a) l ->
  StronglySorted (fun a b => key b <= key a) (insert_desc key x l).
Proof.
  induction 1 as [|y l Hs IH Hy]; cbn [insert_desc]; [repeat constructor |].
  destruct (Z.ltb_spec (key x) (key y)) as [Hlt | Hge].
  - constructor; [exact IH |].
    apply (Permutation_Forall (Permutation_sym (insert_desc_perm x l))).
    constructor; [lia | exact Hy].
  - constructor; [now constructor |].
    constructor; [lia |]. rewrite Forall_forall in *.
    intros z Hz. specialize (Hy z Hz). lia.
Qed.

Lemma sorted_desc_sorted (l : list A) :
  StronglySorted (fun a b => key b <= key a) (sorted_desc key l).
Proof.
  induction l as [|x l IH]; [constructor |].
  cbn [sorted_desc fold_right]. now apply insert_desc_sorted.
Qed.

End SortedDescFacts.

Lemma counts_has_spec (k : string) (d : list (string * Z)) :
  counts_has k d = true <-> In k (map fst d).
Proof.
  unfold counts_has. rewrite existsb_exists, in_map_iff. split.
  - intros [kv [Hin E]]. apply String.eqb_eq in E. now exists kv.
  - intros [kv [E Hin]]. exists kv. split; [exact Hin |].
    now apply String.eqb_eq.
Qed.

Lemma counts_incr_keys (k : string) (d : list (string * Z)) :
  map fst (counts_incr k d) = map fst d.
Proof.
  induction d as [|[k' v] d IH]; [reflexivity |].
  cbn [counts_incr]. destruct (String.eqb k' k); cbn [map fst];
    [reflexivity |]. now rewrite IH.
Qed.

Lemma counts_incr_in (k : string) (d : list (string * Z)) (k' : string)
    (v' : Z) :
  NoDup (map fst d) -> In (k', v') (counts_incr k d) ->
  (k' <> k /\ In (k', v') d) \/ (k' = k /\ In (k, v' - 1) d).
Proof.
  induction d as [|[k0 v0] d IH]; intros Hnd Hin; [destruct Hin |].
  cbn [map fst] in Hnd. inversion Hnd as [|? ? Hk0 Hd]; subst.
  cbn [counts_incr] in Hin. destruct (String.eqb_spec k0 k) as [-> | Hne].
  - destruct Hin as [E | Hin].
    + injection E as <- <-. right. split; [reflexivity |].
      left. f_equal. lia.
    + left. split; [| now right]. intros ->. apply Hk0.
      apply in_map_iff. now exists (k, v').
  - destruct Hin as [E | Hin].
    + injection E as <- <-. left. split; [exact Hne | now left].
    + destruct (IH Hd Hin) as [[H1 H2] | [H1 H2]].
      * left. split; [exact H1 | now right].
      * right. split; [exact H1 | now right].
Qed.

Lemma count_occ_snoc_string (l : list string) (x y : string) :
  count_occ string_dec (l ++ [x]) y
  = (count_occ string_dec l y + if string_dec x y then 1 else 0)%nat.
Proof.
  rewrite count_occ_app. cbn [count_occ]. now destruct (string_dec x y).
Qed.

Lemma count_indication_counted (l : list string) (ind_id : string)
    (d : list (string * Z)) :
  counted l d -> counted (l ++ [ind_id]) (count_indication d ind_id).
Proof.
  intros [Hnd [Hkeys Hvals]]. unfold count_indication.
  destruct (counts_has ind_id d) eqn:Ehas; cbn [negb].
  - apply counts_has_spec in Ehas. split; [| split].
    + now rewrite counts_incr_keys.
    + intros k. rewrite counts_incr_keys, Hkeys, in_app_iff. cbn [In].
      split; [auto |]. intros [H | [<- | []]]; [exact H | now apply Hkeys].
    + intros k v Hin. rewrite count_occ_snoc_string.
      destruct (counts_incr_in _ _ _ _ Hnd Hin) as [[Hk Hold] | [-> Hold]].
      * rewrite (Hvals k v Hold).
        destruct (string_dec ind_id k); [congruence | lia].
      * pose proof (Hvals ind_id _ Hold).
        destruct (string_dec ind_id ind_id); [lia | congruence].
  - assert (Hfresh : ~ In ind_id (map fst d)).
    { intros Hin. apply counts_has_spec in Hin. congruence. }
    split; [| split].
    + rewrite map_app. cbn [map fst].
      apply (Permutation_NoDup (Permutation_cons_append _ ind_id)).
      now constructor.
    + intros k. rewrite map_app, !in_app_iff, Hkeys. reflexivity.
    + intros k v Hin. rewrite count_occ_snoc_string.
      apply in_app_or in Hin as [Hin | [E | []]].
      * rewrite (Hvals k v Hin).
        destruct (string_dec ind_id k) as [<- |]; [| lia].
        exfalso. apply Hfresh. apply in_map_iff. now exists (ind_id, v).
      * injection E as <- <-.
        assert (H0 : count_occ string_dec l ind_id = 0%nat).
        { apply count_occ_not_In. intros Hin. now apply Hfresh, Hkeys. }
        rewrite H0. destruct (string_dec ind_id ind_id); [lia | congruence].
Qed.

Section PredictFacts.

Variable indications_of : cref -> list string.

Lemma count_indications_counted (similar : list neighbor) (n : Z) :
  counted (listed indications_of similar n)
          (count_indications indications_of similar n).
Proof.
  unfold count_indications, listed.
  assert (Hinner : forall ids l d,
            counted l d ->
            counted (l ++ ids) (fold_left count_indication ids d)).
  { induction ids as [|x ids IH]; intros l d Hd.
    - now rewrite app_nil_r.
    - cbn [fold_left].
      replace (l ++ x :: ids) with ((l ++ [x]) ++ ids)
        by (now rewrite <- app_assoc).
      apply IH. now apply count_indication_counted. }
  assert (Houter : forall (cs : list neighbor) l d,
            counted l d ->
            counted (l ++ flat_map (fun c => indications_of (fst c)) cs)
              (fold_left
                 (fun i_dct c =>
                    fold_left count_indication (indications_of (fst c)) i_dct)
                 cs d)).
  { induction cs as [|c cs IH]; intros l d Hd.
    - cbn. now rewrite app_nil_r.
    - cbn [fold_left flat_map]. rewrite app_assoc. apply IH.
      now apply Hinner. }
  apply (Houter _ [] []). split; [constructor |].
  split; [reflexivity | intros k v []].
Qed.

(** [canpredict_indications], after the neighbor list is regenerated, for a
    platform that knows every indication id met: it counts each distinct
    indication id of the first [n] neighbors once per occurrence, and reads
    the rows [0 .. topX-1] of the sorted counts.  So it raises [IndexError]
    when fewer than [topX] distinct indications are met, and otherwise
    prints [topX] rows whose scores never increase, each score being the
    number of occurrences of the row's indication. *)
Theorem canpredict_indications_rows (self : CANDO) (similar : list neighbor)
    (n topX : Z) :
  (forall k, In k (listed indications_of similar n) ->
             exists indd, get_indication self k = Ok indd /\ ind_id_ indd = k) ->
  let met := nodup string_dec (listed indications_of similar n) in
  (Z.of_nat (length met) < topX ->
   predicted_indications indications_of self similar n topX
   = Raise IndexError) /\
  (topX <= Z.of_nat (length met) ->
   exists rows,
     predicted_indications indications_of self similar n topX = Ok rows /\
     length rows = Z.to_nat topX /\
     StronglySorted (fun a b => snd (fst (fst b)) <= snd (fst (fst a))) rows /\
     forall r, In r rows ->
       snd (fst (fst r))
       = Z.of_nat (count_occ string_dec (listed indications_of similar n)
                     (snd (fst r)))
       /\ 1 <= snd (fst (fst r))).
Proof.
  intros Hknown met. unfold predicted_indications.
  pose proof (count_indications_counted similar n) as [Hnd [Hkeys Hvals]].
  set (d := count_indications indications_of similar n) in *.
  pose proof (sorted_desc_perm snd d) as Hperm.
  pose proof (sorted_desc_sorted snd d) as Hsorted.
  set (sx := sorted_desc snd d) in *.
  assert (Hlen : length sx = length met).
  { rewrite (Permutation_length Hperm), <- (length_map fst d).
    apply Permutation_length, NoDup_Permutation;
      [exact Hnd | apply NoDup_nodup |].
    intros k. unfold met. now rewrite nodup_In, Hkeys. }
  assert (Hrow : forall i rows, (i < length sx)%nat ->
            exists x indd,
              nth_error sx i = Some x /\
              print_row self sx i rows
              = Ok (rows ++ [(Z.of_nat i + 1, snd x, ind_id_ indd,
                              ind_name indd)]) /\
              ind_id_ indd = fst x).
  { intros i rows Hi. destruct (nth_error sx i) as [x|] eqn:Ex.
    2:{ apply nth_error_None in Ex. lia. }
    assert (Hx : In (fst x) (listed indications_of similar n)).
    { apply Hkeys. apply in_map.
      apply (Permutation_in _ Hperm). now apply nth_error_In with i. }
    destruct (Hknown _ Hx) as [indd [Hget Hid]].
    exists x, indd. split; [reflexivity |]. split; [| exact Hid].
    unfold print_row, getitem. rewrite Ex. cbn [bind]. now rewrite Hget. }
  split.
  - intros Hshort.
    apply (for_each_raises_inv (fun _ => True) _ IndexError (length sx));
      [lia | exact I | |].
    + intros i rows Hi _. destruct (Hrow i rows ltac:(lia)) as [x [indd [_ [H _]]]].
      eexists. split; [exact H | exact I].
    + intros rows _. unfold print_row, getitem.
      destruct (nth_error sx (length sx)) eqn:E; [| reflexivity].
      assert (H : nth_error sx (length sx) <> None) by congruence.
      apply nth_error_Some in H. lia.
  - intros Hfit.
    destruct (for_each_seq_total
      (fun m rows =>
         map (fun r => (snd (fst r), snd (fst (fst r)))) rows = firstn m sx)
      (print_row self sx) (Z.to_nat topX) 0 []) as [rows [Hrun Hrows]].
    + reflexivity.
    + intros i rs Hi Hrs.
      destruct (Hrow i rs ltac:(lia)) as [x [indd [Hx [H Hid]]]].
      eexists. split; [exact H |].
      rewrite map_app, Hrs, (firstn_snoc _ _ _ Hx). cbn [map fst snd].
      rewrite Hid. now destruct x.
    + cbn [Nat.add] in Hrows. exists rows. split; [exact Hrun |].
      assert (Hl : length rows = Z.to_nat topX).
      { rewrite <- (length_map (fun r => (snd (fst r), snd (fst (fst r)))) rows),
          Hrows, length_firstn. lia. }
      split; [exact Hl |].
      assert (Hin : forall r, In r rows ->
                In (snd (fst r), snd (fst (fst r))) d).
      { intros r Hr. apply (Permutation_in _ Hperm).
        assert (H : In (snd (fst r), snd (fst (fst r))) (firstn (Z.to_nat topX) sx))
          by (rewrite <- Hrows;
              apply (in_map (fun r => (snd (fst r), snd (fst (fst r)))) _ _ Hr)).
        rewrite <- (firstn_skipn (Z.to_nat topX) sx).
        apply in_or_app. now left. }
      split.
      * assert (Hs : StronglySorted (fun a b : string * Z => snd b <= snd a)
                       (firstn (Z.to_nat topX) sx)).
        { rewrite <- (firstn_skipn (Z.to_nat topX) sx) in Hsorted.
          clear -Hsorted. revert Hsorted.
          generalize (firstn (Z.to_nat topX) sx), (skipn (Z.to_nat topX) sx).
          intros l1 l2. induction l1 as [|a l1 IH]; intros H; [constructor |].
          cbn [app] in H. inversion H as [|? ? Hs Ha]; subst.
          constructor; [now apply IH |].
          apply Forall_app in Ha. tauto. }
        rewrite <- Hrows in Hs. clear -Hs.
        induction rows as [|r rows IH]; [constructor |].
        cbn [map] in Hs. inversion Hs as [|? ? Hs' Hr]; subst.
        constructor; [now apply IH |].
        rewrite Forall_map in Hr. exact Hr.
      * intros r Hr. pose proof (Hvals _ _ (Hin r Hr)) as Hv. split; [exact Hv |].
        assert (Hk : In (snd (fst r)) (listed indications_of similar n)).
        { apply Hkeys. apply in_map_iff.
          exists (snd (fst r), snd (fst (fst r))). split; [reflexivity |].
          now apply Hin. }
        rewrite Hv. rewrite (count_occ_In string_dec) in Hk. lia.
Qed.

End PredictFacts.

(** Three neighbors whose indications are D1; D1 and D2; none.  With the
    default [topX = 10] the call fails; with [topX = 2] the rows are D1 with
    score 2 and D2 with score 1. *)
Lemma canpredict_indications_rows_witness :
  let indications_of := fun k : cref =>
    match k with
    | 0%nat => ["MESH:D1"%string]
    | 1%nat => ["MESH:D1"%string; "MESH:D2"%string]
    | _ => []
    end in
  let similar := [(0%nat, one); (1%nat, f2); (2%nat, f3)] in
  predicted_indications indications_of two_indications similar 10 10
  = Raise IndexError /\
  predicted_indications indications_of two_indications similar 10 2
  = Ok [(1, 2, "MESH:D1"%string, "asthma"%string);
        (2, 1, "MESH:D2"%string, "gout"%string)].
Proof.
  cbv zeta.
  set (indications_of := fun k : cref =>
    match k with
    | 0%nat => ["MESH:D1"%string]
    | 1%nat => ["MESH:D1"%string; "MESH:D2"%string]
    | _ => []
    end).
  assert (Hknown : forall k,
            In k (listed indications_of
                    [(0%nat, one); (1%nat, f2); (2%nat, f3)] 10) ->
            exists indd, get_indication two_indications k = Ok indd /\
                         ind_id_ indd = k).
  { intros k [<- | [<- | [<- | []]]]; eexists; split; reflexivity. }
  split.
  - apply (proj1 (canpredict_indications_rows indications_of two_indications
                    [(0%nat, one); (1%nat, f2); (2%nat, f3)] 10 10 Hknown)).
    vm_compute. reflexivity.
  - reflexivity.
Defined.

(** ** The top targets of a compound *)

Lemma ss_app {A : Type} (R : A -> A -> Prop) (l1 l2 : list A) :
  StronglySorted R l1 -> StronglySorted R l2 ->
  (forall x y, In x l1 -> In y l2 -> R x y) ->
  StronglySorted R (l1 ++ l2).
Proof.
  intros H1 H2 H. induction H1 as [|a l1 Hs IH Ha]; [exact H2 |].
  cbn [app]. constructor.
  - apply IH. intros x y Hx Hy. apply H; [now right | exact Hy].
  - apply Forall_app. split; [exact Ha |].
    apply Forall_forall. intros y Hy. apply H; [now left | exact Hy].
Qed.

Lemma ss_app_inv {A : Type} (R : A -> A -> Prop) (l1 l2 : list A) :
  StronglySorted R (l1 ++ l2) ->
  StronglySorted R l1 /\ StronglySorted R l2 /\
  forall x y, In x l1 -> In y l2 -> R x y.
Proof.
  induction l1 as [|a l1 IH]; intros H.
  - split; [constructor |]. split; [exact H |]. intros x y [].
  - cbn [app] in H. inversion H as [|? ? Hs Ha]; subst.
    destruct (IH Hs) as [H1 [H2 H12]]. apply Forall_app in Ha as [Ha1 Ha2].
    split; [now constructor |]. split; [exact H2 |].
    intros x y [<- | Hx] Hy; [| now apply H12].
    rewrite Forall_forall in Ha2. now apply Ha2.
Qed.

Lemma ss_rev {A : Type} (R : A -> A -> Prop) (l : list A) :
  StronglySorted R l -> StronglySorted (fun a b => R b a) (rev l).
Proof.
  induction 1 as [|a l Hs IH Ha]; [constructor |].
  cbn [rev]. apply ss_app; [exact IH | repeat constructor |].
  intros x y Hx [<- | []]. apply in_rev in Hx.
  rewrite Forall_forall in Ha. now apply Ha.
Qed.

Lemma all_interactions_listed (proteins : list Protein) (sig : list float) :
  (length sig <= length proteins)%nat ->
  for_each (seq 0 (length sig)) (add_interaction proteins sig) []
  = Ok (combine (map prot_id_ (firstn (length sig) proteins)) sig).
Proof.
  intros Hlen.
  destruct (for_each_seq_total
    (fun m all => all = combine (map prot_id_ (firstn m proteins))
                                (firstn m sig))
    (add_interaction proteins sig) (length sig) 0 []) as [all [Hrun Hall]].
  - reflexivity.
  - intros i all Hi ->. unfold add_interaction, getitem.
    destruct (nth_error sig i) as [s|] eqn:Es.
    2:{ apply nth_error_None in Es. lia. }
    destruct (nth_error proteins i) as [p|] eqn:Ep.
    2:{ apply nth_error_None in Ep. lia. }
    cbn [bind]. eexists. split; [reflexivity |].
    rewrite (firstn_snoc _ _ _ Es), (firstn_snoc _ _ _ Ep), map_app.
    cbn [map]. rewrite combine_snoc; [reflexivity |].
    rewrite length_map, !length_firstn. lia.
  - rewrite Hrun, Hall. cbn [Nat.add]. now rewrite (firstn_all sig).
Qed.

(** [top_targets] for a compound whose signature has one score per protein,
    none of them NaN, and a non-negative [n]: it returns [min(n, m)] pairs
    of a protein id and its score, [m] being the number of proteins; those
    pairs together with the pairs left out are the signature's pairs; they
    come in descending order of score (ascending when [negative] is set);
    and no pair left out would rank before a returned one. *)
Theorem top_targets_highest (proteins : list Protein) (cmpd : Compound)
    (n : Z) (negative : bool) :
  length (sig cmpd) = length proteins ->
  Forall (fun s => isnan s = false) (sig cmpd) ->
  0 <= n ->
  exists top rest,
    top_targets proteins cmpd n negative = Ok top /\
    length top = Nat.min (Z.to_nat n) (length proteins) /\
    Permutation (top ++ rest) (combine (map prot_id_ proteins) (sig cmpd)) /\
    StronglySorted (ranks_before negative) top /\
    forall a b, In a top -> In b rest -> ranks_before negative a b.
Proof.
  intros Hlen Hnan Hn. unfold top_targets.
  rewrite all_interactions_listed by lia.
  rewrite Hlen, firstn_all. cbn [bind].
  set (all := combine (map prot_id_ proteins) (sig cmpd)).
  assert (Hall : length all = length proteins).
  { unfold all. rewrite length_combine, length_map. lia. }
  assert (Hkeys : Forall (fun a : string * float => isnan (snd a) = false) all).
  { apply Forall_forall. intros [p s] Hin. apply in_combine_r in Hin.
    rewrite Forall_forall in Hnan. now apply Hnan. }
  pose proof (sorted_perm snd all) as Hperm.
  pose proof (sorted_ascending snd all Hkeys) as Hasc.
  unfold key_ascending in Hasc.
  set (srt := if negative then sorted snd all else rev (sorted snd all)).
  assert (Hp : Permutation srt all).
  { unfold srt. destruct negative; [exact Hperm |].
    apply (Permutation_trans (Permutation_sym (Permutation_rev _)) Hperm). }
  assert (Hs : StronglySorted (ranks_before negative) srt).
  { unfold srt, ranks_before. destruct negative; [exact Hasc |].
    now apply (ss_rev _ _ Hasc). }
  set (k := if n >? len proteins then len proteins else n).
  assert (Hk : Z.to_nat k = Nat.min (Z.to_nat n) (length proteins)).
  { unfold k, len. destruct (Z.gtb_spec n (Z.of_nat (length proteins))); lia. }
  assert (Hk0 : 0 <= k).
  { unfold k, len. destruct (n >? Z.of_nat (length proteins)); lia. }
  rewrite print_rows_total
    by (rewrite (Permutation_length Hp), Hall, Hk; lia).
  cbn [bind]. unfold slice_to. destruct (Z.leb_spec 0 k); [| lia].
  exists (firstn (Z.to_nat k) srt), (skipn (Z.to_nat k) srt).
  split; [reflexivity |]. split.
  - rewrite length_firstn, (Permutation_length Hp), Hall, Hk. lia.
  - rewrite firstn_skipn. split; [exact Hp |].
    rewrite <- (firstn_skipn (Z.to_nat k) srt) in Hs.
    apply ss_app_inv in Hs as [H1 [_ H12]]. split; [exact H1 | exact H12].
Qed.

(** Three proteins scoring 1.0, 3.0 and 2.0: the top two are the second and
    the third. *)
Lemma top_targets_highest_witness :
  top_targets [mkProtein "P1"; mkProtein "P2"; mkProtein "P3"]
    (set_sig [one; f3; f2] (blank_compound 0 [] false)) 2 false
  = Ok [("P2"%string, f3); ("P3"%string, f2)].
Proof.
  destruct (top_targets_highest
              [mkProtein "P1"; mkProtein "P2"; mkProtein "P3"]
              (set_sig [one; f3; f2] (blank_compound 0 [] false)) 2 false)
    as [top [rest [Hrun _]]].
  - reflexivity.
  - repeat constructor.
  - lia.
  - rewrite Hrun. vm_compute in Hrun. symmetry. exact Hrun.
Defined.
